(** * Multi-scale RGB-D odometry driver (Open3D, t/pipelines/odometry)

    A shallow embedding of [RGBDOdometry.cpp] and of the configuration
    reader of [DemoTICPOdom.cpp].

    Tensors are reference-counted handles onto blobs in Open3D: copying a
    [core::Tensor] or a [t::geometry::Image] shares the blob, [Clone]
    copies it, and [operator/=] and indexed assignment write into it.  The
    embedding therefore threads an explicit store of blobs, together with a
    log of the image and pose kernels that were run, through an error
    monad: [utility::LogError] throws, which ends the computation.

    Tensor elements are modelled as exact rationals extended with NaN
    (the invalid-pixel marker); rounding of Float32/Float64 arithmetic is
    not modelled. *)

From Stdlib Require Import ZArith QArith Lia List Bool String Ascii.
From stdpp Require Import base option list.

Close Scope Q_scope.
Close Scope string_scope.
Local Open Scope nat_scope.

(** ** Scalars *)

Inductive scalar : Type :=
| Num (q : Q)
| NaN.

Definition sdiv (a b : scalar) : scalar :=
  match a, b with
  | Num x, Num y => if Qeq_bool y 0 then NaN else Num (x / y)
  | _, _ => NaN
  end.

Definition smul (a b : scalar) : scalar :=
  match a, b with
  | Num x, Num y => Num (x * y)
  | _, _ => NaN
  end.

Definition sadd (a b : scalar) : scalar :=
  match a, b with
  | Num x, Num y => Num (x + y)
  | _, _ => NaN
  end.

(** Comparisons involving NaN are false, as in IEEE arithmetic. *)
Definition slt (a b : scalar) : bool :=
  match a, b with
  | Num x, Num y => negb (Qle_bool y x)
  | _, _ => false
  end.

Definition sle (a b : scalar) : bool :=
  match a, b with
  | Num x, Num y => Qle_bool x y
  | _, _ => false
  end.

Definition scalar_equiv (a b : scalar) : Prop :=
  match a, b with
  | Num x, Num y => Qeq x y
  | NaN, NaN => True
  | _, _ => False
  end.

Definition sZ (z : Z) : scalar := Num (inject_Z z).

(** ** Tensor values, handles and the store *)

Inductive Dtype : Type :=
| Undefined | Float32 | Float64 | Int32 | Int64 | UInt8 | UInt16 | Bool8.

Inductive DeviceType : Type := CPU | CUDA.

Record Device : Type := mkDevice { dev_type : DeviceType; dev_id : Z }.

#[global] Instance Dtype_eq_dec : EqDecision Dtype.
Proof. solve_decision. Defined.
#[global] Instance DeviceType_eq_dec : EqDecision DeviceType.
Proof. solve_decision. Defined.
#[global] Instance Device_eq_dec : EqDecision Device.
Proof. solve_decision. Defined.

(** [core::Device host("CPU:0")] *)
Definition host : Device := mkDevice CPU 0.

(** The contents of a blob together with the metadata of the tensor that
    owns it.  Data is stored row-major. *)
Record TVal : Type := mkTVal {
  tv_shape : list Z;
  tv_dtype : Dtype;
  tv_device : Device;
  tv_data : list scalar
}.

(** A default-constructed [core::Tensor()] owns no blob. *)
Inductive Tensor : Type :=
| TensorAt (l : nat)
| TensorEmpty.

#[global] Instance Tensor_eq_dec : EqDecision Tensor.
Proof. solve_decision. Defined.

(** A [t::geometry::Image] wraps one tensor of shape (rows, cols, channels). *)
Abbreviation Image := Tensor.

Record RGBDImage : Type := mkRGBD { color_ : Image; depth_ : Image }.

Inductive Method : Type :=
| PointToPlane
| Intensity
| Hybrid
| MethodOther (code : Z).   (* an enum value outside the three enumerators *)

#[global] Instance Method_eq_dec : EqDecision Method.
Proof. solve_decision. Defined.

(** Kernels that were launched, in order.  Pose kernels are tagged with the
    loop counters of the call site. *)
Inductive Event : Type :=
| EvClipTransform
| EvCreateVertexMap
| EvCreateNormalMap
| EvPyrDownDepth
| EvPyrDown
| EvRGBToGray
| EvImageTo
| EvFilterSobel
| EvComputePose (m : Method) (level iter : nat).

#[global] Instance Event_eq_dec : EqDecision Event.
Proof. solve_decision. Defined.

(** One constructor per [utility::LogError] call site. *)
Inductive Error : Type :=
| ErrDeviceMismatch          (* "Device mismatch, got {} for source and {} for target." *)
| ErrInvalidShape            (* "Invalid shape, expected a 1 channel image, ..." *)
| ErrExpectedFloat32         (* "Expected a Float32 image, but got {}" *)
| ErrMethodNotImplemented    (* "Odometry method not implemented." *)
| ErrDepthPrecondition       (* precondition of depth clipping, from the spec *)
| ErrVectorLengths           (* " Length of vector: voxel_sizes, ... must be same." *)
| ErrRegistrationMethod.     (* " Registration method {}, not implemented." *)

Record State : Type := mkState {
  store : list TVal;
  trace : list Event
}.

Definition empty_tval : TVal := mkTVal [0%Z] Undefined host [].

Definition deref (s : State) (t : Tensor) : TVal :=
  match t with
  | TensorAt l => default empty_tval (store s !! l)
  | TensorEmpty => empty_tval
  end.

(** ** The monad: state of store and log, with fatal errors *)

Definition Result (A : Type) : Type := (Error + A)%type.

Definition M (A : Type) : Type := State -> Result A * State.

Definition ret {A} (a : A) : M A := fun s => (inr a, s).

Definition bind {A B} (m : M A) (f : A -> M B) : M B :=
  fun s =>
    match m s with
    | (inl e, s') => (inl e, s')
    | (inr a, s') => f a s'
    end.

Declare Scope m_scope.
Delimit Scope m_scope with M.
Notation "'do' x <- m ; k" := (bind m (fun x => k))
  (at level 10, x pattern, m at level 100, k at level 200) : m_scope.
Notation "m ;> k" := (bind m (fun _ => k))
  (at level 100, k at level 200, right associativity) : m_scope.
Local Open Scope m_scope.

(** [utility::LogError] throws. *)
Definition LogError {A} (e : Error) : M A := fun s => (inl e, s).

Definition when (b : bool) (m : M unit) : M unit :=
  if b then m else ret tt.

Definition load (t : Tensor) : M TVal := fun s => (inr (deref s t), s).

Definition alloc (v : TVal) : M Tensor :=
  fun s => (inr (TensorAt (length (store s))),
            mkState (store s ++ [v]) (trace s)).

Definition overwrite (t : Tensor) (v : TVal) : M unit :=
  fun s =>
    match t with
    | TensorAt l => (inr tt, mkState (<[l := v]> (store s)) (trace s))
    | TensorEmpty => (inr tt, s)
    end.

Definition emit (e : Event) : M unit :=
  fun s => (inr tt, mkState (store s) (trace s ++ [e])).

(** [for (i = start; i < start + todo; ++i) st = body i st] *)
Fixpoint for_loop {S : Type} (todo : nat) (i : nat)
    (body : nat -> S -> M S) (st : S) : M S :=
  match todo with
  | O => ret st
  | Datatypes.S k => do st' <- body i st; for_loop k (Datatypes.S i) body st'
  end.

Definition for_range {S : Type} (n : nat) (body : nat -> S -> M S) (st : S)
    : M S :=
  for_loop n 0 body st.

(** ** Tensor operations of the substrate *)

Definition dim (v : TVal) (k : nat) : Z := nth k (tv_shape v) 0%Z.

Definition GetRows (v : TVal) : Z := dim v 0.
Definition GetCols (v : TVal) : Z := dim v 1.
Definition GetChannels (v : TVal) : Z := dim v 2.

(** [Tensor::Clone]: a new blob with the same contents. *)
Definition Clone (t : Tensor) : M Tensor :=
  do v <- load t; alloc v.

(** [Tensor::To(device, dtype)] with [copy = false]: the tensor itself when
    it already has that device and dtype, a converted copy otherwise. *)
Definition To (t : Tensor) (device : Device) (dtype : Dtype) : M Tensor :=
  do v <- load t;
  if decide (tv_device v = device /\ tv_dtype v = dtype) then ret t
  else alloc (mkTVal (tv_shape v) dtype device (tv_data v)).

(** [tensor /= c]: every element is divided, in place. *)
Definition div_val (v : TVal) (c : scalar) : TVal :=
  mkTVal (tv_shape v) (tv_dtype v) (tv_device v)
    (map (fun x => sdiv x c) (tv_data v)).

Definition Div_ (t : Tensor) (c : scalar) : M unit :=
  do v <- load t; overwrite t (div_val v c).

(** Python-style index wrap of [tensor[i]]. *)
Definition wrap_index (i n : Z) : Z := if (i <? 0)%Z then (i + n)%Z else i.

(** [tensor[i][j] = c] on a matrix: writes through the view into the blob. *)
Definition set_item2_val (v : TVal) (i j : Z) (c : scalar) : TVal :=
  let r := wrap_index i (dim v 0) in
  let k := wrap_index j (dim v 1) in
  mkTVal (tv_shape v) (tv_dtype v) (tv_device v)
    (<[Z.to_nat (r * dim v 1 + k) := c]> (tv_data v)).

Definition SetItem2 (t : Tensor) (i j : Z) (c : scalar) : M unit :=
  do v <- load t; overwrite t (set_item2_val v i j c).

Definition mat_entry (cols : nat) (d : list scalar) (r c : nat) : scalar :=
  nth (r * cols + c) d NaN.

Definition dot (k n : nat) (a b : list scalar) (i j : nat) : scalar :=
  fold_left sadd
    (map (fun l => smul (mat_entry k a i l) (mat_entry n b l j)) (seq 0 k))
    (sZ 0).

Definition matmul_val (a b : TVal) : TVal :=
  let m := Z.to_nat (dim a 0) in
  let k := Z.to_nat (dim a 1) in
  let n := Z.to_nat (dim b 1) in
  mkTVal [dim a 0; dim b 1] (tv_dtype a) (tv_device a)
    (flat_map (fun i => map (fun j => dot k n (tv_data a) (tv_data b) i j)
                            (seq 0 n))
              (seq 0 m)).

(** [a.Matmul(b)]: a new tensor. *)
Definition Matmul (a b : Tensor) : M Tensor :=
  do va <- load a; do vb <- load b; alloc (matmul_val va vb).

(** [Tensor::Contiguous]: products are already contiguous. *)
Definition Contiguous (t : Tensor) : M Tensor := ret t.

(** ** Kernels outside this file

    The image and pose kernels are collaborators of the driver; they are
    taken as functions from tensor values to tensor values. *)

Record Kernels : Type := mkKernels {
  k_CreateVertexMap : TVal -> TVal -> scalar -> TVal;
  k_CreateNormalMap : TVal -> scalar -> TVal;
  k_PyrDownDepth : TVal -> scalar -> scalar -> list scalar;
  k_PyrDown : TVal -> TVal;
  k_RGBToGray : TVal -> TVal;
  k_ImageTo : TVal -> Dtype -> TVal;
  k_FilterSobel : TVal -> TVal * TVal;
  k_ComputePosePointToPlane :
    TVal -> TVal -> TVal -> TVal -> TVal -> scalar -> TVal * TVal;
  k_ComputePoseIntensity :
    TVal -> TVal -> TVal -> TVal -> TVal -> TVal -> TVal -> TVal -> TVal ->
    scalar -> TVal * TVal;
  k_ComputePoseHybrid :
    TVal -> TVal -> TVal -> TVal -> TVal -> TVal -> TVal -> TVal -> TVal ->
    TVal -> TVal -> scalar -> TVal * TVal;
  k_PoseToTransformation : TVal -> TVal
}.

(** Modelled from the spec: [Image::ClipTransform] is not part of the
    sources at hand.  Per element, the value is divided by the scale; a
    quotient outside [min_value, max_value] is replaced by the fill value. *)
Definition clip_elem (scale min_value max_value clip_fill x : scalar)
    : scalar :=
  let y := sdiv x scale in
  if slt y min_value || slt max_value y then clip_fill else y.

(** Modelled from the spec: the clipped grid is a new grid of the same
    shape; the depth grid must have one channel and be Float32. *)
Definition clip_val (scale min_value max_value clip_fill : scalar)
    (v : TVal) : TVal :=
  mkTVal (tv_shape v) (tv_dtype v) (tv_device v)
    (map (clip_elem scale min_value max_value clip_fill) (tv_data v)).

Definition depth_precondition (v : TVal) : bool :=
  (GetChannels v =? 1)%Z && bool_decide (tv_dtype v = Float32).

(** Modelled from the spec: [Image::ClipTransform], with its precondition
    and without side effect on its input. *)
Definition ClipTransform (img : Image)
    (scale min_value max_value clip_fill : scalar) : M Image :=
  do v <- load img;
  when (negb (depth_precondition v)) (LogError ErrDepthPrecondition) ;>
  emit EvClipTransform ;>
  alloc (clip_val scale min_value max_value clip_fill v).

Section Driver.

Context (K : Kernels).

Definition CreateVertexMap (img : Image) (intrinsics : Tensor)
    (invalid_fill : scalar) : M Image :=
  do v <- load img;
  do k <- load intrinsics;
  emit EvCreateVertexMap ;>
  alloc (k_CreateVertexMap K v k invalid_fill).

Definition CreateNormalMap (img : Image) (invalid_fill : scalar) : M Image :=
  do v <- load img;
  emit EvCreateNormalMap ;>
  alloc (k_CreateNormalMap K v invalid_fill).

Definition PyrDown (img : Image) : M Image :=
  do v <- load img;
  emit EvPyrDown ;>
  alloc (k_PyrDown K v).

Definition RGBToGray (img : Image) : M Image :=
  do v <- load img;
  emit EvRGBToGray ;>
  alloc (k_RGBToGray K v).

(** [Image::To(dtype)] with [copy = false]. *)
Definition ImageTo (img : Image) (dtype : Dtype) : M Image :=
  do v <- load img;
  if decide (tv_dtype v = dtype) then ret img
  else (emit EvImageTo ;> alloc (k_ImageTo K v dtype)).

Definition FilterSobel (img : Image) : M (Image * Image) :=
  do v <- load img;
  emit EvFilterSobel ;>
  do dx <- alloc (fst (k_FilterSobel K v));
  do dy <- alloc (snd (k_FilterSobel K v));
  ret (dx, dy).

Definition PoseToTransformation (pose : Tensor) : M Tensor :=
  do v <- load pose; alloc (k_PoseToTransformation K v).

(** *** [PyrDownDepth] (anonymous namespace) *)

Definition pyr_down_val (src : TVal) (diff_threshold invalid_fill : scalar)
    : TVal :=
  mkTVal [(GetRows src ÷ 2)%Z; (GetCols src ÷ 2)%Z; 1%Z]
    (tv_dtype src) (tv_device src)
    (k_PyrDownDepth K src diff_threshold invalid_fill).

Definition PyrDownDepth (src : Image) (diff_threshold invalid_fill : scalar)
    : M Image :=
  do v <- load src;
  when ((GetRows v <=? 0)%Z || (GetCols v <=? 0)%Z
        || negb (GetChannels v =? 1)%Z)
       (LogError ErrInvalidShape) ;>
  when (negb (bool_decide (tv_dtype v = Float32)))
       (LogError ErrExpectedFloat32) ;>
  emit EvPyrDownDepth ;>
  alloc (pyr_down_val v diff_threshold invalid_fill).

(** *** Pose kernels, lines 373-432

    The kernel fills the default-constructed [se3_delta] and [residual];
    the 6-vector is converted into a 4x4 transformation. *)

Definition ComputePosePointToPlane
    (source_vertex_map target_vertex_map target_normal_map intrinsics
     init_source_to_target : Tensor) (depth_diff : scalar) : M Tensor :=
  do a <- load source_vertex_map;
  do b <- load target_vertex_map;
  do c <- load target_normal_map;
  do k <- load intrinsics;
  do t <- load init_source_to_target;
  let out := k_ComputePosePointToPlane K a b c k t depth_diff in
  do se3_delta <- alloc (fst out);
  do residual <- alloc (snd out);
  PoseToTransformation se3_delta.

Definition ComputePoseIntensity
    (source_depth target_depth source_intensity target_intensity
     target_intensity_dx target_intensity_dy source_vertex_map intrinsics
     init_source_to_target : Tensor) (depth_diff : scalar) : M Tensor :=
  do sd <- load source_depth;
  do td <- load target_depth;
  do si <- load source_intensity;
  do ti <- load target_intensity;
  do tix <- load target_intensity_dx;
  do tiy <- load target_intensity_dy;
  do sv <- load source_vertex_map;
  do k <- load intrinsics;
  do t <- load init_source_to_target;
  let out := k_ComputePoseIntensity K sd td si ti tix tiy sv k t depth_diff in
  do se3_delta <- alloc (fst out);
  do residual <- alloc (snd out);
  PoseToTransformation se3_delta.

Definition ComputePoseHybrid
    (source_depth target_depth source_intensity target_intensity
     target_depth_dx target_depth_dy target_intensity_dx target_intensity_dy
     source_vertex_map intrinsics init_source_to_target : Tensor)
    (depth_diff : scalar) : M Tensor :=
  do sd <- load source_depth;
  do td <- load target_depth;
  do si <- load source_intensity;
  do ti <- load target_intensity;
  do tdx <- load target_depth_dx;
  do tdy <- load target_depth_dy;
  do tix <- load target_intensity_dx;
  do tiy <- load target_intensity_dy;
  do sv <- load source_vertex_map;
  do k <- load intrinsics;
  do t <- load init_source_to_target;
  let out :=
    k_ComputePoseHybrid K sd td si ti tdx tdy tix tiy sv k t depth_diff in
  do se3_delta <- alloc (fst out);
  do residual <- alloc (snd out);
  PoseToTransformation se3_delta.

(** *** Point-to-plane driver, lines 150-205

    The parallel vectors [source_vertex_maps], [target_vertex_maps],
    [target_normal_maps] and [intrinsic_matrices] are always written at the
    same index in the same iteration; they are kept as one vector of
    per-level records.  [std::vector<core::Tensor>(n_levels)] starts out
    with default-constructed tensors.

    [intrinsics] and [trans] are [core::Tensor&] in the three drivers.
    Writing through [intrinsics] changes its blob, which the store shows.
    Assigning to [trans] makes the caller's tensor denote the product;
    the loops carry [trans] and the drivers end in [return trans], so the
    handle a driver returns is also what the caller's [trans] denotes
    after the call ([call_driver] below spells this out). *)

Record LevelP2P : Type := mkLevelP2P {
  p_source_vertex_map : Tensor;
  p_target_vertex_map : Tensor;
  p_target_normal_map : Tensor;
  p_intrinsic_matrix : Tensor
}.

Definition LevelP2P_default : LevelP2P :=
  mkLevelP2P TensorEmpty TensorEmpty TensorEmpty TensorEmpty.

(** "Create image pyramid." *)
Definition PyramidPointToPlane (source target : RGBDImage)
    (intrinsics : Tensor) (depth_diff : scalar) (iterations : list Z)
    : M (list LevelP2P) :=
  let n_levels := length iterations in
  do st <- for_range n_levels
    (fun i '(source_depth_curr, target_depth_curr, levels) =>
       do source_vertex_map <- CreateVertexMap source_depth_curr intrinsics NaN;
       do target_vertex_map <- CreateVertexMap target_depth_curr intrinsics NaN;
       do target_normal_map <- CreateNormalMap target_vertex_map NaN;
       do intrinsic_matrix <- Clone intrinsics;
       let levels :=
         <[n_levels - 1 - i :=
             mkLevelP2P source_vertex_map target_vertex_map target_normal_map
               intrinsic_matrix]> levels in
       if negb (i =? n_levels - 1) then
         do source_depth_next <-
           PyrDownDepth source_depth_curr (smul depth_diff (sZ 2)) NaN;
         do target_depth_next <-
           PyrDownDepth target_depth_curr (smul depth_diff (sZ 2)) NaN;
         Div_ intrinsics (sZ 2) ;>
         SetItem2 intrinsics (-1) (-1) (sZ 1) ;>
         ret (source_depth_next, target_depth_next, levels)
       else ret (source_depth_curr, target_depth_curr, levels))
    (depth_ source, depth_ target, replicate n_levels LevelP2P_default);
  ret (snd st).

(** The coarse-to-fine loop. *)
Definition OdometryPointToPlane (levels : list LevelP2P) (trans : Tensor)
    (depth_diff : scalar) (iterations : list Z) : M Tensor :=
  let n_levels := length iterations in
  for_range n_levels
    (fun i trans =>
       for_range (Z.to_nat (nth i iterations 0%Z))
         (fun iter trans =>
            let lv := nth i levels LevelP2P_default in
            emit (EvComputePose PointToPlane i iter) ;>
            do delta_source_to_target <-
              ComputePosePointToPlane (p_source_vertex_map lv)
                (p_target_vertex_map lv) (p_target_normal_map lv)
                (p_intrinsic_matrix lv) trans depth_diff;
            do product <- Matmul delta_source_to_target trans;
            Contiguous product)
         trans)
    trans.

Definition RGBDOdometryMultiScalePointToPlane (source target : RGBDImage)
    (intrinsics trans : Tensor) (depth_scale depth_max depth_diff : scalar)
    (iterations : list Z) : M Tensor :=
  do levels <- PyramidPointToPlane source target intrinsics depth_diff
                 iterations;
  OdometryPointToPlane levels trans depth_diff iterations.

(** *** Intensity driver, lines 207-285 *)

Record LevelIntensity : Type := mkLevelIntensity {
  i_source_depth : Tensor;
  i_target_depth : Tensor;
  i_source_intensity : Tensor;
  i_target_intensity : Tensor;
  i_source_vertex_map : Tensor;
  i_target_intensity_dx : Tensor;
  i_target_intensity_dy : Tensor;
  i_intrinsic_matrix : Tensor
}.

Definition LevelIntensity_default : LevelIntensity :=
  mkLevelIntensity TensorEmpty TensorEmpty TensorEmpty TensorEmpty
    TensorEmpty TensorEmpty TensorEmpty TensorEmpty.

Definition PyramidIntensity (source target : RGBDImage)
    (intrinsics : Tensor) (depth_diff : scalar) (iterations : list Z)
    : M (list LevelIntensity) :=
  let n_levels := length iterations in
  do source_gray <- RGBToGray (color_ source);
  do source_intensity_0 <- ImageTo source_gray Float32;
  do target_gray <- RGBToGray (color_ target);
  do target_intensity_0 <- ImageTo target_gray Float32;
  do st <- for_range n_levels
    (fun i '(source_depth_curr, target_depth_curr, source_intensity_curr,
             target_intensity_curr, levels) =>
       do source_depth <- Clone source_depth_curr;
       do target_depth <- Clone target_depth_curr;
       do source_intensity <- Clone source_intensity_curr;
       do target_intensity <- Clone target_intensity_curr;
       do source_vertex_map <- CreateVertexMap source_depth_curr intrinsics NaN;
       do target_intensity_grad <- FilterSobel target_intensity_curr;
       do intrinsic_matrix <- Clone intrinsics;
       let levels :=
         <[n_levels - 1 - i :=
             mkLevelIntensity source_depth target_depth source_intensity
               target_intensity source_vertex_map
               (fst target_intensity_grad) (snd target_intensity_grad)
               intrinsic_matrix]> levels in
       if negb (i =? n_levels - 1) then
         do source_depth_next <-
           PyrDownDepth source_depth_curr (smul depth_diff (sZ 2)) NaN;
         do target_depth_next <-
           PyrDownDepth target_depth_curr (smul depth_diff (sZ 2)) NaN;
         do source_intensity_next <- PyrDown source_intensity_curr;
         do target_intensity_next <- PyrDown target_intensity_curr;
         Div_ intrinsics (sZ 2) ;>
         SetItem2 intrinsics (-1) (-1) (sZ 1) ;>
         ret (source_depth_next, target_depth_next, source_intensity_next,
              target_intensity_next, levels)
       else ret (source_depth_curr, target_depth_curr, source_intensity_curr,
                 target_intensity_curr, levels))
    (depth_ source, depth_ target, source_intensity_0, target_intensity_0,
     replicate n_levels LevelIntensity_default);
  ret (snd st).

Definition OdometryIntensity (levels : list LevelIntensity) (trans : Tensor)
    (depth_diff : scalar) (iterations : list Z) : M Tensor :=
  let n_levels := length iterations in
  for_range n_levels
    (fun i trans =>
       for_range (Z.to_nat (nth i iterations 0%Z))
         (fun iter trans =>
            let lv := nth i levels LevelIntensity_default in
            emit (EvComputePose Intensity i iter) ;>
            do delta_source_to_target <-
              ComputePoseIntensity (i_source_depth lv) (i_target_depth lv)
                (i_source_intensity lv) (i_target_intensity lv)
                (i_target_intensity_dx lv) (i_target_intensity_dy lv)
                (i_source_vertex_map lv) (i_intrinsic_matrix lv) trans
                depth_diff;
            Matmul delta_source_to_target trans)
         trans)
    trans.

Definition RGBDOdometryMultiScaleIntensity (source target : RGBDImage)
    (intrinsics trans : Tensor) (depth_scale depth_max depth_diff : scalar)
    (iterations : list Z) : M Tensor :=
  do levels <- PyramidIntensity source target intrinsics depth_diff iterations;
  OdometryIntensity levels trans depth_diff iterations.

(** *** Hybrid driver, lines 287-371 *)

Record LevelHybrid : Type := mkLevelHybrid {
  h_source_depth : Tensor;
  h_target_depth : Tensor;
  h_source_intensity : Tensor;
  h_target_intensity : Tensor;
  h_source_vertex_map : Tensor;
  h_target_intensity_dx : Tensor;
  h_target_intensity_dy : Tensor;
  h_target_depth_dx : Tensor;
  h_target_depth_dy : Tensor;
  h_intrinsic_matrix : Tensor
}.

Definition LevelHybrid_default : LevelHybrid :=
  mkLevelHybrid TensorEmpty TensorEmpty TensorEmpty TensorEmpty TensorEmpty
    TensorEmpty TensorEmpty TensorEmpty TensorEmpty TensorEmpty.

Definition PyramidHybrid (source target : RGBDImage)
    (intrinsics : Tensor) (depth_diff : scalar) (iterations : list Z)
    : M (list LevelHybrid) :=
  let n_levels := length iterations in
  do source_gray <- RGBToGray (color_ source);
  do source_intensity_0 <- ImageTo source_gray Float32;
  do target_gray <- RGBToGray (color_ target);
  do target_intensity_0 <- ImageTo target_gray Float32;
  do st <- for_range n_levels
    (fun i '(source_depth_curr, target_depth_curr, source_intensity_curr,
             target_intensity_curr, levels) =>
       do source_depth <- Clone source_depth_curr;
       do target_depth <- Clone target_depth_curr;
       do source_intensity <- Clone source_intensity_curr;
       do target_intensity <- Clone target_intensity_curr;
       do source_vertex_map <- CreateVertexMap source_depth_curr intrinsics NaN;
       do target_intensity_grad <- FilterSobel target_intensity_curr;
       do target_depth_grad <- FilterSobel target_depth_curr;
       do intrinsic_matrix <- Clone intrinsics;
       let levels :=
         <[n_levels - 1 - i :=
             mkLevelHybrid source_depth target_depth source_intensity
               target_intensity source_vertex_map
               (fst target_intensity_grad) (snd target_intensity_grad)
               (fst target_depth_grad) (snd target_depth_grad)
               intrinsic_matrix]> levels in
       if negb (i =? n_levels - 1) then
         do source_depth_next <-
           PyrDownDepth source_depth_curr (smul depth_diff (sZ 2)) NaN;
         do target_depth_next <-
           PyrDownDepth target_depth_curr (smul depth_diff (sZ 2)) NaN;
         do source_intensity_next <- PyrDown source_intensity_curr;
         do target_intensity_next <- PyrDown target_intensity_curr;
         Div_ intrinsics (sZ 2) ;>
         SetItem2 intrinsics (-1) (-1) (sZ 1) ;>
         ret (source_depth_next, target_depth_next, source_intensity_next,
              target_intensity_next, levels)
       else ret (source_depth_curr, target_depth_curr, source_intensity_curr,
                 target_intensity_curr, levels))
    (depth_ source, depth_ target, source_intensity_0, target_intensity_0,
     replicate n_levels LevelHybrid_default);
  ret (snd st).

Definition OdometryHybrid (levels : list LevelHybrid) (trans : Tensor)
    (depth_diff : scalar) (iterations : list Z) : M Tensor :=
  let n_levels := length iterations in
  for_range n_levels
    (fun i trans =>
       for_range (Z.to_nat (nth i iterations 0%Z))
         (fun iter trans =>
            let lv := nth i levels LevelHybrid_default in
            emit (EvComputePose Hybrid i iter) ;>
            do delta_source_to_target <-
              ComputePoseHybrid (h_source_depth lv) (h_target_depth lv)
                (h_source_intensity lv) (h_target_intensity lv)
                (h_target_depth_dx lv) (h_target_depth_dy lv)
                (h_target_intensity_dx lv) (h_target_intensity_dy lv)
                (h_source_vertex_map lv) (h_intrinsic_matrix lv) trans
                depth_diff;
            Matmul delta_source_to_target trans)
         trans)
    trans.

Definition RGBDOdometryMultiScaleHybrid (source target : RGBDImage)
    (intrinsics trans : Tensor) (depth_scale depth_max depth_diff : scalar)
    (iterations : list Z) : M Tensor :=
  do levels <- PyramidHybrid source target intrinsics depth_diff iterations;
  OdometryHybrid levels trans depth_diff iterations.

(** *** Entry point, lines 94-148 *)

Definition RGBDOdometryMultiScale (source target : RGBDImage)
    (intrinsics init_source_to_target : Tensor)
    (depth_scale depth_max depth_diff : scalar) (iterations : list Z)
    (method : Method) : M Tensor :=
  do sd <- load (depth_ source);
  do td <- load (depth_ target);
  let device := tv_device sd in
  when (negb (bool_decide (tv_device td = device)))
       (LogError ErrDeviceMismatch) ;>
  do intrinsics_h <- To intrinsics host Float64;
  do intrinsics_d <- Clone intrinsics_h;
  do trans_h <- To init_source_to_target host Float64;
  do trans_d <- Clone trans_h;
  let source_depth := depth_ source in
  let target_depth := depth_ target in
  do source_depth_processed <-
    ClipTransform source_depth depth_scale (sZ 0) depth_max NaN;
  do target_depth_processed <-
    ClipTransform target_depth depth_scale (sZ 0) depth_max NaN;
  let source_processed := mkRGBD (color_ source) source_depth_processed in
  let target_processed := mkRGBD (color_ target) target_depth_processed in
  match method with
  | PointToPlane =>
      RGBDOdometryMultiScalePointToPlane source_processed target_processed
        intrinsics_d trans_d depth_scale depth_max depth_diff iterations
  | Intensity =>
      RGBDOdometryMultiScaleIntensity source_processed target_processed
        intrinsics_d trans_d depth_scale depth_max depth_diff iterations
  | Hybrid =>
      RGBDOdometryMultiScaleHybrid source_processed target_processed
        intrinsics_d trans_d depth_scale depth_max depth_diff iterations
  | MethodOther _ => LogError ErrMethodNotImplemented
  end.

End Driver.

(** ** [ExampleWindow::ReadConfigFile], lines 303-329 of the ICP demo

    The part of the reader that runs once the file has been parsed into
    its vectors: the length check, the construction of the per-scale
    criteria and the choice of the estimation method. *)

Record ICPConvergenceCriteria : Type := mkCriteria {
  relative_fitness_ : Q;
  relative_rmse_ : Q;
  max_iteration_ : Z
}.

Inductive Estimation : Type :=
| TransformationEstimationPointToPoint
| TransformationEstimationPointToPlane.

Definition ReadConfigFile_check
    (voxel_sizes search_radius relative_fitness relative_rmse : list Q)
    (max_iterations : list Z) (registration_method : String.string)
    : Result (list ICPConvergenceCriteria * Estimation) :=
  let length_ := length voxel_sizes in
  if negb (length search_radius =? length_)
     || negb (length max_iterations =? length_)
     || negb (length relative_fitness =? length_)
     || negb (length relative_rmse =? length_)
  then inl ErrVectorLengths
  else
    let criterias :=
      map (fun i => mkCriteria (nth i relative_fitness 0%Q)
                      (nth i relative_rmse 0%Q) (nth i max_iterations 0%Z))
          (seq 0 length_) in
    if String.eqb registration_method "PointToPoint"%string then
      inr (criterias, TransformationEstimationPointToPoint)
    else if String.eqb registration_method "PointToPlane"%string then
      inr (criterias, TransformationEstimationPointToPlane)
    else inl ErrRegistrationMethod.

(** ** A concrete instance, for evaluation *)

Module Demo.

Definition image_like (v : TVal) (channels : Z) (d : list scalar) : TVal :=
  mkTVal [GetRows v; GetCols v; channels] Float32 (tv_device v) d.

Definition rotZ : list scalar :=
  map sZ [0; -1; 0; 0;   1; 0; 0; 0;   0; 0; 1; 0;   0; 0; 0; 1]%Z.

Definition rotX : list scalar :=
  map sZ [1; 0; 0; 0;   0; 0; -1; 0;   0; 1; 0; 0;   0; 0; 0; 1]%Z.

Definition eye4 : list scalar :=
  map sZ [1; 0; 0; 0;   0; 1; 0; 0;   0; 0; 1; 0;   0; 0; 0; 1]%Z.

Definition is_zero (x : scalar) : bool :=
  match x with Num q => Qeq_bool q 0 | NaN => false end.

(** The pose kernel answers with a first 6-vector while the running
    transformation has a zero at row 0, column 1, and with a second one
    afterwards. *)
Definition pose_of (t : TVal) : TVal * TVal :=
  (mkTVal [6%Z] Float64 host
     (if is_zero (nth 1 (tv_data t) NaN)
      then map sZ [0; 0; 1; 0; 0; 0]%Z else map sZ [1; 0; 0; 0; 0; 0]%Z),
   mkTVal [1%Z] Float64 host [sZ 0]).

Definition K : Kernels := {|
  k_CreateVertexMap := fun v _ _ => image_like v 3 (tv_data v);
  k_CreateNormalMap := fun v _ => v;
  k_PyrDownDepth := fun v _ _ =>
    replicate (Z.to_nat ((GetRows v ÷ 2) * (GetCols v ÷ 2))) (sZ 1);
  k_PyrDown := fun v =>
    mkTVal [(GetRows v ÷ 2)%Z; (GetCols v ÷ 2)%Z; GetChannels v]
      (tv_dtype v) (tv_device v)
      (replicate (Z.to_nat ((GetRows v ÷ 2) * (GetCols v ÷ 2))) (sZ 1));
  k_RGBToGray := fun v => image_like v 1 (tv_data v);
  k_ImageTo := fun v d => mkTVal (tv_shape v) d (tv_device v) (tv_data v);
  k_FilterSobel := fun v => (v, v);
  k_ComputePosePointToPlane := fun _ _ _ _ t _ => pose_of t;
  k_ComputePoseIntensity := fun _ _ _ _ _ _ _ _ t _ => pose_of t;
  k_ComputePoseHybrid := fun _ _ _ _ _ _ _ _ _ _ t _ => pose_of t;
  k_PoseToTransformation := fun p =>
    mkTVal [4; 4]%Z Float64 host
      (if is_zero (nth 0 (tv_data p) NaN) then rotZ else rotX)
|}.

(** A second pose kernel, which tells the levels apart: it answers with
    the first 6-vector on an image of at most 4 rows and with the second
    on a larger one. *)
Definition pose_by_rows (v : TVal) : TVal * TVal :=
  (mkTVal [6%Z] Float64 host
     (if (GetRows v <=? 4)%Z
      then map sZ [0; 0; 1; 0; 0; 0]%Z else map sZ [1; 0; 0; 0; 0; 0]%Z),
   mkTVal [1%Z] Float64 host [sZ 0]).

Definition K_by_rows : Kernels := {|
  k_CreateVertexMap := k_CreateVertexMap K;
  k_CreateNormalMap := k_CreateNormalMap K;
  k_PyrDownDepth := k_PyrDownDepth K;
  k_PyrDown := k_PyrDown K;
  k_RGBToGray := k_RGBToGray K;
  k_ImageTo := k_ImageTo K;
  k_FilterSobel := k_FilterSobel K;
  k_ComputePosePointToPlane := fun svm _ _ _ _ _ => pose_by_rows svm;
  k_ComputePoseIntensity := fun sd _ _ _ _ _ _ _ _ _ => pose_by_rows sd;
  k_ComputePoseHybrid := fun sd _ _ _ _ _ _ _ _ _ _ _ => pose_by_rows sd;
  k_PoseToTransformation := k_PoseToTransformation K
|}.

Definition depth_image (rows cols : Z) : TVal :=
  mkTVal [rows; cols; 1%Z] Float32 host
    (replicate (Z.to_nat (rows * cols)) (sZ 1000)).

Definition color_image (rows cols : Z) : TVal :=
  mkTVal [rows; cols; 3%Z] UInt8 host
    (replicate (Z.to_nat (rows * cols * 3)) (sZ 7)).

Definition intrinsics_val : TVal :=
  mkTVal [3; 3]%Z Float64 host
    (map sZ [525; 0; 320;   0; 525; 240;   0; 0; 1]%Z).

Definition eye4_val : TVal := mkTVal [4; 4]%Z Float64 host eye4.

(** Blobs 0-5: source depth, source color, target depth, target color,
    intrinsics, initial transformation. *)
Definition frames (rows cols : Z) : State :=
  mkState [depth_image rows cols; color_image rows cols;
           depth_image rows cols; color_image rows cols;
           intrinsics_val; eye4_val] [].

(** The same frames with the target depth on a GPU. *)
Definition frames_split (rows cols : Z) : State :=
  mkState [depth_image rows cols; color_image rows cols;
           mkTVal [rows; cols; 1%Z] Float32 (mkDevice CUDA 0)
             (replicate (Z.to_nat (rows * cols)) (sZ 1000));
           color_image rows cols; intrinsics_val; eye4_val] [].

Definition source : RGBDImage := mkRGBD (TensorAt 1) (TensorAt 0).
Definition target : RGBDImage := mkRGBD (TensorAt 3) (TensorAt 2).

Definition run (rows cols : Z) (iterations : list Z) (method : Method)
    : Result Tensor * State :=
  RGBDOdometryMultiScale K source target (TensorAt 4) (TensorAt 5)
    (sZ 1000) (sZ 3) (Num (7 # 100)) iterations method (frames rows cols).

End Demo.

(** ** [ExampleWindow::ReadConfigFile], lines 219-338: the whole reader

    The reader fills members of the window and four local vectors from
    the lines of the configuration file, then checks and completes them
    (the part embedded as [ReadConfigFile_check]).  [std::stoi] and
    [std::stod] belong to the C++ library and are taken as parameters;
    they throw [std::invalid_argument] or [std::out_of_range], which
    nothing in the demo catches.  Numbers of type [double] are rationals,
    as everywhere in this development.  Members the file does not set
    keep what they hold; the constructor initialises none of
    [end_range_], [verbosity_], [gt_tx_] and [gt_ty_]. *)

Inductive Exception : Type :=
| Fatal (e : Error)        (* utility::LogError *)
| InvalidArgument          (* std::invalid_argument *)
| OutOfRange.              (* std::out_of_range *)

Inductive VerbosityLevel : Type :=
| VerbosityError | VerbosityWarning | VerbosityInfo | VerbosityDebug.

(** The members [ReadConfigFile] reads or writes. *)
Record ExampleWindow : Type := mkExampleWindow {
  path_dataset : string;
  registration_method_ : string;
  verbosity_ : VerbosityLevel;
  end_range_ : Z;
  voxel_sizes_ : list Q;
  search_radius_ : list Q;
  criterias_ : list ICPConvergenceCriteria;
  estimation_ : option Estimation;
  gt_tx_ : Q;
  gt_ty_ : Q
}.

(** The locals of [ReadConfigFile]. *)
Record Locals : Type := mkLocals {
  relative_fitness : list Q;
  relative_rmse : list Q;
  max_iterations : list Z;
  verb : string
}.

(** What the reader prints or logs, one constructor per statement. *)
Inductive Output : Type :=
| CerrCouldNotOpen          (* "Couldn't open config file for reading.\n" *)
| InfoDatasetPath (path : string)
| WarningTooLargeRange      (* " Too large range. Memory might exceed." *)
| InfoRange (upto : Z)
| InfoRegistrationMethod (method : string)
| CoutVoxelSizes (l : list Q)
| CoutSearchRadius (l : list Q)
| CoutMaxIterations (l : list Z)
| CoutRelativeFitness (l : list Q)
| CoutRelativeRmse (l : list Q)
| CoutReadComplete.         (* " Config file read complete. " *)

(** Assignments to single members and locals. *)
Definition set_path_dataset (v : string) (w : ExampleWindow) : ExampleWindow :=
  mkExampleWindow v (registration_method_ w) (verbosity_ w) (end_range_ w)
    (voxel_sizes_ w) (search_radius_ w) (criterias_ w) (estimation_ w)
    (gt_tx_ w) (gt_ty_ w).

Definition set_registration_method (v : string) (w : ExampleWindow)
    : ExampleWindow :=
  mkExampleWindow (path_dataset w) v (verbosity_ w) (end_range_ w)
    (voxel_sizes_ w) (search_radius_ w) (criterias_ w) (estimation_ w)
    (gt_tx_ w) (gt_ty_ w).

Definition set_verbosity (v : VerbosityLevel) (w : ExampleWindow)
    : ExampleWindow :=
  mkExampleWindow (path_dataset w) (registration_method_ w) v (end_range_ w)
    (voxel_sizes_ w) (search_radius_ w) (criterias_ w) (estimation_ w)
    (gt_tx_ w) (gt_ty_ w).

Definition set_end_range (v : Z) (w : ExampleWindow) : ExampleWindow :=
  mkExampleWindow (path_dataset w) (registration_method_ w) (verbosity_ w) v
    (voxel_sizes_ w) (search_radius_ w) (criterias_ w) (estimation_ w)
    (gt_tx_ w) (gt_ty_ w).

Definition set_voxel_sizes (v : list Q) (w : ExampleWindow) : ExampleWindow :=
  mkExampleWindow (path_dataset w) (registration_method_ w) (verbosity_ w)
    (end_range_ w) v (search_radius_ w) (criterias_ w) (estimation_ w)
    (gt_tx_ w) (gt_ty_ w).

Definition set_search_radius (v : list Q) (w : ExampleWindow)
    : ExampleWindow :=
  mkExampleWindow (path_dataset w) (registration_method_ w) (verbosity_ w)
    (end_range_ w) (voxel_sizes_ w) v (criterias_ w) (estimation_ w)
    (gt_tx_ w) (gt_ty_ w).

Definition set_criterias (v : list ICPConvergenceCriteria)
    (w : ExampleWindow) : ExampleWindow :=
  mkExampleWindow (path_dataset w) (registration_method_ w) (verbosity_ w)
    (end_range_ w) (voxel_sizes_ w) (search_radius_ w) v (estimation_ w)
    (gt_tx_ w) (gt_ty_ w).

Definition set_estimation (v : option Estimation) (w : ExampleWindow)
    : ExampleWindow :=
  mkExampleWindow (path_dataset w) (registration_method_ w) (verbosity_ w)
    (end_range_ w) (voxel_sizes_ w) (search_radius_ w) (criterias_ w) v
    (gt_tx_ w) (gt_ty_ w).

Definition set_gt_tx (v : Q) (w : ExampleWindow) : ExampleWindow :=
  mkExampleWindow (path_dataset w) (registration_method_ w) (verbosity_ w)
    (end_range_ w) (voxel_sizes_ w) (search_radius_ w) (criterias_ w)
    (estimation_ w) v (gt_ty_ w).

Definition set_gt_ty (v : Q) (w : ExampleWindow) : ExampleWindow :=
  mkExampleWindow (path_dataset w) (registration_method_ w) (verbosity_ w)
    (end_range_ w) (voxel_sizes_ w) (search_radius_ w) (criterias_ w)
    (estimation_ w) (gt_tx_ w) v.

Definition set_relative_fitness (v : list Q) (l : Locals) : Locals :=
  mkLocals v (relative_rmse l) (max_iterations l) (verb l).

Definition set_relative_rmse (v : list Q) (l : Locals) : Locals :=
  mkLocals (relative_fitness l) v (max_iterations l) (verb l).

Definition set_max_iterations (v : list Z) (l : Locals) : Locals :=
  mkLocals (relative_fitness l) (relative_rmse l) v (verb l).

Definition set_verb (v : string) (l : Locals) : Locals :=
  mkLocals (relative_fitness l) (relative_rmse l) (max_iterations l) v.

(** [isspace] of <cctype>, "C" locale: space, and tab to carriage return. *)
Definition isspace (c : ascii) : bool :=
  let n := nat_of_ascii c in (n =? 32) || ((9 <=? n) && (n <=? 13)).

(** [line.erase(std::remove_if(line.begin(), line.end(), isspace),
    line.end())] *)
Fixpoint erase_spaces (line : string) : string :=
  match line with
  | EmptyString => EmptyString
  | String c rest =>
      if isspace c then erase_spaces rest else String c (erase_spaces rest)
  end.

(** [line.find("=")]; [None] stands for [std::string::npos]. *)
Fixpoint find_delimiter (line : string) : option nat :=
  match line with
  | EmptyString => None
  | String c rest =>
      if Ascii.eqb c "="%char then Some 0
      else option_map S (find_delimiter rest)
  end.

(** [line.substr(0, delimiterPos)]: with [npos] the whole line. *)
Definition name_of (line : string) : string :=
  match find_delimiter line with
  | Some pos => substring 0 pos line
  | None => line
  end.

(** [line.substr(delimiterPos + 1)]: [npos + 1] wraps around to 0, which
    again gives the whole line. *)
Definition value_of (line : string) : string :=
  match find_delimiter line with
  | Some pos => substring (pos + 1) (String.length line - (pos + 1)) line
  | None => line
  end.

(** [line[0] == '#' || line.empty()] *)
Definition skipped (line : string) : bool :=
  match line with
  | EmptyString => true
  | String c _ => Ascii.eqb c "#"%char
  end.

Section Reader.

Context (stoi : string -> Exception + Z) (stod : string -> Exception + Q).

(** The chain of comparisons on [name], lines 237-268. *)
Definition assign (name value : string) (st : ExampleWindow * Locals)
    : Exception + ExampleWindow * Locals :=
  let '(w, l) := st in
  if String.eqb name "dataset_path" then
    inr (set_path_dataset value w, l)
  else if String.eqb name "end_range" then
    match stoi value with
    | inl e => inl e
    | inr v => inr (set_end_range v w, l)
    end
  else if String.eqb name "registration_method" then
    inr (set_registration_method value w, l)
  else if String.eqb name "criteria.relative_fitness" then
    match stod value with
    | inl e => inl e
    | inr v => inr (w, set_relative_fitness (relative_fitness l ++ [v]) l)
    end
  else if String.eqb name "criteria.relative_rmse" then
    match stod value with
    | inl e => inl e
    | inr v => inr (w, set_relative_rmse (relative_rmse l ++ [v]) l)
    end
  else if String.eqb name "criteria.max_iterations" then
    match stoi value with
    | inl e => inl e
    | inr v => inr (w, set_max_iterations (max_iterations l ++ [v]) l)
    end
  else if String.eqb name "voxel_size" then
    match stod value with
    | inl e => inl e
    | inr v => inr (set_voxel_sizes (voxel_sizes_ w ++ [v]) w, l)
    end
  else if String.eqb name "search_radii" then
    match stod value with
    | inl e => inl e
    | inr v => inr (set_search_radius (search_radius_ w ++ [v]) w, l)
    end
  else if String.eqb name "verbosity" then
    inr (w, set_verb value l)
  else if String.eqb name "ground_truth_tx" then
    match stod value with
    | inl e => inl e
    | inr v => inr (set_gt_tx v w, l)
    end
  else if String.eqb name "ground_truth_ty" then
    match stod value with
    | inl e => inl e
    | inr v => inr (set_gt_ty v w, l)
    end
  else inr st.

(** The body of the [while (getline(cFile, line))] loop. *)
Definition read_line (line : string) (st : ExampleWindow * Locals)
    : Exception + ExampleWindow * Locals :=
  let line := erase_spaces line in
  if skipped line then inr st
  else assign (name_of line) (value_of line) st.

Fixpoint read_lines (lines : list string) (st : ExampleWindow * Locals)
    : Exception + ExampleWindow * Locals :=
  match lines with
  | [] => inr st
  | line :: rest =>
      match read_line line st with
      | inl e => inl e
      | inr st' => read_lines rest st'
      end
  end.

(** What is logged and printed between the loop and the length check. *)
Definition report (w : ExampleWindow) (l : Locals) : list Output :=
  [InfoDatasetPath (path_dataset w)]
  ++ (if (500 <? end_range_ w)%Z then [WarningTooLargeRange] else [])
  ++ [InfoRange (end_range_ w - 1);
      InfoRegistrationMethod (registration_method_ w);
      CoutVoxelSizes (voxel_sizes_ w);
      CoutSearchRadius (search_radius_ w);
      CoutMaxIterations (max_iterations l);
      CoutRelativeFitness (relative_fitness l);
      CoutRelativeRmse (relative_rmse l)].

(** [cFile] is what opening [path_config] gives: the lines of the file,
    or nothing when it cannot be opened. *)
Definition ReadConfigFile (cFile : option (list string)) (w : ExampleWindow)
    : (Exception + ExampleWindow) * list Output :=
  let locals := mkLocals [] [] [] EmptyString in
  let '(parsed, out) :=
    match cFile with
    | Some lines => (read_lines lines (w, locals), [])
    | None => (inr (w, locals), [CerrCouldNotOpen])
    end in
  match parsed with
  | inl e => (inl e, out)
  | inr (w, l) =>
      let out := out ++ report w l in
      match ReadConfigFile_check (voxel_sizes_ w) (search_radius_ w)
              (relative_fitness l) (relative_rmse l) (max_iterations l)
              (registration_method_ w) with
      | inl e => (inl (Fatal e), out)
      | inr (criterias, estimation) =>
          let w := set_criterias (criterias_ w ++ criterias) w in
          let w := set_estimation (Some estimation) w in
          let w :=
            set_verbosity (if String.eqb (verb l) "Debug"
                           then VerbosityDebug else VerbosityInfo) w in
          (inr w, out ++ [CoutReadComplete])
      end
  end.

End Reader.

(** Stand-ins for evaluation: a window as the constructor finds it, and
    number readers that know unsigned decimal integers only. *)
Module DemoReader.

Definition digit_of (c : ascii) : option Z :=
  let n := nat_of_ascii c in
  if (48 <=? n) && (n <=? 57) then Some (Z.of_nat (n - 48)) else None.

Fixpoint digits (s : string) (acc : option Z) : option Z :=
  match s with
  | EmptyString => acc
  | String c rest =>
      match digit_of c with
      | Some d => digits rest (Some (10 * default 0%Z acc + d)%Z)
      | None => acc
      end
  end.

Definition stoi (s : string) : Exception + Z :=
  match digits s None with
  | Some v => inr v
  | None => inl InvalidArgument
  end.

Definition stod (s : string) : Exception + Q :=
  match digits s None with
  | Some v => inr (inject_Z v)
  | None => inl InvalidArgument
  end.

Definition window : ExampleWindow :=
  mkExampleWindow EmptyString EmptyString VerbosityError 0 [] [] [] None
    0%Q 0%Q.

Definition locals : Locals := mkLocals [] [] [] EmptyString.

Definition config : list string :=
  ["# ICP odometry"; "";
   "dataset_path = /data/";
   "end_range = 600";
   "registration_method = PointToPlane";
   "voxel_size = 3"; "voxel_size = 2"; "voxel_size = 1";
   "search_radii = 6"; "search_radii = 4"; "search_radii = 2";
   "criteria.max_iterations = 20"; "criteria.max_iterations = 15";
   "criteria.max_iterations = 10";
   "criteria.relative_fitness = 1"; "criteria.relative_fitness = 1";
   "criteria.relative_fitness = 1";
   "criteria.relative_rmse = 1"; "criteria.relative_rmse = 1";
   "criteria.relative_rmse = 1";
   "verbosity = Debug"; "colour = red"]%string.

(** Two files that say the same. *)
Definition interleaved : list string :=
  ["voxel_size = 3"; "search_radii = 6"; "voxel_size = 2"]%string.

Definition grouped : list string :=
  ["# sizes"; "voxel_size=3"; "voxel_size=2"; "search_radii=6"]%string.

End DemoReader.

(** * Specification-level definitions *)

Definition preserved (x : Tensor) (s s' : State) : Prop :=
  length (store s) <= length (store s') /\
  forall l, l < length (store s) -> TensorAt l <> x ->
            store s' !! l = store s !! l.

Definition pres {A} (x : Tensor) (m : M A) : Prop :=
  forall s, preserved x s (snd (m s)).

Definition push (s : State) (v : TVal) (evs : list Event) : State :=
  mkState (store s ++ [v]) (trace s ++ evs).

Definition upd (s : State) (l : nat) (v : TVal) : State :=
  mkState (<[l := v]> (store s)) (trace s).

Definition valid (s : State) (h : Tensor) : Prop :=
  match h with
  | TensorAt l => l < length (store s)
  | TensorEmpty => True
  end.

Definition stable (x : Tensor) (s : State) (h : Tensor) : Prop :=
  valid s h /\ h <> x.

(** The value-level effect of [intrinsics /= 2; intrinsics[-1][-1] = 1]. *)
Definition halve_reset (v : TVal) : TVal :=
  set_item2_val (div_val v (sZ 2)) (-1) (-1) (sZ 1).

Section PyramidDefs.

Context {C L : Type} (cfields : C -> list Tensor) (lfields : L -> list Tensor).

Context (li : nat).

Context (make_level : C -> M L) (down : C -> M C).

Context (mk : list TVal -> TVal -> list TVal).

Context (dn : list TVal -> list TVal) (dn_ok : list TVal -> Prop).

Context (ev_mk ev_dn : list Event).

Context (n : nat) (dflt : L).

(** The shape shared by the three pyramid loops. *)
Definition pyramid_step (i : nat) (st : C * list L) : M (C * list L) :=
  do lv <- make_level (fst st);
  let levels := <[n - 1 - i := lv]> (snd st) in
  if negb (i =? n - 1) then
    do cur <- down (fst st);
    Div_ (TensorAt li) (sZ 2) ;>
    SetItem2 (TensorAt li) (-1) (-1) (sZ 1) ;>
    ret (cur, levels)
  else ret (fst st, levels).

Definition pyramid_events (i : nat) : list Event :=
  flat_map (fun j => ev_mk ++ (if j =? n - 1 then [] else ev_dn)) (seq 0 i).

Definition level_spec (cv0 : list TVal) (K0 : TVal) (j : nat) : list TVal :=
  mk (Nat.iter j dn cv0) (Nat.iter j halve_reset K0).

Definition pyramid_inv (s0 : State) (cv0 : list TVal) (K0 : TVal)
    (i : nat) (st : C * list L) (s : State) : Prop :=
  Forall (stable (TensorAt li) s) (cfields (fst st))
  /\ map (deref s) (cfields (fst st)) = Nat.iter (Nat.min i (n - 1)) dn cv0
  /\ valid s (TensorAt li)
  /\ deref s (TensorAt li) = Nat.iter (Nat.min i (n - 1)) halve_reset K0
  /\ length (snd st) = n
  /\ (forall k, n - i <= k < n ->
        Forall (stable (TensorAt li) s) (lfields (nth k (snd st) dflt))
        /\ map (deref s) (lfields (nth k (snd st) dflt))
           = level_spec cv0 K0 (n - 1 - k))
  /\ trace s = trace s0 ++ pyramid_events i
  /\ preserved (TensorAt li) s0 s.

End PyramidDefs.

(** What [PyrDownDepth] accepts. *)
Definition pdd_ok (v : TVal) : Prop :=
  (0 < GetRows v)%Z /\ (0 < GetCols v)%Z /\ GetChannels v = 1%Z
  /\ tv_dtype v = Float32.

Section RunsDefs.

Context (K : Kernels).

Definition p2p_cfields (c : Tensor * Tensor) : list Tensor := [fst c; snd c].

Definition p2p_lfields (lv : LevelP2P) : list Tensor :=
  [p_source_vertex_map lv; p_target_vertex_map lv; p_target_normal_map lv;
   p_intrinsic_matrix lv].

Definition p2p_make (intrinsics : Tensor) (c : Tensor * Tensor) : M LevelP2P :=
  do source_vertex_map <- CreateVertexMap K (fst c) intrinsics NaN;
  do target_vertex_map <- CreateVertexMap K (snd c) intrinsics NaN;
  do target_normal_map <- CreateNormalMap K target_vertex_map NaN;
  do intrinsic_matrix <- Clone intrinsics;
  ret (mkLevelP2P source_vertex_map target_vertex_map target_normal_map
         intrinsic_matrix).

Definition p2p_down (depth_diff : scalar) (c : Tensor * Tensor)
    : M (Tensor * Tensor) :=
  do a <- PyrDownDepth K (fst c) (smul depth_diff (sZ 2)) NaN;
  do b <- PyrDownDepth K (snd c) (smul depth_diff (sZ 2)) NaN;
  ret (a, b).

Definition p2p_mk (cv : list TVal) (k : TVal) : list TVal :=
  match cv with
  | [sd; td] =>
      [k_CreateVertexMap K sd k NaN;
       k_CreateVertexMap K td k NaN;
       k_CreateNormalMap K (k_CreateVertexMap K td k NaN) NaN;
       k]
  | _ => []
  end.

Definition p2p_dn (depth_diff : scalar) (cv : list TVal) : list TVal :=
  map (fun v => pyr_down_val K v (smul depth_diff (sZ 2)) NaN) cv.

Definition p2p_events_mk : list Event :=
  [EvCreateVertexMap; EvCreateVertexMap; EvCreateNormalMap].

Definition p2p_events_dn : list Event := [EvPyrDownDepth; EvPyrDownDepth].

End RunsDefs.

Section P2PDefs.

Context (K : Kernels).

Definition p2p_level_spec (dd : scalar) (sd td K0 : TVal) (j : nat)
    : list TVal :=
  level_spec (p2p_mk K) (p2p_dn K dd) [sd; td] K0 j.

End P2PDefs.

Section IntensityHybridDefs.

Context (K : Kernels).

Definition Images4 : Type := Tensor * Tensor * Tensor * Tensor.

Definition i_cfields (c : Images4) : list Tensor :=
  [fst (fst (fst c)); snd (fst (fst c)); snd (fst c); snd c].

Definition i_lfields (lv : LevelIntensity) : list Tensor :=
  [i_source_depth lv; i_target_depth lv; i_source_intensity lv;
   i_target_intensity lv; i_source_vertex_map lv; i_target_intensity_dx lv;
   i_target_intensity_dy lv; i_intrinsic_matrix lv].

Definition h_lfields (lv : LevelHybrid) : list Tensor :=
  [h_source_depth lv; h_target_depth lv; h_source_intensity lv;
   h_target_intensity lv; h_source_vertex_map lv; h_target_intensity_dx lv;
   h_target_intensity_dy lv; h_target_depth_dx lv; h_target_depth_dy lv;
   h_intrinsic_matrix lv].

Definition i_make (intrinsics : Tensor) (c : Images4) : M LevelIntensity :=
  do source_depth <- Clone (fst (fst (fst c)));
  do target_depth <- Clone (snd (fst (fst c)));
  do source_intensity <- Clone (snd (fst c));
  do target_intensity <- Clone (snd c);
  do source_vertex_map <- CreateVertexMap K (fst (fst (fst c))) intrinsics NaN;
  do target_intensity_grad <- FilterSobel K (snd c);
  do intrinsic_matrix <- Clone intrinsics;
  ret (mkLevelIntensity source_depth target_depth source_intensity
         target_intensity source_vertex_map (fst target_intensity_grad)
         (snd target_intensity_grad) intrinsic_matrix).

Definition h_make (intrinsics : Tensor) (c : Images4) : M LevelHybrid :=
  do source_depth <- Clone (fst (fst (fst c)));
  do target_depth <- Clone (snd (fst (fst c)));
  do source_intensity <- Clone (snd (fst c));
  do target_intensity <- Clone (snd c);
  do source_vertex_map <- CreateVertexMap K (fst (fst (fst c))) intrinsics NaN;
  do target_intensity_grad <- FilterSobel K (snd c);
  do target_depth_grad <- FilterSobel K (snd (fst (fst c)));
  do intrinsic_matrix <- Clone intrinsics;
  ret (mkLevelHybrid source_depth target_depth source_intensity
         target_intensity source_vertex_map (fst target_intensity_grad)
         (snd target_intensity_grad) (fst target_depth_grad)
         (snd target_depth_grad) intrinsic_matrix).

Definition i_down (depth_diff : scalar) (c : Images4) : M Images4 :=
  do a <- PyrDownDepth K (fst (fst (fst c))) (smul depth_diff (sZ 2)) NaN;
  do b <- PyrDownDepth K (snd (fst (fst c))) (smul depth_diff (sZ 2)) NaN;
  do x <- PyrDown K (snd (fst c));
  do y <- PyrDown K (snd c);
  ret (a, b, x, y).

Definition i_mk (cv : list TVal) (k : TVal) : list TVal :=
  match cv with
  | [sd; td; si; ti] =>
      [sd; td; si; ti; k_CreateVertexMap K sd k NaN;
       fst (k_FilterSobel K ti); snd (k_FilterSobel K ti); k]
  | _ => []
  end.

Definition h_mk (cv : list TVal) (k : TVal) : list TVal :=
  match cv with
  | [sd; td; si; ti] =>
      [sd; td; si; ti; k_CreateVertexMap K sd k NaN;
       fst (k_FilterSobel K ti); snd (k_FilterSobel K ti);
       fst (k_FilterSobel K td); snd (k_FilterSobel K td); k]
  | _ => []
  end.

Definition i_dn (depth_diff : scalar) (cv : list TVal) : list TVal :=
  match cv with
  | [sd; td; si; ti] =>
      [pyr_down_val K sd (smul depth_diff (sZ 2)) NaN;
       pyr_down_val K td (smul depth_diff (sZ 2)) NaN;
       k_PyrDown K si; k_PyrDown K ti]
  | _ => []
  end.

Definition i_dn_ok (cv : list TVal) : Prop := Forall pdd_ok (take 2 cv).

Definition i_events_mk : list Event := [EvCreateVertexMap; EvFilterSobel].

Definition h_events_mk : list Event :=
  [EvCreateVertexMap; EvFilterSobel; EvFilterSobel].

Definition i_events_dn : list Event :=
  [EvPyrDownDepth; EvPyrDownDepth; EvPyrDown; EvPyrDown].

End IntensityHybridDefs.

Section IntensityHybridPyramidsDefs.

Context (K : Kernels).

(** [color.RGBToGray().To(Float32)] *)
Definition gray_val (v : TVal) : TVal :=
  let g := k_RGBToGray K v in
  if decide (tv_dtype g = Float32) then g else k_ImageTo K g Float32.

Definition gray_events (v : TVal) : list Event :=
  EvRGBToGray ::
  (if decide (tv_dtype (k_RGBToGray K v) = Float32) then [] else [EvImageTo]).

Definition i_level_spec (dd : scalar) (sd td cs ct K0 : TVal) (j : nat)
    : list TVal :=
  level_spec (i_mk K) (i_dn K dd) [sd; td; gray_val cs; gray_val ct] K0 j.

Definition h_level_spec (dd : scalar) (sd td cs ct K0 : TVal) (j : nat)
    : list TVal :=
  level_spec (h_mk K) (i_dn K dd) [sd; td; gray_val cs; gray_val ct] K0 j.

Definition i_trace (n : nat) (cs ct : TVal) : list Event :=
  gray_events cs ++ gray_events ct ++ pyramid_events i_events_mk i_events_dn n n.

Definition h_trace (n : nat) (cs ct : TVal) : list Event :=
  gray_events cs ++ gray_events ct ++ pyramid_events h_events_mk i_events_dn n n.

End IntensityHybridPyramidsDefs.

(** The state after logging events, without allocation. *)
Definition note (s : State) (evs : list Event) : State :=
  mkState (store s) (trace s ++ evs).
#[global] Arguments note : simpl never.

(** One Gauss-Newton update at the value level: [delta * trans]. *)
Definition update_val (pose : TVal -> TVal) (t : TVal) : TVal :=
  matmul_val (pose t) t.

Definition level_count (iterations : list Z) (i : nat) : nat :=
  Z.to_nat (nth i iterations 0%Z).

(** The transformation after the first [i] levels of the schedule. *)
Definition odometry_val (pose : nat -> TVal -> TVal) (iterations : list Z)
    (i : nat) (t0 : TVal) : TVal :=
  fold_left (fun t lvl => Nat.iter (level_count iterations lvl)
                            (update_val (pose lvl)) t)
            (seq 0 i) t0.

(** The pose-kernel invocations of the first [i] levels. *)
Definition schedule (m : Method) (iterations : list Z) (i : nat) : list Event :=
  flat_map (fun lvl => map (EvComputePose m lvl)
                         (seq 0 (level_count iterations lvl)))
           (seq 0 i).

Section LoopDefs.

Context (K : Kernels) (m : Method) (iterations : list Z).

Context (step : nat -> nat -> Tensor -> M Tensor).

Context (wv : nat -> State -> TVal -> TVal).

Definition odometry_loop (trans : Tensor) : M Tensor :=
  for_range (length iterations)
    (fun i trans => for_range (level_count iterations i) (step i) trans) trans.

(** The loop never fails and never stops early, whatever the kernels
    return; its result is the initial handle or a product allocated by
    the loop. *)
Definition produced (base : nat) (s : State) (t : Tensor) : Prop :=
  exists l w y, t = TensorAt l /\ base <= l < length (store s)
                /\ deref s t = matmul_val (k_PoseToTransformation K w) y.

End LoopDefs.

Section PoseKernelsDefs.

Context (K : Kernels).

Definition p2p_wv (dd : scalar) (lv : LevelP2P) (s : State) (tv : TVal) : TVal :=
  fst (k_ComputePosePointToPlane K
         (deref s (p_source_vertex_map lv)) (deref s (p_target_vertex_map lv))
         (deref s (p_target_normal_map lv)) (deref s (p_intrinsic_matrix lv))
         tv dd).

Definition i_wv (dd : scalar) (lv : LevelIntensity) (s : State) (tv : TVal)
    : TVal :=
  fst (k_ComputePoseIntensity K
         (deref s (i_source_depth lv)) (deref s (i_target_depth lv))
         (deref s (i_source_intensity lv)) (deref s (i_target_intensity lv))
         (deref s (i_target_intensity_dx lv))
         (deref s (i_target_intensity_dy lv))
         (deref s (i_source_vertex_map lv)) (deref s (i_intrinsic_matrix lv))
         tv dd).

Definition h_wv (dd : scalar) (lv : LevelHybrid) (s : State) (tv : TVal)
    : TVal :=
  fst (k_ComputePoseHybrid K
         (deref s (h_source_depth lv)) (deref s (h_target_depth lv))
         (deref s (h_source_intensity lv)) (deref s (h_target_intensity lv))
         (deref s (h_target_depth_dx lv)) (deref s (h_target_depth_dy lv))
         (deref s (h_target_intensity_dx lv))
         (deref s (h_target_intensity_dy lv))
         (deref s (h_source_vertex_map lv)) (deref s (h_intrinsic_matrix lv))
         tv dd).

(** The three inner loop bodies, as written in the drivers. *)
Definition p2p_step (levels : list LevelP2P) (dd : scalar) (i iter : nat)
    (trans : Tensor) : M Tensor :=
  let lv := nth i levels LevelP2P_default in
  emit (EvComputePose PointToPlane i iter) ;>
  do delta_source_to_target <-
    ComputePosePointToPlane K (p_source_vertex_map lv)
      (p_target_vertex_map lv) (p_target_normal_map lv)
      (p_intrinsic_matrix lv) trans dd;
  do product <- Matmul delta_source_to_target trans;
  Contiguous product.

Definition i_step (levels : list LevelIntensity) (dd : scalar) (i iter : nat)
    (trans : Tensor) : M Tensor :=
  let lv := nth i levels LevelIntensity_default in
  emit (EvComputePose Intensity i iter) ;>
  do delta_source_to_target <-
    ComputePoseIntensity K (i_source_depth lv) (i_target_depth lv)
      (i_source_intensity lv) (i_target_intensity lv)
      (i_target_intensity_dx lv) (i_target_intensity_dy lv)
      (i_source_vertex_map lv) (i_intrinsic_matrix lv) trans dd;
  Matmul delta_source_to_target trans.

Definition h_step (levels : list LevelHybrid) (dd : scalar) (i iter : nat)
    (trans : Tensor) : M Tensor :=
  let lv := nth i levels LevelHybrid_default in
  emit (EvComputePose Hybrid i iter) ;>
  do delta_source_to_target <-
    ComputePoseHybrid K (h_source_depth lv) (h_target_depth lv)
      (h_source_intensity lv) (h_target_intensity lv)
      (h_target_depth_dx lv) (h_target_depth_dy lv)
      (h_target_intensity_dx lv) (h_target_intensity_dy lv)
      (h_source_vertex_map lv) (h_intrinsic_matrix lv) trans dd;
  Matmul delta_source_to_target trans.

End PoseKernelsDefs.

Section DriversDefs.

Context (K : Kernels).

(** The incremental transformation of one level, from the values of the
    level's maps and the running transformation. *)
Definition p2p_pose (dd : scalar) (lv : list TVal) (tv : TVal) : TVal :=
  match lv with
  | [svm; tvm; tnm; k] =>
      k_PoseToTransformation K
        (fst (k_ComputePosePointToPlane K svm tvm tnm k tv dd))
  | _ => empty_tval
  end.

Definition i_pose (dd : scalar) (lv : list TVal) (tv : TVal) : TVal :=
  match lv with
  | [sd; td; si; ti; svm; tix; tiy; k] =>
      k_PoseToTransformation K
        (fst (k_ComputePoseIntensity K sd td si ti tix tiy svm k tv dd))
  | _ => empty_tval
  end.

Definition h_pose (dd : scalar) (lv : list TVal) (tv : TVal) : TVal :=
  match lv with
  | [sd; td; si; ti; svm; tix; tiy; tdx; tdy; k] =>
      k_PoseToTransformation K
        (fst (k_ComputePoseHybrid K sd td si ti tdx tdy tix tiy svm k tv dd))
  | _ => empty_tval
  end.

End DriversDefs.

(** [To(host, Float64)] at the value level. *)
Definition to_host_f64 (v : TVal) : TVal :=
  mkTVal (tv_shape v) Float64 host (tv_data v).

(** A depth image that [n] pyramid levels can be built from. *)
Definition depth_fits (n : nat) (v : TVal) : Prop :=
  GetChannels v = 1%Z /\ tv_dtype v = Float32
  /\ (2 ^ Z.of_nat (n - 2) <= GetRows v)%Z
  /\ (2 ^ Z.of_nat (n - 2) <= GetCols v)%Z.

Section EntryDefs.

Context (K : Kernels).

(** The method dispatch at the end of the entry point. *)
Definition dispatch (method : Method) (source_processed target_processed : RGBDImage)
    (intrinsics_d trans_d : Tensor) (ds dm dd : scalar) (iterations : list Z)
    : M Tensor :=
  match method with
  | PointToPlane =>
      RGBDOdometryMultiScalePointToPlane K source_processed target_processed
        intrinsics_d trans_d ds dm dd iterations
  | Intensity =>
      RGBDOdometryMultiScaleIntensity K source_processed target_processed
        intrinsics_d trans_d ds dm dd iterations
  | Hybrid =>
      RGBDOdometryMultiScaleHybrid K source_processed target_processed
        intrinsics_d trans_d ds dm dd iterations
  | MethodOther _ => LogError ErrMethodNotImplemented
  end.

End EntryDefs.

Definition is_enumerator (m : Method) : Prop :=
  match m with MethodOther _ => False | _ => True end.

(** Frames the entry point accepts for [n] levels: depth images on one
    device, single-channel Float32 and large enough to be halved [n - 1]
    times, and handles that denote tensors. *)
Definition frames_ok (n : nat) (s0 : State) (source target : RGBDImage)
    (init : Tensor) : Prop :=
  tv_device (deref s0 (depth_ target)) = tv_device (deref s0 (depth_ source))
  /\ depth_fits n (deref s0 (depth_ source))
  /\ depth_fits n (deref s0 (depth_ target))
  /\ valid s0 (depth_ source) /\ valid s0 (depth_ target)
  /\ valid s0 (color_ source) /\ valid s0 (color_ target)
  /\ valid s0 init.

Section EntrySpecDefs.

Context (K : Kernels).

Definition entry_level (m : Method) (dd : scalar) (sd td cs ct K0 : TVal)
    (j : nat) : list TVal :=
  match m with
  | PointToPlane => p2p_level_spec K dd sd td K0 j
  | Intensity => i_level_spec K dd sd td cs ct K0 j
  | Hybrid => h_level_spec K dd sd td cs ct K0 j
  | MethodOther _ => []
  end.

Definition entry_pose (m : Method) (dd : scalar) (lv : list TVal)
    : TVal -> TVal :=
  match m with
  | PointToPlane => p2p_pose K dd lv
  | Intensity => i_pose K dd lv
  | Hybrid => h_pose K dd lv
  | MethodOther _ => fun _ => empty_tval
  end.

Definition build_trace (m : Method) (n : nat) (cs ct : TVal) : list Event :=
  match m with
  | PointToPlane => pyramid_events p2p_events_mk p2p_events_dn n n
  | Intensity => i_trace K n cs ct
  | Hybrid => h_trace K n cs ct
  | MethodOther _ => []
  end.

(** The value the entry point returns on accepted frames. *)
Definition entry_val (m : Method) (ds dm dd : scalar) (iterations : list Z)
    (sd td cs ct K0 T0 : TVal) : TVal :=
  let n := length iterations in
  let sdp := clip_val ds (sZ 0) dm NaN sd in
  let tdp := clip_val ds (sZ 0) dm NaN td in
  odometry_val
    (fun i => entry_pose m dd
                (entry_level m dd sdp tdp cs ct (to_host_f64 K0) (n - 1 - i)))
    iterations n (to_host_f64 T0).

End EntrySpecDefs.


Definition is_pose (e : Event) : bool :=
  match e with EvComputePose _ _ _ => true | _ => false end.


Section PyramidOfDefs.

Context (K : Kernels).

(** The pyramid of a method, each level as the list of its tensors in the
    order of the level record; the intrinsic matrix comes last. *)
Definition PyramidOf (m : Method) (source target : RGBDImage)
    (intrinsics : Tensor) (dd : scalar) (iterations : list Z)
    : M (list (list Tensor)) :=
  match m with
  | PointToPlane =>
      do levels <- PyramidPointToPlane K source target intrinsics dd iterations;
      ret (map p2p_lfields levels)
  | Intensity =>
      do levels <- PyramidIntensity K source target intrinsics dd iterations;
      ret (map i_lfields levels)
  | Hybrid =>
      do levels <- PyramidHybrid K source target intrinsics dd iterations;
      ret (map h_lfields levels)
  | MethodOther _ => ret []
  end.

End PyramidOfDefs.

Definition f64_host (v : TVal) : Prop :=
  tv_dtype v = Float64 /\ tv_device v = host.

Section ResultsDefs.

Context (K : Kernels).

(** The transformations the pose kernels hand back are Float64 on the
    host ("4x4 transformations are always float64 and stay on CPU"). *)
Definition host_f64_poses : Prop :=
  forall w, f64_host (k_PoseToTransformation K w).

(** What follows the two copies in the entry point. *)
Definition entry_rest (source target : RGBDImage) (intrinsics_d trans_d : Tensor)
    (ds dm dd : scalar) (iterations : list Z) (m : Method) : M Tensor :=
  do source_depth_processed <-
    ClipTransform (depth_ source) ds (sZ 0) dm NaN;
  do target_depth_processed <-
    ClipTransform (depth_ target) ds (sZ 0) dm NaN;
  dispatch K m (mkRGBD (color_ source) source_depth_processed)
    (mkRGBD (color_ target) target_depth_processed) intrinsics_d trans_d
    ds dm dd iterations.

End ResultsDefs.

(** ** Definitions for the further properties *)

(** The three drivers behind the dispatch. *)
Definition Driver : Type :=
  RGBDImage -> RGBDImage -> Tensor -> Tensor -> scalar -> scalar -> scalar ->
  list Z -> M Tensor.




(** A schedule that runs no iteration at any level. *)
Definition idle (iterations : list Z) : Prop :=
  Forall (fun z => (z <= 0)%Z) iterations.

(** How often a kernel appears in a log. *)
Definition kernel_count (e : Event) (evs : list Event) : nat :=
  count_occ Event_eq_dec evs e.


(** The values given to [key], in the order of the file. *)
Definition values_for (key : string) (lines : list string) : list string :=
  flat_map (fun line =>
              let line := erase_spaces line in
              if negb (skipped line) && String.eqb (name_of line) key
              then [value_of line] else [])
           lines.

(** The numbers among them, as the library reads them. *)
Definition numbers {A} (parse : string -> Exception + A)
    (values : list string) : list A :=
  flat_map (fun v => match parse v with inr x => [x] | inl _ => [] end)
           values.

(** The values the reader hands to [std::stoi] and to [std::stod]. *)
Definition int_values (lines : list string) : list string :=
  values_for "end_range" lines ++ values_for "criteria.max_iterations" lines.

Definition real_values (lines : list string) : list string :=
  values_for "criteria.relative_fitness" lines
  ++ values_for "criteria.relative_rmse" lines
  ++ values_for "voxel_size" lines ++ values_for "search_radii" lines
  ++ values_for "ground_truth_tx" lines ++ values_for "ground_truth_ty" lines.

(** What a run of the loop over [lines] has done to members and locals
    when it ends well: vectors have grown by the values of their key in
    file order, scalars hold the last value of their key. *)
Definition read_effect (stoi : string -> Exception + Z)
    (stod : string -> Exception + Q) (lines : list string)
    (st st' : ExampleWindow * Locals) : Prop :=
  voxel_sizes_ (fst st')
  = voxel_sizes_ (fst st) ++ numbers stod (values_for "voxel_size" lines)
  /\ search_radius_ (fst st')
     = search_radius_ (fst st)
       ++ numbers stod (values_for "search_radii" lines)
  /\ relative_fitness (snd st')
     = relative_fitness (snd st)
       ++ numbers stod (values_for "criteria.relative_fitness" lines)
  /\ relative_rmse (snd st')
     = relative_rmse (snd st)
       ++ numbers stod (values_for "criteria.relative_rmse" lines)
  /\ max_iterations (snd st')
     = max_iterations (snd st)
       ++ numbers stoi (values_for "criteria.max_iterations" lines)
  /\ path_dataset (fst st')
     = List.last (values_for "dataset_path" lines) (path_dataset (fst st))
  /\ registration_method_ (fst st')
     = List.last (values_for "registration_method" lines)
         (registration_method_ (fst st))
  /\ verb (snd st') = List.last (values_for "verbosity" lines) (verb (snd st))
  /\ end_range_ (fst st')
     = List.last (numbers stoi (values_for "end_range" lines))
         (end_range_ (fst st))
  /\ gt_tx_ (fst st')
     = List.last (numbers stod (values_for "ground_truth_tx" lines))
         (gt_tx_ (fst st))
  /\ gt_ty_ (fst st')
     = List.last (numbers stod (values_for "ground_truth_ty" lines))
         (gt_ty_ (fst st))
  /\ criterias_ (fst st') = criterias_ (fst st)
  /\ estimation_ (fst st') = estimation_ (fst st)
  /\ verbosity_ (fst st') = verbosity_ (fst st).

(** * Proofs *)

(** ** Frame: which blobs a computation may write *)

Lemma preserved_refl x s : preserved x s s.
Proof. split; auto. Qed.

Lemma preserved_trans x s1 s2 s3 :
  preserved x s1 s2 -> preserved x s2 s3 -> preserved x s1 s3.
Proof.
  intros [L1 H1] [L2 H2]. split; [lia|].
  intros l Hl Hx. rewrite H2 by (auto; lia). auto.
Qed.

Lemma pres_ret {A} x (a : A) : pres x (ret a).
Proof. intros s. apply preserved_refl. Qed.

Lemma pres_LogError {A} x e : pres x (@LogError A e).
Proof. intros s. apply preserved_refl. Qed.

Lemma pres_load x t : pres x (load t).
Proof. intros s. apply preserved_refl. Qed.

Lemma pres_emit x e : pres x (emit e).
Proof. intros s. split; simpl; auto. Qed.

Lemma pres_alloc x v : pres x (alloc v).
Proof.
  intros s. split; simpl.
  - rewrite length_app. lia.
  - intros l Hl _. apply lookup_app_l. exact Hl.
Qed.

Lemma pres_overwrite t v : pres t (overwrite t v).
Proof.
  intros s. destruct t as [l|]; simpl; [|apply preserved_refl].
  split; simpl.
  - rewrite length_insert. lia.
  - intros l' Hl Hne. apply list_lookup_insert_ne. congruence.
Qed.

Lemma pres_bind {A B} x (m : M A) (f : A -> M B) :
  pres x m -> (forall a, pres x (f a)) -> pres x (bind m f).
Proof.
  intros Hm Hf s. unfold bind. specialize (Hm s).
  destruct (m s) as [[e|a] s1]; simpl in *; [exact Hm|].
  eapply preserved_trans; [exact Hm|apply Hf].
Qed.

Lemma pres_when x b m : pres x m -> pres x (when b m).
Proof. destruct b; simpl; auto using pres_ret. Qed.

Lemma pres_for_loop {S} x (body : nat -> S -> M S) todo :
  (forall i st, pres x (body i st)) ->
  forall i st, pres x (for_loop todo i body st).
Proof.
  intros Hb. induction todo as [|k IH]; intros i st; simpl.
  - apply pres_ret.
  - apply pres_bind; auto.
Qed.

Create HintDb pres discriminated.
#[export] Hint Resolve pres_ret pres_LogError pres_load pres_emit pres_alloc
  pres_overwrite pres_when : pres.

Ltac pres_tac :=
  repeat first
    [ apply pres_bind; [|intros ?]
    | apply pres_for_loop; intros ? ?
    | progress (unfold for_range)
    | match goal with
      | |- pres _ (match ?p with (_, _) => _ end) => destruct p
      | |- pres _ (if ?b then _ else _) => destruct b
      | |- pres _ (let _ := _ in _) => cbv zeta
      end
    | solve [auto with pres] ].

Section Frame.

Context (K : Kernels).

Lemma pres_Clone x t : pres x (Clone t).
Proof. unfold Clone. pres_tac. Qed.

Lemma pres_To x t d y : pres x (To t d y).
Proof. unfold To. pres_tac. Qed.

Lemma pres_Div_ t c : pres t (Div_ t c).
Proof. unfold Div_. pres_tac. Qed.

Lemma pres_SetItem2 t i j c : pres t (SetItem2 t i j c).
Proof. unfold SetItem2. pres_tac. Qed.

Lemma pres_Matmul x a b : pres x (Matmul a b).
Proof. unfold Matmul. pres_tac. Qed.

Lemma pres_Contiguous x a : pres x (Contiguous a).
Proof. unfold Contiguous. pres_tac. Qed.

Lemma pres_ClipTransform x t a b c d : pres x (ClipTransform t a b c d).
Proof. unfold ClipTransform. pres_tac. Qed.

Lemma pres_CreateVertexMap x t k f : pres x (CreateVertexMap K t k f).
Proof. unfold CreateVertexMap. pres_tac. Qed.

Lemma pres_CreateNormalMap x t f : pres x (CreateNormalMap K t f).
Proof. unfold CreateNormalMap. pres_tac. Qed.

Lemma pres_PyrDown x t : pres x (PyrDown K t).
Proof. unfold PyrDown. pres_tac. Qed.

Lemma pres_RGBToGray x t : pres x (RGBToGray K t).
Proof. unfold RGBToGray. pres_tac. Qed.

Lemma pres_ImageTo x t d : pres x (ImageTo K t d).
Proof. unfold ImageTo. pres_tac. Qed.

Lemma pres_FilterSobel x t : pres x (FilterSobel K t).
Proof. unfold FilterSobel. pres_tac. Qed.

Lemma pres_PoseToTransformation x t : pres x (PoseToTransformation K t).
Proof. unfold PoseToTransformation. pres_tac. Qed.

Lemma pres_PyrDownDepth x t a b : pres x (PyrDownDepth K t a b).
Proof. unfold PyrDownDepth. pres_tac. Qed.

#[local] Hint Resolve pres_Clone pres_To pres_Div_ pres_SetItem2 pres_Matmul
  pres_Contiguous pres_ClipTransform pres_CreateVertexMap
  pres_CreateNormalMap pres_PyrDown pres_RGBToGray pres_ImageTo
  pres_FilterSobel pres_PoseToTransformation pres_PyrDownDepth : pres.

Lemma pres_ComputePosePointToPlane x a b c d e f :
  pres x (ComputePosePointToPlane K a b c d e f).
Proof. unfold ComputePosePointToPlane. pres_tac. Qed.

Lemma pres_ComputePoseIntensity x a b c d e f g h i j :
  pres x (ComputePoseIntensity K a b c d e f g h i j).
Proof. unfold ComputePoseIntensity. pres_tac. Qed.

Lemma pres_ComputePoseHybrid x a b c d e f g h i j k l :
  pres x (ComputePoseHybrid K a b c d e f g h i j k l).
Proof. unfold ComputePoseHybrid. pres_tac. Qed.

#[local] Hint Resolve pres_ComputePosePointToPlane pres_ComputePoseIntensity
  pres_ComputePoseHybrid : pres.

Lemma pres_PyramidPointToPlane src tgt intr dd its :
  pres intr (PyramidPointToPlane K src tgt intr dd its).
Proof. unfold PyramidPointToPlane. pres_tac. Qed.

Lemma pres_OdometryPointToPlane x lv t dd its :
  pres x (OdometryPointToPlane K lv t dd its).
Proof. unfold OdometryPointToPlane. pres_tac. Qed.

Lemma pres_PyramidIntensity src tgt intr dd its :
  pres intr (PyramidIntensity K src tgt intr dd its).
Proof. unfold PyramidIntensity. pres_tac. Qed.

Lemma pres_OdometryIntensity x lv t dd its :
  pres x (OdometryIntensity K lv t dd its).
Proof. unfold OdometryIntensity. pres_tac. Qed.

Lemma pres_PyramidHybrid src tgt intr dd its :
  pres intr (PyramidHybrid K src tgt intr dd its).
Proof. unfold PyramidHybrid. pres_tac. Qed.

Lemma pres_OdometryHybrid x lv t dd its :
  pres x (OdometryHybrid K lv t dd its).
Proof. unfold OdometryHybrid. pres_tac. Qed.

End Frame.

(** ** States reached by allocation and by writing *)

#[global] Arguments push : simpl never.
#[global] Arguments upd : simpl never.

Lemma deref_preserved x s s' h :
  preserved x s s' -> stable x s h -> deref s' h = deref s h.
Proof.
  intros [_ H] [Hv Hx]. destruct h as [l|]; simpl in *; [|reflexivity].
  rewrite H by auto. reflexivity.
Qed.

Lemma deref_ext s s' h :
  preserved TensorEmpty s s' -> valid s h -> deref s' h = deref s h.
Proof.
  intros [_ H] Hv. destruct h as [l|]; simpl in *; [|reflexivity].
  rewrite H; [reflexivity|exact Hv|discriminate].
Qed.

Lemma valid_preserved x s s' h : preserved x s s' -> valid s h -> valid s' h.
Proof. intros [L _]. destruct h; simpl; [lia|auto]. Qed.

Lemma stable_preserved x s s' h :
  preserved x s s' -> stable x s h -> stable x s' h.
Proof. intros P [Hv Hx]. split; eauto using valid_preserved. Qed.

Lemma preserved_weaken x s s' : preserved TensorEmpty s s' -> preserved x s s'.
Proof. intros [L H]. split; [exact L|]. intros l Hl _. apply H; [exact Hl|discriminate]. Qed.

Lemma preserved_push x s v e : preserved x s (push s v e).
Proof.
  unfold push.
  split; simpl.
  - rewrite length_app. lia.
  - intros l Hl _. apply lookup_app_l. exact Hl.
Qed.

Lemma preserved_upd s l v : preserved (TensorAt l) s (upd s l v).
Proof.
  unfold upd.
  split; simpl.
  - rewrite length_insert. lia.
  - intros l' Hl Hne. apply list_lookup_insert_ne. congruence.
Qed.

Lemma deref_push_new s v e : deref (push s v e) (TensorAt (length (store s))) = v.
Proof.
  unfold push.
  simpl. rewrite lookup_app_r by lia. rewrite Nat.sub_diag. reflexivity.
Qed.

Lemma deref_push_old s v e h : valid s h -> deref (push s v e) h = deref s h.
Proof.
  unfold push.
  intros Hv. destruct h as [l|]; simpl in *; [|reflexivity].
  rewrite lookup_app_l by exact Hv. reflexivity.
Qed.

Lemma valid_push_new s v e : valid (push s v e) (TensorAt (length (store s))).
Proof.
  unfold push. simpl. rewrite length_app. simpl. lia. Qed.

Lemma valid_push_old s v e h : valid s h -> valid (push s v e) h.
Proof.
  unfold push. destruct h; simpl; [|auto]. rewrite length_app. simpl. lia. Qed.

Lemma length_push s v e : length (store (push s v e)) = S (length (store s)).
Proof.
  unfold push. simpl. rewrite length_app. simpl. lia. Qed.

Lemma trace_push s v e : trace (push s v e) = trace s ++ e.
Proof. reflexivity. Qed.

Lemma deref_upd_same s l v : l < length (store s) -> deref (upd s l v) (TensorAt l) = v.
Proof.
  unfold upd. intros Hl. simpl. rewrite list_lookup_insert_eq by exact Hl. reflexivity. Qed.

Lemma deref_upd_other s l v h : h <> TensorAt l -> deref (upd s l v) h = deref s h.
Proof.
  unfold upd.
  intros Hne. destruct h as [l'|]; simpl; [|reflexivity].
  rewrite list_lookup_insert_ne by congruence. reflexivity.
Qed.

Lemma valid_upd s l v h : valid s h -> valid (upd s l v) h.
Proof.
  unfold upd. destruct h; simpl; [|auto]. rewrite length_insert. auto. Qed.

Lemma length_upd s l v : length (store (upd s l v)) = length (store s).
Proof.
  unfold upd. simpl. apply length_insert. Qed.

Lemma trace_upd s l v : trace (upd s l v) = trace s.
Proof. reflexivity. Qed.

(** ** Running the monad *)

Lemma bind_run {A B} (m : M A) (f : A -> M B) s a s' :
  m s = (inr a, s') -> bind m f s = f a s'.
Proof. intros H. unfold bind. rewrite H. reflexivity. Qed.

Lemma bind_fail {A B} (m : M A) (f : A -> M B) s e s' :
  m s = (inl e, s') -> bind m f s = (inl e, s').
Proof. intros H. unfold bind. rewrite H. reflexivity. Qed.

Lemma bind_assoc_pt {A B C} (m : M A) (f : A -> M B) (g : B -> M C) s :
  bind (bind m f) g s = bind m (fun x => bind (f x) g) s.
Proof. unfold bind. destruct (m s) as [[e|a] s']; reflexivity. Qed.

Lemma bind_ret_pt {A B} (a : A) (f : A -> M B) s : bind (ret a) f s = f a s.
Proof. reflexivity. Qed.

Lemma bind_congr {A B} (m : M A) (f g : A -> M B) s :
  (forall a s', f a s' = g a s') -> bind m f s = bind m g s.
Proof. intros H. unfold bind. destruct (m s) as [[e|a] s']; auto. Qed.

(** Equality of two programs up to the monad laws, read pointwise. *)
Ltac monad_eq :=
  repeat first
    [ reflexivity
    | rewrite bind_assoc_pt
    | rewrite bind_ret_pt
    | apply bind_congr; intros ? ?
    | match goal with
      | |- (if ?c then _ else _) _ = _ => destruct c
      end
    | progress cbv beta zeta ].

Lemma for_loop_ext {S} (b1 b2 : nat -> S -> M S) :
  (forall i st s, b1 i st s = b2 i st s) ->
  forall todo i st s, for_loop todo i b1 st s = for_loop todo i b2 st s.
Proof.
  intros Hb. induction todo as [|k IH]; intros i st s; simpl; [reflexivity|].
  unfold bind. rewrite Hb. destruct (b2 i st s) as [[e|st'] s']; auto.
Qed.

(** The loop rule: an invariant carried by every iteration that runs. *)
Lemma for_loop_rule {S} (Inv : nat -> S -> State -> Prop)
    (body : nat -> S -> M S) todo :
  forall i st s,
    (forall j st s, i <= j < i + todo -> Inv j st s ->
       exists st' s', body j st s = (inr st', s') /\ Inv (Datatypes.S j) st' s') ->
    Inv i st s ->
    exists st' s', for_loop todo i body st s = (inr st', s')
                   /\ Inv (i + todo) st' s'.
Proof.
  induction todo as [|k IH]; intros i st s Hb Hi; simpl.
  - exists st, s. rewrite Nat.add_0_r. auto.
  - destruct (Hb i st s) as (st1 & s1 & Hrun & Hi1); [lia|exact Hi|].
    rewrite (bind_run _ _ _ _ _ Hrun).
    destruct (IH (Datatypes.S i) st1 s1) as (st2 & s2 & Hrun2 & Hi2).
    + intros j st' s' Hj. apply Hb. lia.
    + exact Hi1.
    + exists st2, s2. split; [exact Hrun2|].
      replace (i + Datatypes.S k) with (Datatypes.S i + k) by lia. exact Hi2.
Qed.

Lemma Div__run l c s :
  Div_ (TensorAt l) c s = (inr tt, upd s l (div_val (deref s (TensorAt l)) c)).
Proof. reflexivity. Qed.

Lemma SetItem2_run l i j c s :
  SetItem2 (TensorAt l) i j c s
  = (inr tt, upd s l (set_item2_val (deref s (TensorAt l)) i j c)).
Proof. reflexivity. Qed.

Lemma Clone_run t s :
  Clone t s = (inr (TensorAt (length (store s))), push s (deref s t) []).
Proof.
  unfold Clone, bind, load, alloc, push. simpl.
  rewrite app_nil_r. reflexivity.
Qed.


Lemma map_deref_preserved x s s' hs :
  preserved x s s' -> Forall (stable x s) hs ->
  map (deref s') hs = map (deref s) hs.
Proof.
  intros P H. induction H as [|h hs Hh _ IH]; simpl; [reflexivity|].
  rewrite IH. erewrite deref_preserved by eauto. reflexivity.
Qed.

Lemma Forall_stable_preserved x s s' hs :
  preserved x s s' -> Forall (stable x s) hs -> Forall (stable x s') hs.
Proof. intros P H. eapply Forall_impl; [exact H|]. intros h. apply stable_preserved, P. Qed.

Lemma nth_insert_eq {A} (l : list A) i x d :
  i < length l -> nth i (<[i := x]> l) d = x.
Proof. intros H. rewrite nth_lookup, list_lookup_insert_eq by exact H. reflexivity. Qed.

Lemma nth_insert_ne {A} (l : list A) i j x d :
  i <> j -> nth j (<[i := x]> l) d = nth j l d.
Proof. intros H. rewrite !nth_lookup, list_lookup_insert_ne by exact H. reflexivity. Qed.

Ltac split_inv :=
  split; [|split; [|split; [|split; [|split; [|split; [|split]]]]]].

Section Pyramid.

Context {C L : Type} (cfields : C -> list Tensor) (lfields : L -> list Tensor).

Context (li : nat).

Context (make_level : C -> M L) (down : C -> M C).

Context (mk : list TVal -> TVal -> list TVal).

Context (dn : list TVal -> list TVal) (dn_ok : list TVal -> Prop).

Context (ev_mk ev_dn : list Event).

Context (n : nat) (dflt : L).

Hypothesis make_level_spec : forall s c,
  Forall (stable (TensorAt li) s) (cfields c) -> valid s (TensorAt li) ->
  exists lv s',
    make_level c s = (inr lv, s')
    /\ preserved TensorEmpty s s'
    /\ Forall (stable (TensorAt li) s') (lfields lv)
    /\ map (deref s') (lfields lv)
       = mk (map (deref s) (cfields c)) (deref s (TensorAt li))
    /\ trace s' = trace s ++ ev_mk.

Hypothesis down_spec : forall s c,
  Forall (stable (TensorAt li) s) (cfields c) -> valid s (TensorAt li) ->
  dn_ok (map (deref s) (cfields c)) ->
  exists c' s',
    down c s = (inr c', s')
    /\ preserved TensorEmpty s s'
    /\ Forall (stable (TensorAt li) s') (cfields c')
    /\ map (deref s') (cfields c') = dn (map (deref s) (cfields c))
    /\ trace s' = trace s ++ ev_dn.

Lemma pyramid_events_S i :
  (pyramid_events ev_mk ev_dn n) (S i)
  = (pyramid_events ev_mk ev_dn n) i ++ ev_mk ++ (if i =? n - 1 then [] else ev_dn).
Proof.
  unfold pyramid_events. rewrite seq_S, flat_map_app. simpl.
  rewrite app_nil_r. reflexivity.
Qed.

Lemma deref_intr_ext s s' :
  preserved TensorEmpty s s' -> valid s (TensorAt li) ->
  deref s' (TensorAt li) = deref s (TensorAt li).
Proof. intros P V. eapply deref_preserved; [exact P|]. split; [exact V|discriminate]. Qed.

Lemma pyramid_step_inv s0 cv0 K0 i st s :
  i < n ->
  (forall j, j < n - 1 -> dn_ok (Nat.iter j dn cv0)) ->
  (pyramid_inv cfields lfields li mk dn ev_mk ev_dn n dflt) s0 cv0 K0 i st s ->
  exists st' s', (pyramid_step li make_level down n) i st s = (inr st', s')
                 /\ (pyramid_inv cfields lfields li mk dn ev_mk ev_dn n dflt) s0 cv0 K0 (S i) st' s'.
Proof.
  intros Hi Hok (Hc & Hcv & Hvi & Hk & Hlen & Hlv & Htr & Hpres).
  destruct st as [c levels]; cbn [fst snd] in *.
  rewrite Nat.min_l in Hcv, Hk by lia.
  destruct (make_level_spec s c Hc Hvi) as (lv & s1 & Hrun1 & P1 & Hl1 & Hv1 & Ht1).
  unfold pyramid_step. cbn [fst snd]. rewrite (bind_run _ _ _ _ _ Hrun1).
  assert (Hc1 : Forall (stable (TensorAt li) s1) (cfields c))
    by (eapply Forall_stable_preserved; [apply preserved_weaken, P1|exact Hc]).
  assert (Hcv1 : map (deref s1) (cfields c) = Nat.iter i dn cv0)
    by (rewrite <- Hcv; eapply map_deref_preserved; [apply preserved_weaken, P1|exact Hc]).
  assert (Hvi1 : valid s1 (TensorAt li)) by (eapply valid_preserved; eauto).
  assert (Hk1 : deref s1 (TensorAt li) = Nat.iter i halve_reset K0)
    by (rewrite <- Hk; apply deref_intr_ext; auto).
  assert (Hlv1 : forall k, n - S i <= k < n ->
            Forall (stable (TensorAt li) s1)
              (lfields (nth k (<[n - 1 - i := lv]> levels) dflt))
            /\ map (deref s1) (lfields (nth k (<[n - 1 - i := lv]> levels) dflt))
               = (level_spec mk dn) cv0 K0 (n - 1 - k)).
  { intros k Hkr. destruct (decide (k = n - 1 - i)) as [->|Hne].
    - rewrite nth_insert_eq by lia. split; [exact Hl1|].
      rewrite Hv1, Hcv, Hk. unfold level_spec.
      replace (n - 1 - (n - 1 - i)) with i by lia. reflexivity.
    - rewrite nth_insert_ne by lia.
      destruct (Hlv k) as [Hs Hm]; [lia|]. split.
      + eapply Forall_stable_preserved; [apply preserved_weaken, P1|exact Hs].
      + rewrite <- Hm. eapply map_deref_preserved;
          [apply preserved_weaken, P1|exact Hs]. }
  destruct (Nat.eqb_spec i (n - 1)) as [Hlast|Hmore]; cbn [negb].
  - (* the coarsest level: nothing is downsampled *)
    eexists. eexists. split; [reflexivity|].
    unfold pyramid_inv; cbn [fst snd]. rewrite Nat.min_r by lia.
    assert (Hcv1' : map (deref s1) (cfields c) = Nat.iter (n - 1) dn cv0)
      by (rewrite Hcv1; f_equal; exact Hlast).
    assert (Hk1' : deref s1 (TensorAt li) = Nat.iter (n - 1) halve_reset K0)
      by (rewrite Hk1; f_equal; exact Hlast).
    split_inv.
    + exact Hc1.
    + exact Hcv1'.
    + exact Hvi1.
    + exact Hk1'.
    + rewrite length_insert. exact Hlen.
    + intros k Hkr. apply Hlv1. lia.
    + rewrite pyramid_events_S, Ht1, Htr.
      destruct (Nat.eqb_spec i (n - 1)); [|lia].
      rewrite app_nil_r, app_assoc. reflexivity.
    + eapply preserved_trans; [exact Hpres|apply preserved_weaken, P1].
  - destruct (down_spec s1 c Hc1 Hvi1)
      as (c' & s2 & Hrun2 & P2 & Hc2 & Hcv2 & Ht2).
    { rewrite Hcv1. apply Hok. lia. }
    rewrite (bind_run _ _ _ _ _ Hrun2).
    rewrite (bind_run _ _ _ _ _ (Div__run _ _ _)).
    rewrite (bind_run _ _ _ _ _ (SetItem2_run _ _ _ _ _)).
    assert (Hvi2 : valid s2 (TensorAt li)) by (eapply valid_preserved; eauto).
    set (s3 := upd s2 li _).
    set (s4 := upd s3 li _).
    assert (P34 : preserved (TensorAt li) s2 s4).
    { eapply preserved_trans; apply preserved_upd. }
    eexists. eexists. split; [reflexivity|].
    unfold pyramid_inv; cbn [fst snd]. rewrite Nat.min_l by lia.
    split_inv.
    + eapply Forall_stable_preserved; [exact P34|exact Hc2].
    + erewrite map_deref_preserved; [|exact P34|exact Hc2].
      rewrite Hcv2, Hcv1. reflexivity.
    + eapply valid_preserved; [exact P34|exact Hvi2].
    + subst s4 s3.
      rewrite deref_upd_same by (rewrite length_upd; exact Hvi2).
      rewrite deref_upd_same by exact Hvi2.
      rewrite (deref_intr_ext s1 s2 P2 Hvi1), Hk1. reflexivity.
    + rewrite length_insert. exact Hlen.
    + intros k Hkr. destruct (Hlv1 k) as [Hs Hm]; [lia|].
      assert (Hs2 : Forall (stable (TensorAt li) s2)
                      (lfields (nth k (<[n - 1 - i := lv]> levels) dflt)))
        by (eapply Forall_stable_preserved;
            [apply preserved_weaken, P2|exact Hs]).
      split.
      * eapply Forall_stable_preserved; [exact P34|exact Hs2].
      * rewrite <- Hm. erewrite map_deref_preserved; [|exact P34|exact Hs2].
        eapply map_deref_preserved; [apply preserved_weaken, P2|exact Hs].
    + subst s4 s3. rewrite !trace_upd, Ht2, Ht1, Htr, pyramid_events_S.
      destruct (Nat.eqb_spec i (n - 1)); [lia|].
      rewrite <- !app_assoc. reflexivity.
    + eapply preserved_trans; [exact Hpres|].
      eapply preserved_trans; [apply preserved_weaken, P1|].
      eapply preserved_trans; [apply preserved_weaken, P2|exact P34].
Qed.

Theorem pyramid_loop_spec s0 c0 :
  Forall (stable (TensorAt li) s0) (cfields c0) ->
  valid s0 (TensorAt li) ->
  (forall j, j < n - 1 -> dn_ok (Nat.iter j dn (map (deref s0) (cfields c0)))) ->
  exists c levels s',
    for_range n (pyramid_step li make_level down n) (c0, replicate n dflt) s0 = (inr (c, levels), s')
    /\ length levels = n
    /\ (forall k, k < n ->
          Forall (stable (TensorAt li) s') (lfields (nth k levels dflt))
          /\ map (deref s') (lfields (nth k levels dflt))
             = (level_spec mk dn) (map (deref s0) (cfields c0))
                 (deref s0 (TensorAt li)) (n - 1 - k))
    /\ trace s' = trace s0 ++ (pyramid_events ev_mk ev_dn n) n
    /\ deref s' (TensorAt li)
       = Nat.iter (n - 1) halve_reset (deref s0 (TensorAt li))
    /\ valid s' (TensorAt li)
    /\ preserved (TensorAt li) s0 s'.
Proof.
  intros Hc Hv Hok.
  set (cv0 := map (deref s0) (cfields c0)) in *.
  set (K0 := deref s0 (TensorAt li)).
  destruct (for_loop_rule ((pyramid_inv cfields lfields li mk dn ev_mk ev_dn n dflt) s0 cv0 K0) (pyramid_step li make_level down n) n 0
              (c0, replicate n dflt) s0) as ([c levels] & s' & Hrun & Hinv).
  - intros j st s Hj. apply pyramid_step_inv; [lia|exact Hok].
  - unfold pyramid_inv; cbn [fst snd]. split_inv.
    + exact Hc.
    + reflexivity.
    + exact Hv.
    + reflexivity.
    + apply length_replicate.
    + intros k Hk. lia.
    + unfold pyramid_events. simpl. rewrite app_nil_r. reflexivity.
    + apply preserved_refl.
  - exists c, levels, s'. split; [exact Hrun|].
    destruct Hinv as (_ & _ & Hvi & Hk & Hlen & Hlv & Htr & Hp).
    cbn [fst snd] in *.
    split; [exact Hlen|]. split; [intros k Hkn; apply Hlv; lia|].
    split; [exact Htr|]. split; [|split; [exact Hvi|exact Hp]].
    rewrite Hk. rewrite Nat.min_r by lia. reflexivity.
Qed.

End Pyramid.

Ltac len_tac := rewrite ?length_push, ?length_upd; lia.

Ltac valid_tac :=
  repeat first
    [ assumption
    | apply valid_push_new
    | apply valid_push_old
    | apply valid_upd
    | match goal with H : stable _ ?s ?h |- valid ?s ?h => exact (proj1 H) end ].

Ltac deref_tac :=
  repeat first
    [ rewrite deref_push_new
    | rewrite deref_push_old by valid_tac ].

Lemma stable_new x s l :
  valid s x -> x <> TensorEmpty -> length (store s) <= l ->
  TensorAt l <> x.
Proof. intros Hv Hx Hl E. subst x. simpl in Hv. lia. Qed.

Lemma stable_at li s l :
  li < l -> l < length (store s) -> stable (TensorAt li) s (TensorAt l).
Proof. intros Hl Hx. split; [exact Hx|]. intros E. inversion E. lia. Qed.

Ltac fresh_tac :=
  repeat first
    [ apply Forall_nil_2
    | apply Forall_cons_2
    | apply stable_at; len_tac ].

Section Runs.

Context (K : Kernels).

Lemma alloc_run v s :
  alloc v s = (inr (TensorAt (length (store s))), push s v []).
Proof. unfold alloc, push. rewrite app_nil_r. reflexivity. Qed.

Lemma CreateVertexMap_run img intr fill s :
  CreateVertexMap K img intr fill s
  = (inr (TensorAt (length (store s))),
     push s (k_CreateVertexMap K (deref s img) (deref s intr) fill)
       [EvCreateVertexMap]).
Proof. reflexivity. Qed.

Lemma CreateNormalMap_run img fill s :
  CreateNormalMap K img fill s
  = (inr (TensorAt (length (store s))),
     push s (k_CreateNormalMap K (deref s img) fill) [EvCreateNormalMap]).
Proof. reflexivity. Qed.

Lemma PyrDown_run img s :
  PyrDown K img s
  = (inr (TensorAt (length (store s))),
     push s (k_PyrDown K (deref s img)) [EvPyrDown]).
Proof. reflexivity. Qed.

Lemma RGBToGray_run img s :
  RGBToGray K img s
  = (inr (TensorAt (length (store s))),
     push s (k_RGBToGray K (deref s img)) [EvRGBToGray]).
Proof. reflexivity. Qed.

Lemma FilterSobel_run img s :
  FilterSobel K img s
  = (inr (TensorAt (length (store s)),
          TensorAt (length (store
             (push s (fst (k_FilterSobel K (deref s img))) [EvFilterSobel])))),
     push (push s (fst (k_FilterSobel K (deref s img))) [EvFilterSobel])
       (snd (k_FilterSobel K (deref s img))) []).
Proof.
  unfold FilterSobel, bind, load, emit, alloc, ret, push. simpl.
  rewrite app_nil_r. reflexivity.
Qed.

Lemma PyrDownDepth_run src thr fill s :
  pdd_ok (deref s src) ->
  PyrDownDepth K src thr fill s
  = (inr (TensorAt (length (store s))),
     push s (pyr_down_val K (deref s src) thr fill) [EvPyrDownDepth]).
Proof.
  intros (Hr & Hc & Hch & Hd).
  unfold PyrDownDepth, bind, load, when.
  destruct (Z.leb_spec (GetRows (deref s src)) 0); [lia|].
  destruct (Z.leb_spec (GetCols (deref s src)) 0); [lia|].
  rewrite Hch. simpl. rewrite Hd. reflexivity.
Qed.

Lemma PyrDownDepth_fail src thr fill s :
  ~ pdd_ok (deref s src) ->
  exists e, PyrDownDepth K src thr fill s = (inl e, s).
Proof.
  intros Hn. unfold PyrDownDepth, bind, load, when.
  destruct (Z.leb_spec (GetRows (deref s src)) 0);
    [eexists; reflexivity|].
  destruct (Z.leb_spec (GetCols (deref s src)) 0);
    [eexists; reflexivity|].
  destruct (Z.eqb_spec (GetChannels (deref s src)) 1);
    [|eexists; reflexivity].
  simpl. destruct (bool_decide_reflect (tv_dtype (deref s src) = Float32));
    [|eexists; reflexivity].
  exfalso. apply Hn. repeat split; auto.
Qed.

(** *** The point-to-plane pyramid *)

Lemma p2p_make_spec li s c :
  Forall (stable (TensorAt li) s) (p2p_cfields c) -> valid s (TensorAt li) ->
  exists lv s',
    (p2p_make K) (TensorAt li) c s = (inr lv, s')
    /\ preserved TensorEmpty s s'
    /\ Forall (stable (TensorAt li) s') (p2p_lfields lv)
    /\ map (deref s') (p2p_lfields lv)
       = (p2p_mk K) (map (deref s) (p2p_cfields c)) (deref s (TensorAt li))
    /\ trace s' = trace s ++ p2p_events_mk.
Proof.
  intros Hc Hv. destruct c as [a b]. unfold p2p_cfields in *. simpl in Hc.
  inversion Hc as [|? ? Ha Hc']; subst. inversion Hc' as [|? ? Hb _]; subst.
  unfold p2p_make. cbn [fst snd].
  rewrite (bind_run _ _ _ _ _ (CreateVertexMap_run _ _ _ _)).
  rewrite (bind_run _ _ _ _ _ (CreateVertexMap_run _ _ _ _)).
  rewrite (bind_run _ _ _ _ _ (CreateNormalMap_run _ _ _)).
  rewrite (bind_run _ _ _ _ _ (Clone_run _ _)).
  eexists. eexists. split; [reflexivity|].
  split; [repeat (eapply preserved_trans; [|apply preserved_push]); apply preserved_refl|].
  split.
  - unfold p2p_lfields; cbn [p_source_vertex_map p_target_vertex_map
      p_target_normal_map p_intrinsic_matrix].
    simpl in Hv. fresh_tac.
  - split.
    + unfold p2p_lfields; cbn [p_source_vertex_map p_target_vertex_map
        p_target_normal_map p_intrinsic_matrix map p2p_mk].
      deref_tac. reflexivity.
    + rewrite !trace_push. rewrite <- !app_assoc. reflexivity.
Qed.

Lemma p2p_down_spec li dd s c :
  Forall (stable (TensorAt li) s) (p2p_cfields c) ->
  valid s (TensorAt li) ->
  Forall pdd_ok (map (deref s) (p2p_cfields c)) ->
  exists c' s',
    (p2p_down K) dd c s = (inr c', s')
    /\ preserved TensorEmpty s s'
    /\ Forall (stable (TensorAt li) s') (p2p_cfields c')
    /\ map (deref s') (p2p_cfields c')
       = (p2p_dn K) dd (map (deref s) (p2p_cfields c))
    /\ trace s' = trace s ++ p2p_events_dn.
Proof.
  intros Hc Hv Hok. destruct c as [a b]. unfold p2p_cfields in *.
  cbn [fst snd map] in *.
  inversion Hc as [|? ? Ha Hc']; subst. inversion Hc' as [|? ? Hb _]; subst.
  inversion Hok as [|? ? Hoa Hok']; subst.
  inversion Hok' as [|? ? Hob _]; subst.
  unfold p2p_down. cbn [fst snd].
  rewrite (bind_run _ _ _ _ _ (PyrDownDepth_run _ _ _ _ Hoa)).
  erewrite bind_run; cycle 1.
  { apply PyrDownDepth_run. deref_tac. exact Hob. }
  eexists. eexists. split; [reflexivity|].
  split; [repeat (eapply preserved_trans; [|apply preserved_push]);
          apply preserved_refl|].
  simpl in Hv. split; [cbn [fst snd]; fresh_tac|].
  split.
  - cbn [fst snd map p2p_dn]. deref_tac. reflexivity.
  - rewrite !trace_push. rewrite <- !app_assoc. reflexivity.
Qed.

End Runs.

Section P2P.

Context (K : Kernels).

Lemma p2p_body_step li dd n i st s :
  (fun i '(source_depth_curr, target_depth_curr, levels) =>
       do source_vertex_map <- CreateVertexMap K source_depth_curr (TensorAt li) NaN;
       do target_vertex_map <- CreateVertexMap K target_depth_curr (TensorAt li) NaN;
       do target_normal_map <- CreateNormalMap K target_vertex_map NaN;
       do intrinsic_matrix <- Clone (TensorAt li);
       let levels :=
         <[n - 1 - i :=
             mkLevelP2P source_vertex_map target_vertex_map target_normal_map
               intrinsic_matrix]> levels in
       if negb (i =? n - 1) then
         do source_depth_next <-
           PyrDownDepth K source_depth_curr (smul dd (sZ 2)) NaN;
         do target_depth_next <-
           PyrDownDepth K target_depth_curr (smul dd (sZ 2)) NaN;
         Div_ (TensorAt li) (sZ 2) ;>
         SetItem2 (TensorAt li) (-1) (-1) (sZ 1) ;>
         ret (source_depth_next, target_depth_next, levels)
       else ret (source_depth_curr, target_depth_curr, levels)) i st s
  = pyramid_step li (p2p_make K (TensorAt li)) (p2p_down K dd) n i st s.
Proof.
  destruct st as [[a b] levels].
  unfold pyramid_step, p2p_make, p2p_down. cbn [fst snd]. monad_eq.
Qed.

Theorem PyramidPointToPlane_spec source target li dd iterations s0 :
  let n := length iterations in
  stable (TensorAt li) s0 (depth_ source) ->
  stable (TensorAt li) s0 (depth_ target) ->
  valid s0 (TensorAt li) ->
  (forall j, j < n - 1 ->
     Forall pdd_ok (Nat.iter j (p2p_dn K dd)
                      [deref s0 (depth_ source); deref s0 (depth_ target)])) ->
  exists levels s',
    PyramidPointToPlane K source target (TensorAt li) dd iterations s0
    = (inr levels, s')
    /\ length levels = n
    /\ (forall k, k < n ->
          Forall (stable (TensorAt li) s')
            (p2p_lfields (nth k levels LevelP2P_default))
          /\ map (deref s') (p2p_lfields (nth k levels LevelP2P_default))
             = (p2p_level_spec K) dd (deref s0 (depth_ source))
                 (deref s0 (depth_ target)) (deref s0 (TensorAt li))
                 (n - 1 - k))
    /\ trace s' = trace s0
                  ++ pyramid_events p2p_events_mk p2p_events_dn n n
    /\ deref s' (TensorAt li)
       = Nat.iter (n - 1) halve_reset (deref s0 (TensorAt li))
    /\ valid s' (TensorAt li)
    /\ preserved (TensorAt li) s0 s'.
Proof.
  intros n Hs Ht Hv Hok.
  destruct (pyramid_loop_spec p2p_cfields p2p_lfields li
              (p2p_make K (TensorAt li)) (p2p_down K dd)
              (p2p_mk K) (p2p_dn K dd) (Forall pdd_ok)
              p2p_events_mk p2p_events_dn n LevelP2P_default
              (p2p_make_spec K li) (p2p_down_spec K li dd)
              s0 (depth_ source, depth_ target))
    as (c & levels & s' & Hrun & Hlen & Hlv & Htr & Hk & Hvi & Hp).
  - unfold p2p_cfields; cbn [fst snd].
    repeat first [apply Forall_nil_2 | apply Forall_cons_2; [assumption|]].
  - exact Hv.
  - exact Hok.
  - exists levels, s'.
    refine (conj _ (conj Hlen (conj Hlv (conj Htr (conj Hk (conj Hvi Hp)))))).
    unfold PyramidPointToPlane. fold n.
    rewrite (bind_run _ _ _ (c, levels) s'); [reflexivity|].
    unfold for_range in *.
    erewrite for_loop_ext; [exact Hrun|].
    intros i st s. apply p2p_body_step.
Qed.

End P2P.

Ltac run_step lem := erewrite bind_run by (apply lem).

Ltac ext_tac :=
  repeat (eapply preserved_trans; [|apply preserved_push]);
  apply preserved_refl.

Ltac inv_forall H :=
  repeat match type of H with
         | Forall _ (_ :: _) =>
             let H1 := fresh "Hst" in
             let H2 := fresh "Hrest" in
             inversion H as [|? ? H1 H2]; subst; clear H; rename H2 into H
         end.

Section IntensityHybrid.

Context (K : Kernels).

Lemma i_make_spec li s c :
  Forall (stable (TensorAt li) s) (i_cfields c) -> valid s (TensorAt li) ->
  exists lv s',
    (i_make K) (TensorAt li) c s = (inr lv, s')
    /\ preserved TensorEmpty s s'
    /\ Forall (stable (TensorAt li) s') (i_lfields lv)
    /\ map (deref s') (i_lfields lv)
       = (i_mk K) (map (deref s) (i_cfields c)) (deref s (TensorAt li))
    /\ trace s' = trace s ++ i_events_mk.
Proof.
  intros Hc Hv. destruct c as [[[a b] c] d]. unfold i_cfields in *.
  cbn [fst snd] in *. inv_forall Hc.
  unfold i_make. cbn [fst snd].
  do 4 run_step Clone_run.
  run_step CreateVertexMap_run.
  run_step FilterSobel_run.
  run_step Clone_run.
  eexists. eexists. split; [reflexivity|].
  split; [ext_tac|]. simpl in Hv.
  split; [unfold i_lfields; cbn -[push]; fresh_tac|].
  split.
  - unfold i_lfields; cbn -[push deref]. deref_tac. reflexivity.
  - rewrite !trace_push. rewrite <- !app_assoc. reflexivity.
Qed.

Lemma h_make_spec li s c :
  Forall (stable (TensorAt li) s) (i_cfields c) -> valid s (TensorAt li) ->
  exists lv s',
    (h_make K) (TensorAt li) c s = (inr lv, s')
    /\ preserved TensorEmpty s s'
    /\ Forall (stable (TensorAt li) s') (h_lfields lv)
    /\ map (deref s') (h_lfields lv)
       = (h_mk K) (map (deref s) (i_cfields c)) (deref s (TensorAt li))
    /\ trace s' = trace s ++ h_events_mk.
Proof.
  intros Hc Hv. destruct c as [[[a b] c] d]. unfold i_cfields in *.
  cbn [fst snd] in *. inv_forall Hc.
  unfold h_make. cbn [fst snd].
  do 4 run_step Clone_run.
  run_step CreateVertexMap_run.
  do 2 run_step FilterSobel_run.
  run_step Clone_run.
  eexists. eexists. split; [reflexivity|].
  split; [ext_tac|]. simpl in Hv.
  split; [unfold h_lfields; cbn -[push]; fresh_tac|].
  split.
  - unfold h_lfields; cbn -[push deref]. deref_tac. reflexivity.
  - rewrite !trace_push. rewrite <- !app_assoc. reflexivity.
Qed.

Lemma i_down_spec li dd s c :
  Forall (stable (TensorAt li) s) (i_cfields c) ->
  valid s (TensorAt li) ->
  i_dn_ok (map (deref s) (i_cfields c)) ->
  exists c' s',
    (i_down K) dd c s = (inr c', s')
    /\ preserved TensorEmpty s s'
    /\ Forall (stable (TensorAt li) s') (i_cfields c')
    /\ map (deref s') (i_cfields c') = (i_dn K) dd (map (deref s) (i_cfields c))
    /\ trace s' = trace s ++ i_events_dn.
Proof.
  intros Hc Hv Hok. destruct c as [[[a b] c] d].
  unfold i_cfields, i_dn_ok in *. cbn [fst snd map take] in *.
  inv_forall Hc. inv_forall Hok.
  unfold i_down. cbn [fst snd].
  erewrite bind_run by (apply PyrDownDepth_run; exact Hst3).
  erewrite bind_run by (apply PyrDownDepth_run; deref_tac; exact Hst4).
  do 2 run_step PyrDown_run.
  eexists. eexists. split; [reflexivity|].
  split; [ext_tac|]. simpl in Hv.
  split; [cbn [fst snd]; fresh_tac|].
  split.
  - cbn [fst snd map i_dn]. deref_tac. reflexivity.
  - rewrite !trace_push. rewrite <- !app_assoc. reflexivity.
Qed.

End IntensityHybrid.

Section IntensityHybridPyramids.

Context (K : Kernels).

Lemma ImageTo_same img d s :
  tv_dtype (deref s img) = d -> ImageTo K img d s = (inr img, s).
Proof.
  intros H. unfold ImageTo, bind, load.
  destruct (decide (tv_dtype (deref s img) = d)); [reflexivity|contradiction].
Qed.

Lemma ImageTo_convert img d s :
  tv_dtype (deref s img) <> d ->
  ImageTo K img d s
  = (inr (TensorAt (length (store s))),
     push s (k_ImageTo K (deref s img) d) [EvImageTo]).
Proof.
  intros H. unfold ImageTo, bind, load.
  destruct (decide (tv_dtype (deref s img) = d)); [contradiction|reflexivity].
Qed.

Lemma gray_spec li color s :
  valid s (TensorAt li) -> valid s color ->
  exists g h s',
    RGBToGray K color s
    = (inr g, push s (k_RGBToGray K (deref s color)) [EvRGBToGray])
    /\ ImageTo K g Float32
         (push s (k_RGBToGray K (deref s color)) [EvRGBToGray]) = (inr h, s')
    /\ preserved TensorEmpty s s'
    /\ stable (TensorAt li) s' h
    /\ deref s' h = (gray_val K) (deref s color)
    /\ trace s' = trace s ++ (gray_events K) (deref s color).
Proof.
  intros Hv Hc. simpl in Hv.
  exists (TensorAt (length (store s))).
  unfold gray_val, gray_events.
  destruct (decide (tv_dtype (k_RGBToGray K (deref s color)) = Float32))
    as [E|E].
  - eexists. eexists. split; [reflexivity|].
    split; [apply ImageTo_same; deref_tac; exact E|].
    split; [ext_tac|]. split; [fresh_tac|]. split; [deref_tac; reflexivity|].
    reflexivity.
  - eexists. eexists. split; [reflexivity|].
    split; [apply ImageTo_convert; deref_tac; exact E|].
    split; [ext_tac|]. split; [fresh_tac|]. split; [deref_tac; reflexivity|].
    rewrite !trace_push, <- !app_assoc. reflexivity.
Qed.

Lemma i_body_step li dd n i st s :
  (fun i '(source_depth_curr, target_depth_curr, source_intensity_curr,
             target_intensity_curr, levels) =>
       do source_depth <- Clone source_depth_curr;
       do target_depth <- Clone target_depth_curr;
       do source_intensity <- Clone source_intensity_curr;
       do target_intensity <- Clone target_intensity_curr;
       do source_vertex_map <- CreateVertexMap K source_depth_curr (TensorAt li) NaN;
       do target_intensity_grad <- FilterSobel K target_intensity_curr;
       do intrinsic_matrix <- Clone (TensorAt li);
       let levels :=
         <[n - 1 - i :=
             mkLevelIntensity source_depth target_depth source_intensity
               target_intensity source_vertex_map
               (fst target_intensity_grad) (snd target_intensity_grad)
               intrinsic_matrix]> levels in
       if negb (i =? n - 1) then
         do source_depth_next <-
           PyrDownDepth K source_depth_curr (smul dd (sZ 2)) NaN;
         do target_depth_next <-
           PyrDownDepth K target_depth_curr (smul dd (sZ 2)) NaN;
         do source_intensity_next <- PyrDown K source_intensity_curr;
         do target_intensity_next <- PyrDown K target_intensity_curr;
         Div_ (TensorAt li) (sZ 2) ;>
         SetItem2 (TensorAt li) (-1) (-1) (sZ 1) ;>
         ret (source_depth_next, target_depth_next, source_intensity_next,
              target_intensity_next, levels)
       else ret (source_depth_curr, target_depth_curr, source_intensity_curr,
                 target_intensity_curr, levels)) i st s
  = pyramid_step li (i_make K (TensorAt li)) (i_down K dd) n i st s.
Proof.
  destruct st as [[[[a b] c] d] levels].
  unfold pyramid_step, i_make, i_down. cbn [fst snd]. monad_eq.
Qed.

Lemma h_body_step li dd n i st s :
  (fun i '(source_depth_curr, target_depth_curr, source_intensity_curr,
             target_intensity_curr, levels) =>
       do source_depth <- Clone source_depth_curr;
       do target_depth <- Clone target_depth_curr;
       do source_intensity <- Clone source_intensity_curr;
       do target_intensity <- Clone target_intensity_curr;
       do source_vertex_map <- CreateVertexMap K source_depth_curr (TensorAt li) NaN;
       do target_intensity_grad <- FilterSobel K target_intensity_curr;
       do target_depth_grad <- FilterSobel K target_depth_curr;
       do intrinsic_matrix <- Clone (TensorAt li);
       let levels :=
         <[n - 1 - i :=
             mkLevelHybrid source_depth target_depth source_intensity
               target_intensity source_vertex_map
               (fst target_intensity_grad) (snd target_intensity_grad)
               (fst target_depth_grad) (snd target_depth_grad)
               intrinsic_matrix]> levels in
       if negb (i =? n - 1) then
         do source_depth_next <-
           PyrDownDepth K source_depth_curr (smul dd (sZ 2)) NaN;
         do target_depth_next <-
           PyrDownDepth K target_depth_curr (smul dd (sZ 2)) NaN;
         do source_intensity_next <- PyrDown K source_intensity_curr;
         do target_intensity_next <- PyrDown K target_intensity_curr;
         Div_ (TensorAt li) (sZ 2) ;>
         SetItem2 (TensorAt li) (-1) (-1) (sZ 1) ;>
         ret (source_depth_next, target_depth_next, source_intensity_next,
              target_intensity_next, levels)
       else ret (source_depth_curr, target_depth_curr, source_intensity_curr,
                 target_intensity_curr, levels)) i st s
  = pyramid_step li (h_make K (TensorAt li)) (i_down K dd) n i st s.
Proof.
  destruct st as [[[[a b] c] d] levels].
  unfold pyramid_step, h_make, i_down. cbn [fst snd]. monad_eq.
Qed.

Theorem PyramidIntensity_spec source target li dd iterations s0 :
  let n := length iterations in
  stable (TensorAt li) s0 (depth_ source) ->
  stable (TensorAt li) s0 (depth_ target) ->
  valid s0 (color_ source) -> valid s0 (color_ target) ->
  valid s0 (TensorAt li) ->
  (forall j, j < n - 1 ->
     i_dn_ok (Nat.iter j (i_dn K dd)
                [deref s0 (depth_ source); deref s0 (depth_ target);
                 (gray_val K) (deref s0 (color_ source));
                 (gray_val K) (deref s0 (color_ target))])) ->
  exists levels s',
    PyramidIntensity K source target (TensorAt li) dd iterations s0
    = (inr levels, s')
    /\ length levels = n
    /\ (forall k, k < n ->
          Forall (stable (TensorAt li) s')
            (i_lfields (nth k levels LevelIntensity_default))
          /\ map (deref s') (i_lfields (nth k levels LevelIntensity_default))
             = (i_level_spec K) dd (deref s0 (depth_ source))
                 (deref s0 (depth_ target)) (deref s0 (color_ source))
                 (deref s0 (color_ target)) (deref s0 (TensorAt li))
                 (n - 1 - k))
    /\ trace s' = trace s0 ++ (i_trace K) n (deref s0 (color_ source))
                                (deref s0 (color_ target))
    /\ deref s' (TensorAt li)
       = Nat.iter (n - 1) halve_reset (deref s0 (TensorAt li))
    /\ valid s' (TensorAt li)
    /\ preserved (TensorAt li) s0 s'.
Proof.
  intros n Hs Ht Hcs Hct Hv Hok.
  destruct (gray_spec li (color_ source) s0 Hv Hcs)
    as (g1 & h1 & s1 & Hr1 & Hr1' & P1 & Hh1 & Hd1 & Ht1).
  assert (Hv1 : valid s1 (TensorAt li)) by (eapply valid_preserved; eauto).
  assert (Hct1 : valid s1 (color_ target)) by (eapply valid_preserved; eauto).
  destruct (gray_spec li (color_ target) s1 Hv1 Hct1)
    as (g2 & h2 & s2 & Hr2 & Hr2' & P2 & Hh2 & Hd2 & Ht2).
  assert (P12 : preserved (TensorAt li) s0 s2).
  { eapply preserved_trans; apply preserved_weaken; eauto. }
  assert (Hct' : deref s1 (color_ target) = deref s0 (color_ target)).
  { apply deref_ext; assumption. }
  rewrite Hct' in *.
  assert (Hv2 : valid s2 (TensorAt li)) by (eapply valid_preserved; eauto).
  destruct (pyramid_loop_spec i_cfields i_lfields li
              (i_make K (TensorAt li)) (i_down K dd)
              (i_mk K) (i_dn K dd) i_dn_ok
              i_events_mk i_events_dn n LevelIntensity_default
              (i_make_spec K li) (i_down_spec K li dd)
              s2 (depth_ source, depth_ target, h1, h2))
    as (c & levels & s' & Hrun & Hlen & Hlv & Htr & Hk & Hvi & Hp).
  - unfold i_cfields; cbn [fst snd].
    repeat first [apply Forall_nil_2 | apply Forall_cons_2].
    + eapply stable_preserved; [exact P12|exact Hs].
    + eapply stable_preserved; [exact P12|exact Ht].
    + eapply stable_preserved; [apply preserved_weaken, P2|exact Hh1].
    + exact Hh2.
  - exact Hv2.
  - unfold i_cfields; cbn [fst snd map].
    rewrite (deref_preserved _ _ _ _ P12 Hs), (deref_preserved _ _ _ _ P12 Ht).
    rewrite (deref_preserved _ _ _ _ (preserved_weaken _ _ _ P2) Hh1).
    rewrite Hd1, Hd2. exact Hok.
  - exists levels, s'.
    assert (E0 : deref s2 (TensorAt li) = deref s0 (TensorAt li)).
    { eapply deref_preserved; [apply preserved_trans with s1; eauto|].
      split; [exact Hv|discriminate]. }
    split.
    { unfold PyramidIntensity. fold n.
      rewrite (bind_run _ _ _ _ _ Hr1), (bind_run _ _ _ _ _ Hr1').
      rewrite (bind_run _ _ _ _ _ Hr2), (bind_run _ _ _ _ _ Hr2').
      rewrite (bind_run _ _ _ (c, levels) s'); [reflexivity|].
      unfold for_range in *.
      erewrite for_loop_ext; [exact Hrun|].
      intros i st s. apply i_body_step. }
    split; [exact Hlen|]. split.
    { intros k Hkn. destruct (Hlv k Hkn) as [Hst Hm]. split; [exact Hst|].
      rewrite Hm. unfold i_level_spec, i_cfields; cbn [fst snd map].
      rewrite (deref_preserved _ _ _ _ P12 Hs), (deref_preserved _ _ _ _ P12 Ht).
      rewrite (deref_preserved _ _ _ _ (preserved_weaken _ _ _ P2) Hh1).
      rewrite Hd1, Hd2, E0. reflexivity. }
    split.
    { rewrite Htr, Ht2, Ht1. unfold i_trace. rewrite !app_assoc. reflexivity. }
    split; [rewrite Hk, E0; reflexivity|]. split; [exact Hvi|].
    eapply preserved_trans; [exact P12|exact Hp].
Qed.

Theorem PyramidHybrid_spec source target li dd iterations s0 :
  let n := length iterations in
  stable (TensorAt li) s0 (depth_ source) ->
  stable (TensorAt li) s0 (depth_ target) ->
  valid s0 (color_ source) -> valid s0 (color_ target) ->
  valid s0 (TensorAt li) ->
  (forall j, j < n - 1 ->
     i_dn_ok (Nat.iter j (i_dn K dd)
                [deref s0 (depth_ source); deref s0 (depth_ target);
                 (gray_val K) (deref s0 (color_ source));
                 (gray_val K) (deref s0 (color_ target))])) ->
  exists levels s',
    PyramidHybrid K source target (TensorAt li) dd iterations s0
    = (inr levels, s')
    /\ length levels = n
    /\ (forall k, k < n ->
          Forall (stable (TensorAt li) s')
            (h_lfields (nth k levels LevelHybrid_default))
          /\ map (deref s') (h_lfields (nth k levels LevelHybrid_default))
             = (h_level_spec K) dd (deref s0 (depth_ source))
                 (deref s0 (depth_ target)) (deref s0 (color_ source))
                 (deref s0 (color_ target)) (deref s0 (TensorAt li))
                 (n - 1 - k))
    /\ trace s' = trace s0 ++ (h_trace K) n (deref s0 (color_ source))
                                (deref s0 (color_ target))
    /\ deref s' (TensorAt li)
       = Nat.iter (n - 1) halve_reset (deref s0 (TensorAt li))
    /\ valid s' (TensorAt li)
    /\ preserved (TensorAt li) s0 s'.
Proof.
  intros n Hs Ht Hcs Hct Hv Hok.
  destruct (gray_spec li (color_ source) s0 Hv Hcs)
    as (g1 & h1 & s1 & Hr1 & Hr1' & P1 & Hh1 & Hd1 & Ht1).
  assert (Hv1 : valid s1 (TensorAt li)) by (eapply valid_preserved; eauto).
  assert (Hct1 : valid s1 (color_ target)) by (eapply valid_preserved; eauto).
  destruct (gray_spec li (color_ target) s1 Hv1 Hct1)
    as (g2 & h2 & s2 & Hr2 & Hr2' & P2 & Hh2 & Hd2 & Ht2).
  assert (P12 : preserved (TensorAt li) s0 s2).
  { eapply preserved_trans; apply preserved_weaken; eauto. }
  assert (Hct' : deref s1 (color_ target) = deref s0 (color_ target)).
  { apply deref_ext; assumption. }
  rewrite Hct' in *.
  assert (Hv2 : valid s2 (TensorAt li)) by (eapply valid_preserved; eauto).
  destruct (pyramid_loop_spec i_cfields h_lfields li
              (h_make K (TensorAt li)) (i_down K dd)
              (h_mk K) (i_dn K dd) i_dn_ok
              h_events_mk i_events_dn n LevelHybrid_default
              (h_make_spec K li) (i_down_spec K li dd)
              s2 (depth_ source, depth_ target, h1, h2))
    as (c & levels & s' & Hrun & Hlen & Hlv & Htr & Hk & Hvi & Hp).
  - unfold i_cfields; cbn [fst snd].
    repeat first [apply Forall_nil_2 | apply Forall_cons_2].
    + eapply stable_preserved; [exact P12|exact Hs].
    + eapply stable_preserved; [exact P12|exact Ht].
    + eapply stable_preserved; [apply preserved_weaken, P2|exact Hh1].
    + exact Hh2.
  - exact Hv2.
  - unfold i_cfields; cbn [fst snd map].
    rewrite (deref_preserved _ _ _ _ P12 Hs), (deref_preserved _ _ _ _ P12 Ht).
    rewrite (deref_preserved _ _ _ _ (preserved_weaken _ _ _ P2) Hh1).
    rewrite Hd1, Hd2. exact Hok.
  - exists levels, s'.
    assert (E0 : deref s2 (TensorAt li) = deref s0 (TensorAt li)).
    { eapply deref_preserved; [apply preserved_trans with s1; eauto|].
      split; [exact Hv|discriminate]. }
    split.
    { unfold PyramidHybrid. fold n.
      rewrite (bind_run _ _ _ _ _ Hr1), (bind_run _ _ _ _ _ Hr1').
      rewrite (bind_run _ _ _ _ _ Hr2), (bind_run _ _ _ _ _ Hr2').
      rewrite (bind_run _ _ _ (c, levels) s'); [reflexivity|].
      unfold for_range in *.
      erewrite for_loop_ext; [exact Hrun|].
      intros i st s. apply h_body_step. }
    split; [exact Hlen|]. split.
    { intros k Hkn. destruct (Hlv k Hkn) as [Hst Hm]. split; [exact Hst|].
      rewrite Hm. unfold h_level_spec, i_cfields; cbn [fst snd map].
      rewrite (deref_preserved _ _ _ _ P12 Hs), (deref_preserved _ _ _ _ P12 Ht).
      rewrite (deref_preserved _ _ _ _ (preserved_weaken _ _ _ P2) Hh1).
      rewrite Hd1, Hd2, E0. reflexivity. }
    split.
    { rewrite Htr, Ht2, Ht1. unfold h_trace. rewrite !app_assoc. reflexivity. }
    split; [rewrite Hk, E0; reflexivity|]. split; [exact Hvi|].
    eapply preserved_trans; [exact P12|exact Hp].
Qed.

End IntensityHybridPyramids.

Lemma emit_run e s : emit e s = (inr tt, note s [e]).
Proof. reflexivity. Qed.

Lemma deref_note s e h : deref (note s e) h = deref s h.
Proof. reflexivity. Qed.

Lemma store_note s e : store (note s e) = store s.
Proof. reflexivity. Qed.

Lemma trace_note s e : trace (note s e) = trace s ++ e.
Proof. reflexivity. Qed.

Lemma preserved_note x s e : preserved x s (note s e).
Proof. split; [reflexivity|]. intros; reflexivity. Qed.

Lemma valid_note s e h : valid s h -> valid (note s e) h.
Proof. destruct h; auto. Qed.

Lemma Matmul_run a b s :
  Matmul a b s
  = (inr (TensorAt (length (store s))),
     push s (matmul_val (deref s a) (deref s b)) []).
Proof. unfold Matmul, bind, load. apply alloc_run. Qed.

Section Step.

Context (K : Kernels).

Context (POSE : Tensor -> M Tensor) (wv : State -> TVal -> TVal).

Hypothesis POSE_spec : forall t s,
  exists l s',
    POSE t s = (inr (TensorAt l), s')
    /\ length (store s) <= l < length (store s')
    /\ preserved TensorEmpty s s'
    /\ deref s' (TensorAt l) = k_PoseToTransformation K (wv s (deref s t))
    /\ trace s' = trace s.

Lemma step_spec ev t s :
  exists l s' tv,
    (emit ev ;> do delta <- POSE t; Matmul delta t) s = (inr (TensorAt l), s')
    /\ length (store s) <= l < length (store s')
    /\ preserved TensorEmpty s s'
    /\ trace s' = trace s ++ [ev]
    /\ deref s' (TensorAt l)
       = matmul_val (k_PoseToTransformation K (wv (note s [ev]) (deref s t))) tv
    /\ (valid s t -> tv = deref s t).
Proof.
  rewrite (bind_run _ _ _ _ _ (emit_run ev s)).
  destruct (POSE_spec t (note s [ev])) as (l & s1 & Hrun & Hl & P & Hd & Ht).
  rewrite (bind_run _ _ _ _ _ Hrun), Matmul_run.
  rewrite store_note in Hl.
  exists (length (store s1)), (push s1 (matmul_val (deref s1 (TensorAt l)) (deref s1 t)) []),
    (deref s1 t).
  split; [reflexivity|]. split; [rewrite length_push; lia|].
  split.
  { eapply preserved_trans; [apply preserved_note|].
    eapply preserved_trans; [exact P|apply preserved_push]. }
  split; [rewrite trace_push, Ht, trace_note, app_nil_r; reflexivity|].
  split.
  - rewrite deref_push_new, Hd, deref_note. reflexivity.
  - intros Hv. rewrite (deref_ext _ _ _ P (valid_note _ _ _ Hv)).
    apply deref_note.
Qed.

End Step.

Section Loop.

Context (K : Kernels) (m : Method) (iterations : list Z).

Context (step : nat -> nat -> Tensor -> M Tensor).

Context (wv : nat -> State -> TVal -> TVal).

Hypothesis step_ok : forall i iter t s,
  exists l s' tv,
    step i iter t s = (inr (TensorAt l), s')
    /\ length (store s) <= l < length (store s')
    /\ preserved TensorEmpty s s'
    /\ trace s' = trace s ++ [EvComputePose m i iter]
    /\ deref s' (TensorAt l)
       = matmul_val (k_PoseToTransformation K
                       (wv i (note s [EvComputePose m i iter]) (deref s t))) tv
    /\ (valid s t -> tv = deref s t).

Lemma schedule_S i :
  schedule m iterations (S i)
  = schedule m iterations i
    ++ map (EvComputePose m i) (seq 0 (level_count iterations i)).
Proof. unfold schedule. rewrite seq_S, flat_map_app. simpl. rewrite app_nil_r. reflexivity. Qed.

Lemma odometry_val_S pose i t0 :
  odometry_val pose iterations (S i) t0
  = Nat.iter (level_count iterations i) (update_val (pose i))
      (odometry_val pose iterations i t0).
Proof. unfold odometry_val. rewrite seq_S, fold_left_app. reflexivity. Qed.

(** Values and log of the loop, when the levels it reads stay put. *)
Theorem odometry_loop_spec (pose : nat -> TVal -> TVal) s1 t0 :
  valid s1 t0 ->
  (forall i s tv, i < length iterations -> preserved TensorEmpty s1 s ->
     k_PoseToTransformation K (wv i s tv) = pose i tv) ->
  exists t s',
    (odometry_loop iterations step) t0 s1 = (inr t, s')
    /\ valid s' t
    /\ preserved TensorEmpty s1 s'
    /\ deref s' t = odometry_val pose iterations (length iterations) (deref s1 t0)
    /\ trace s' = trace s1 ++ schedule m iterations (length iterations).
Proof.
  intros Hv Hpose.
  pose (Inv := fun (i : nat) (t : Tensor) (s : State) =>
    valid s t /\ preserved TensorEmpty s1 s
    /\ deref s t = odometry_val pose iterations i (deref s1 t0)
    /\ trace s = trace s1 ++ schedule m iterations i).
  destruct (for_loop_rule Inv
              (fun i trans => for_range (level_count iterations i) (step i) trans)
              (length iterations) 0 t0 s1) as (t & s' & Hrun & Hinv).
  - intros i t s Hi (Hvt & Hp & Hd & Ht).
    pose (Inv2 := fun (iter : nat) (t' : Tensor) (s' : State) =>
      valid s' t' /\ preserved TensorEmpty s1 s'
      /\ deref s' t' = Nat.iter iter (update_val (pose i)) (deref s t)
      /\ trace s' = trace s ++ map (EvComputePose m i) (seq 0 iter)).
    destruct (for_loop_rule Inv2 (step i) (level_count iterations i) 0 t s)
      as (t' & s' & Hrun' & Hinv').
    + intros iter t' s' _ (Hvt' & Hp' & Hd' & Ht').
      destruct (step_ok i iter t' s') as (l & s2 & tv & Hr & Hl & P & Htr & Hdv & Htv).
      exists (TensorAt l), s2. split; [exact Hr|].
      split; [simpl; lia|].
      split; [eapply preserved_trans; eauto|].
      split.
      * rewrite Hdv, (Htv Hvt'), Hpose; [|lia|].
        -- simpl. rewrite Hd'. reflexivity.
        -- eapply preserved_trans; [exact Hp'|apply preserved_note].
      * rewrite Htr, Ht', seq_S, map_app, <- app_assoc. reflexivity.
    + unfold Inv2. simpl. rewrite app_nil_r. auto.
    + exists t', s'. split; [exact Hrun'|].
      destruct Hinv' as (Hvt' & Hp' & Hd' & Ht'). simpl in *.
      unfold Inv. split; [exact Hvt'|]. split; [exact Hp'|].
      split.
      * rewrite odometry_val_S, Hd', Hd. reflexivity.
      * rewrite schedule_S, Ht', Ht, <- app_assoc. reflexivity.
  - unfold Inv. split; [exact Hv|]. split; [apply preserved_refl|].
    split; [reflexivity|]. unfold schedule. simpl. rewrite app_nil_r. reflexivity.
  - exists t, s'. simpl in Hinv. destruct Hinv as (A & B & C & D).
    split; [exact Hrun|]. auto.
Qed.

Theorem odometry_loop_total base t0 s1 :
  base <= length (store s1) ->
  exists t s',
    (odometry_loop iterations step) t0 s1 = (inr t, s')
    /\ preserved TensorEmpty s1 s'
    /\ trace s' = trace s1 ++ schedule m iterations (length iterations)
    /\ (t = t0 \/ (produced K) base s' t).
Proof.
  intros Hb.
  pose (Inv := fun (i : nat) (t : Tensor) (s : State) =>
    preserved TensorEmpty s1 s
    /\ trace s = trace s1 ++ schedule m iterations i
    /\ (t = t0 \/ (produced K) base s t)).
  destruct (for_loop_rule Inv
              (fun i trans => for_range (level_count iterations i) (step i) trans)
              (length iterations) 0 t0 s1) as (t & s' & Hrun & Hinv).
  - intros i t s _ (Hp & Ht & Hn).
    pose (Inv2 := fun (iter : nat) (t' : Tensor) (s' : State) =>
      preserved TensorEmpty s1 s'
      /\ trace s' = trace s ++ map (EvComputePose m i) (seq 0 iter)
      /\ (t' = t0 \/ (produced K) base s' t')).
    destruct (for_loop_rule Inv2 (step i) (level_count iterations i) 0 t s)
      as (t' & s' & Hrun' & Hinv').
    + intros j t' s' _ (Hp' & Ht' & _).
      destruct (step_ok i j t' s')
        as (l & s2 & tv & Hr & Hl & P & Htr & Hdv & Htv).
      exists (TensorAt l), s2. split; [exact Hr|].
      split; [eapply preserved_trans; eauto|].
      split; [rewrite Htr, Ht', seq_S, map_app, <- app_assoc; reflexivity|].
      right. exists l. eexists. eexists. split; [reflexivity|].
      destruct Hp' as [Hlen _]. split; [lia|exact Hdv].
    + unfold Inv2. simpl. rewrite app_nil_r. auto.
    + exists t', s'. split; [exact Hrun'|].
      destruct Hinv' as (Hp' & Ht' & Hn'). simpl in Ht'.
      split; [exact Hp'|].
      split; [rewrite schedule_S, Ht', Ht, <- app_assoc; reflexivity|exact Hn'].
  - split; [apply preserved_refl|].
    split; [unfold schedule; simpl; rewrite app_nil_r; reflexivity|].
    left; reflexivity.
  - exists t, s'. destruct Hinv as (A & B & C). simpl in B. auto.
Qed.

End Loop.

Lemma bind_ret_r {A} (m : M A) s : bind m ret s = m s.
Proof. unfold bind, ret. destruct (m s) as [[e|a] s']; reflexivity. Qed.

Lemma len_push2 s v1 e1 v2 e2 :
  length (store (push (push s v1 e1) v2 e2)) = S (S (length (store s))).
Proof. rewrite !length_push. reflexivity. Qed.

Section PoseKernels.

Context (K : Kernels).

Lemma PoseToTransformation_run p s :
  PoseToTransformation K p s
  = (inr (TensorAt (length (store s))),
     push s (k_PoseToTransformation K (deref s p)) []).
Proof. unfold PoseToTransformation, bind, load. apply alloc_run. Qed.

Lemma pose_tail_spec (out : TVal * TVal) s :
  exists l s',
    (do se3_delta <- alloc (fst out);
     do residual <- alloc (snd out);
     PoseToTransformation K se3_delta) s = (inr (TensorAt l), s')
    /\ length (store s) <= l < length (store s')
    /\ preserved TensorEmpty s s'
    /\ deref s' (TensorAt l) = k_PoseToTransformation K (fst out)
    /\ trace s' = trace s.
Proof.
  rewrite (bind_run _ _ _ _ _ (alloc_run _ _)).
  rewrite (bind_run _ _ _ _ _ (alloc_run _ _)).
  rewrite PoseToTransformation_run.
  eexists. eexists. split; [reflexivity|].
  split; [rewrite !length_push; lia|].
  split; [ext_tac|].
  split; [deref_tac; reflexivity|].
  rewrite !trace_push, !app_nil_r. reflexivity.
Qed.

Lemma ComputePosePointToPlane_spec dd lv t s :
  exists l s',
    ComputePosePointToPlane K (p_source_vertex_map lv) (p_target_vertex_map lv)
      (p_target_normal_map lv) (p_intrinsic_matrix lv) t dd s
    = (inr (TensorAt l), s')
    /\ length (store s) <= l < length (store s')
    /\ preserved TensorEmpty s s'
    /\ deref s' (TensorAt l)
       = k_PoseToTransformation K ((p2p_wv K) dd lv s (deref s t))
    /\ trace s' = trace s.
Proof. apply pose_tail_spec. Qed.

Lemma ComputePoseIntensity_spec dd lv t s :
  exists l s',
    ComputePoseIntensity K (i_source_depth lv) (i_target_depth lv)
      (i_source_intensity lv) (i_target_intensity lv)
      (i_target_intensity_dx lv) (i_target_intensity_dy lv)
      (i_source_vertex_map lv) (i_intrinsic_matrix lv) t dd s
    = (inr (TensorAt l), s')
    /\ length (store s) <= l < length (store s')
    /\ preserved TensorEmpty s s'
    /\ deref s' (TensorAt l)
       = k_PoseToTransformation K ((i_wv K) dd lv s (deref s t))
    /\ trace s' = trace s.
Proof. apply pose_tail_spec. Qed.

Lemma ComputePoseHybrid_spec dd lv t s :
  exists l s',
    ComputePoseHybrid K (h_source_depth lv) (h_target_depth lv)
      (h_source_intensity lv) (h_target_intensity lv)
      (h_target_depth_dx lv) (h_target_depth_dy lv)
      (h_target_intensity_dx lv) (h_target_intensity_dy lv)
      (h_source_vertex_map lv) (h_intrinsic_matrix lv) t dd s
    = (inr (TensorAt l), s')
    /\ length (store s) <= l < length (store s')
    /\ preserved TensorEmpty s s'
    /\ deref s' (TensorAt l)
       = k_PoseToTransformation K ((h_wv K) dd lv s (deref s t))
    /\ trace s' = trace s.
Proof. apply pose_tail_spec. Qed.

Lemma OdometryPointToPlane_loop levels trans dd iterations :
  OdometryPointToPlane K levels trans dd iterations
  = odometry_loop iterations ((p2p_step K) levels dd) trans.
Proof. reflexivity. Qed.

Lemma OdometryIntensity_loop levels trans dd iterations :
  OdometryIntensity K levels trans dd iterations
  = odometry_loop iterations ((i_step K) levels dd) trans.
Proof. reflexivity. Qed.

Lemma OdometryHybrid_loop levels trans dd iterations :
  OdometryHybrid K levels trans dd iterations
  = odometry_loop iterations ((h_step K) levels dd) trans.
Proof. reflexivity. Qed.

Lemma p2p_step_ok levels dd i iter t s :
  exists l s' tv,
    (p2p_step K) levels dd i iter t s = (inr (TensorAt l), s')
    /\ length (store s) <= l < length (store s')
    /\ preserved TensorEmpty s s'
    /\ trace s' = trace s ++ [EvComputePose PointToPlane i iter]
    /\ deref s' (TensorAt l)
       = matmul_val (k_PoseToTransformation K
           ((p2p_wv K) dd (nth i levels LevelP2P_default)
              (note s [EvComputePose PointToPlane i iter]) (deref s t))) tv
    /\ (valid s t -> tv = deref s t).
Proof.
  destruct (step_spec K _ _ (ComputePosePointToPlane_spec dd
              (nth i levels LevelP2P_default))
              (EvComputePose PointToPlane i iter) t s)
    as (l & s' & tv & Hrun & H).
  exists l, s', tv. split; [|exact H].
  rewrite <- Hrun. unfold p2p_step, Contiguous. cbv zeta.
  apply bind_congr; intros _ s1. apply bind_congr; intros d s2.
  apply bind_ret_r.
Qed.

Lemma i_step_ok levels dd i iter t s :
  exists l s' tv,
    (i_step K) levels dd i iter t s = (inr (TensorAt l), s')
    /\ length (store s) <= l < length (store s')
    /\ preserved TensorEmpty s s'
    /\ trace s' = trace s ++ [EvComputePose Intensity i iter]
    /\ deref s' (TensorAt l)
       = matmul_val (k_PoseToTransformation K
           ((i_wv K) dd (nth i levels LevelIntensity_default)
              (note s [EvComputePose Intensity i iter]) (deref s t))) tv
    /\ (valid s t -> tv = deref s t).
Proof.
  exact (step_spec K _ _ (ComputePoseIntensity_spec dd
           (nth i levels LevelIntensity_default))
           (EvComputePose Intensity i iter) t s).
Qed.

Lemma h_step_ok levels dd i iter t s :
  exists l s' tv,
    (h_step K) levels dd i iter t s = (inr (TensorAt l), s')
    /\ length (store s) <= l < length (store s')
    /\ preserved TensorEmpty s s'
    /\ trace s' = trace s ++ [EvComputePose Hybrid i iter]
    /\ deref s' (TensorAt l)
       = matmul_val (k_PoseToTransformation K
           ((h_wv K) dd (nth i levels LevelHybrid_default)
              (note s [EvComputePose Hybrid i iter]) (deref s t))) tv
    /\ (valid s t -> tv = deref s t).
Proof.
  exact (step_spec K _ _ (ComputePoseHybrid_spec dd
           (nth i levels LevelHybrid_default))
           (EvComputePose Hybrid i iter) t s).
Qed.

End PoseKernels.

Section Drivers.

Context (K : Kernels).

Lemma map_deref_ext x s1 s hs :
  preserved TensorEmpty s1 s -> Forall (stable x s1) hs ->
  map (deref s) hs = map (deref s1) hs.
Proof.
  intros P H. eapply map_deref_preserved; [apply preserved_weaken, P|exact H].
Qed.

Theorem PointToPlane_driver_spec source target li trans ds dm dd iterations s0 :
  let n := length iterations in
  let sd := deref s0 (depth_ source) in
  let td := deref s0 (depth_ target) in
  let K0 := deref s0 (TensorAt li) in
  stable (TensorAt li) s0 (depth_ source) ->
  stable (TensorAt li) s0 (depth_ target) ->
  stable (TensorAt li) s0 trans ->
  valid s0 (TensorAt li) ->
  (forall j, j < n - 1 -> Forall pdd_ok (Nat.iter j (p2p_dn K dd) [sd; td])) ->
  exists t s',
    RGBDOdometryMultiScalePointToPlane K source target (TensorAt li) trans
      ds dm dd iterations s0 = (inr t, s')
    /\ valid s' t
    /\ deref s' t
       = odometry_val
           (fun i => (p2p_pose K) dd (p2p_level_spec K dd sd td K0 (n - 1 - i)))
           iterations n (deref s0 trans)
    /\ trace s' = trace s0
                  ++ pyramid_events p2p_events_mk p2p_events_dn n n
                  ++ schedule PointToPlane iterations n
    /\ preserved (TensorAt li) s0 s'.
Proof.
  intros n sd td K0 Hs Ht Htr Hv Hok. subst n sd td K0.
  destruct (PyramidPointToPlane_spec K source target li dd iterations s0
              Hs Ht Hv Hok)
    as (levels & s1 & Hrun & Hlen & Hlv & Htr1 & Hk & Hvi & Hp).
  destruct (odometry_loop_spec K PointToPlane iterations (p2p_step K levels dd)
              (fun i => p2p_wv K dd (nth i levels LevelP2P_default))
              (p2p_step_ok K levels dd)
              (fun i => (p2p_pose K) dd (p2p_level_spec K dd (deref s0 (depth_ source))
                 (deref s0 (depth_ target)) (deref s0 (TensorAt li))
                 (length iterations - 1 - i)))
              s1 trans)
    as (t & s' & Hrun2 & Hvt & Hp2 & Hd & Htr2).
  - eapply valid_preserved; [exact Hp|exact (proj1 Htr)].
  - intros i s tv Hi P. destruct (Hlv i Hi) as [Hst Hm].
    rewrite <- Hm.
    rewrite <- (map_deref_ext _ _ _ _ P Hst). reflexivity.
  - exists t, s'. split.
    { unfold RGBDOdometryMultiScalePointToPlane.
      rewrite (bind_run _ _ _ _ _ Hrun), OdometryPointToPlane_loop.
      exact Hrun2. }
    split; [exact Hvt|]. split.
    { rewrite Hd. f_equal.
      eapply deref_preserved; [exact Hp|exact Htr]. }
    split; [rewrite Htr2, Htr1, <- app_assoc; reflexivity|].
    eapply preserved_trans; [exact Hp|apply preserved_weaken, Hp2].
Qed.

Theorem Intensity_driver_spec source target li trans ds dm dd iterations s0 :
  let n := length iterations in
  let sd := deref s0 (depth_ source) in
  let td := deref s0 (depth_ target) in
  let cs := deref s0 (color_ source) in
  let ct := deref s0 (color_ target) in
  let K0 := deref s0 (TensorAt li) in
  stable (TensorAt li) s0 (depth_ source) ->
  stable (TensorAt li) s0 (depth_ target) ->
  valid s0 (color_ source) -> valid s0 (color_ target) ->
  stable (TensorAt li) s0 trans ->
  valid s0 (TensorAt li) ->
  (forall j, j < n - 1 ->
     i_dn_ok (Nat.iter j (i_dn K dd) [sd; td; gray_val K cs; gray_val K ct])) ->
  exists t s',
    RGBDOdometryMultiScaleIntensity K source target (TensorAt li) trans
      ds dm dd iterations s0 = (inr t, s')
    /\ valid s' t
    /\ deref s' t
       = odometry_val
           (fun i => (i_pose K) dd (i_level_spec K dd sd td cs ct K0 (n - 1 - i)))
           iterations n (deref s0 trans)
    /\ trace s' = trace s0 ++ i_trace K n cs ct ++ schedule Intensity iterations n
    /\ preserved (TensorAt li) s0 s'.
Proof.
  intros n sd td cs ct K0 Hs Ht Hcs Hct Htr Hv Hok. subst n sd td cs ct K0.
  destruct (PyramidIntensity_spec K source target li dd iterations s0
              Hs Ht Hcs Hct Hv Hok)
    as (levels & s1 & Hrun & Hlen & Hlv & Htr1 & Hk & Hvi & Hp).
  destruct (odometry_loop_spec K Intensity iterations (i_step K levels dd)
              (fun i => i_wv K dd (nth i levels LevelIntensity_default))
              (i_step_ok K levels dd)
              (fun i => (i_pose K) dd (i_level_spec K dd (deref s0 (depth_ source))
                 (deref s0 (depth_ target)) (deref s0 (color_ source))
                 (deref s0 (color_ target)) (deref s0 (TensorAt li))
                 (length iterations - 1 - i)))
              s1 trans)
    as (t & s' & Hrun2 & Hvt & Hp2 & Hd & Htr2).
  - eapply valid_preserved; [exact Hp|exact (proj1 Htr)].
  - intros i s tv Hi P. destruct (Hlv i Hi) as [Hst Hm].
    rewrite <- Hm.
    rewrite <- (map_deref_ext _ _ _ _ P Hst). reflexivity.
  - exists t, s'. split.
    { unfold RGBDOdometryMultiScaleIntensity.
      rewrite (bind_run _ _ _ _ _ Hrun), OdometryIntensity_loop.
      exact Hrun2. }
    split; [exact Hvt|]. split.
    { rewrite Hd. f_equal.
      eapply deref_preserved; [exact Hp|exact Htr]. }
    split; [rewrite Htr2, Htr1, <- app_assoc; reflexivity|].
    eapply preserved_trans; [exact Hp|apply preserved_weaken, Hp2].
Qed.

Theorem Hybrid_driver_spec source target li trans ds dm dd iterations s0 :
  let n := length iterations in
  let sd := deref s0 (depth_ source) in
  let td := deref s0 (depth_ target) in
  let cs := deref s0 (color_ source) in
  let ct := deref s0 (color_ target) in
  let K0 := deref s0 (TensorAt li) in
  stable (TensorAt li) s0 (depth_ source) ->
  stable (TensorAt li) s0 (depth_ target) ->
  valid s0 (color_ source) -> valid s0 (color_ target) ->
  stable (TensorAt li) s0 trans ->
  valid s0 (TensorAt li) ->
  (forall j, j < n - 1 ->
     i_dn_ok (Nat.iter j (i_dn K dd) [sd; td; gray_val K cs; gray_val K ct])) ->
  exists t s',
    RGBDOdometryMultiScaleHybrid K source target (TensorAt li) trans
      ds dm dd iterations s0 = (inr t, s')
    /\ valid s' t
    /\ deref s' t
       = odometry_val
           (fun i => (h_pose K) dd (h_level_spec K dd sd td cs ct K0 (n - 1 - i)))
           iterations n (deref s0 trans)
    /\ trace s' = trace s0 ++ h_trace K n cs ct ++ schedule Hybrid iterations n
    /\ preserved (TensorAt li) s0 s'.
Proof.
  intros n sd td cs ct K0 Hs Ht Hcs Hct Htr Hv Hok. subst n sd td cs ct K0.
  destruct (PyramidHybrid_spec K source target li dd iterations s0
              Hs Ht Hcs Hct Hv Hok)
    as (levels & s1 & Hrun & Hlen & Hlv & Htr1 & Hk & Hvi & Hp).
  destruct (odometry_loop_spec K Hybrid iterations (h_step K levels dd)
              (fun i => h_wv K dd (nth i levels LevelHybrid_default))
              (h_step_ok K levels dd)
              (fun i => (h_pose K) dd (h_level_spec K dd (deref s0 (depth_ source))
                 (deref s0 (depth_ target)) (deref s0 (color_ source))
                 (deref s0 (color_ target)) (deref s0 (TensorAt li))
                 (length iterations - 1 - i)))
              s1 trans)
    as (t & s' & Hrun2 & Hvt & Hp2 & Hd & Htr2).
  - eapply valid_preserved; [exact Hp|exact (proj1 Htr)].
  - intros i s tv Hi P. destruct (Hlv i Hi) as [Hst Hm].
    rewrite <- Hm.
    rewrite <- (map_deref_ext _ _ _ _ P Hst). reflexivity.
  - exists t, s'. split.
    { unfold RGBDOdometryMultiScaleHybrid.
      rewrite (bind_run _ _ _ _ _ Hrun), OdometryHybrid_loop.
      exact Hrun2. }
    split; [exact Hvt|]. split.
    { rewrite Hd. f_equal.
      eapply deref_preserved; [exact Hp|exact Htr]. }
    split; [rewrite Htr2, Htr1, <- app_assoc; reflexivity|].
    eapply preserved_trans; [exact Hp|apply preserved_weaken, Hp2].
Qed.

End Drivers.

Lemma To_Clone_spec t s :
  exists h s1 l s',
    To t host Float64 s = (inr h, s1)
    /\ Clone h s1 = (inr (TensorAt l), s')
    /\ length (store s) <= l
    /\ length (store s') = S l
    /\ preserved TensorEmpty s s'
    /\ deref s' (TensorAt l) = to_host_f64 (deref s t)
    /\ trace s' = trace s.
Proof.
  unfold To, bind, load.
  destruct (decide (tv_device (deref s t) = host
                    /\ tv_dtype (deref s t) = Float64)) as [[E1 E2]|E].
  - exists t, s. eexists. eexists. split; [reflexivity|].
    split; [apply Clone_run|]. split; [lia|].
    split; [apply length_push|]. split; [apply preserved_push|].
    split; [|rewrite trace_push; apply app_nil_r].
    rewrite deref_push_new. unfold to_host_f64. rewrite <- E1, <- E2.
    destruct (deref s t); reflexivity.
  - eexists. eexists. eexists. eexists. split; [apply alloc_run|].
    split; [apply Clone_run|]. split; [rewrite length_push; lia|].
    split; [apply length_push|]. split; [ext_tac|].
    split; [deref_tac; reflexivity|].
    rewrite !trace_push, !app_nil_r. reflexivity.
Qed.

Lemma ClipTransform_run img a b c d s :
  depth_precondition (deref s img) = true ->
  ClipTransform img a b c d s
  = (inr (TensorAt (length (store s))),
     push s (clip_val a b c d (deref s img)) [EvClipTransform]).
Proof.
  intros H. unfold ClipTransform, bind, load, when. rewrite H. reflexivity.
Qed.

Lemma ClipTransform_fail img a b c d s :
  depth_precondition (deref s img) = false ->
  ClipTransform img a b c d s = (inl ErrDepthPrecondition, s).
Proof.
  intros H. unfold ClipTransform, bind, load, when. rewrite H. reflexivity.
Qed.

Lemma depth_precondition_true v :
  depth_precondition v = true <-> GetChannels v = 1%Z /\ tv_dtype v = Float32.
Proof.
  unfold depth_precondition. rewrite andb_true_iff, Z.eqb_eq, bool_decide_eq_true.
  reflexivity.
Qed.

Section Sizes.

Context (K : Kernels).

Lemma pyr_down_iter_fits thr fill j : forall v m,
  GetChannels v = 1%Z -> tv_dtype v = Float32 ->
  (2 ^ Z.of_nat (j + m) <= GetRows v)%Z ->
  (2 ^ Z.of_nat (j + m) <= GetCols v)%Z ->
  let w := Nat.iter j (fun v => pyr_down_val K v thr fill) v in
  GetChannels w = 1%Z /\ tv_dtype w = Float32
  /\ (2 ^ Z.of_nat m <= GetRows w)%Z /\ (2 ^ Z.of_nat m <= GetCols w)%Z.
Proof.
  induction j as [|j IH]; intros v m Hc Hd Hr Hl; simpl.
  - auto.
  - destruct (IH v (S m) Hc Hd) as (Hc' & Hd' & Hr' & Hl').
    + replace (j + S m) with (S j + m) by lia. exact Hr.
    + replace (j + S m) with (S j + m) by lia. exact Hl.
    + set (w := Nat.iter j _ v) in *.
      change (GetChannels (pyr_down_val K w thr fill)) with 1%Z.
      change (tv_dtype (pyr_down_val K w thr fill)) with (tv_dtype w).
      change (GetRows (pyr_down_val K w thr fill)) with (GetRows w ÷ 2)%Z.
      change (GetCols (pyr_down_val K w thr fill)) with (GetCols w ÷ 2)%Z.
      rewrite Nat2Z.inj_succ, Z.pow_succ_r in Hr', Hl' by lia.
      assert (0 < 2 ^ Z.of_nat m)%Z by (apply Z.pow_pos_nonneg; lia).
      split; [reflexivity|]. split; [exact Hd'|].
      rewrite !Z.quot_div_nonneg by lia.
      split; apply Z.div_le_lower_bound; lia.
Qed.

Lemma pyr_down_iter_ok thr fill n v j :
  depth_fits n v -> j < n - 1 ->
  pdd_ok (Nat.iter j (fun v => pyr_down_val K v thr fill) v).
Proof.
  intros (Hc & Hd & Hr & Hl) Hj.
  destruct (pyr_down_iter_fits thr fill j v (n - 2 - j) Hc Hd)
    as (Hc' & Hd' & Hr' & Hl').
  - replace (j + (n - 2 - j)) with (n - 2) by lia. exact Hr.
  - replace (j + (n - 2 - j)) with (n - 2) by lia. exact Hl.
  - assert (0 < 2 ^ Z.of_nat (n - 2 - j))%Z by (apply Z.pow_pos_nonneg; lia).
    repeat split; auto; lia.
Qed.

Lemma p2p_dn_iter dd j sd td :
  Nat.iter j (p2p_dn K dd) [sd; td]
  = [Nat.iter j (fun v => pyr_down_val K v (smul dd (sZ 2)) NaN) sd;
     Nat.iter j (fun v => pyr_down_val K v (smul dd (sZ 2)) NaN) td].
Proof.
  induction j as [|j IH]; simpl; [reflexivity|]. rewrite IH. reflexivity.
Qed.

Lemma i_dn_iter dd j sd td si ti :
  Nat.iter j (i_dn K dd) [sd; td; si; ti]
  = [Nat.iter j (fun v => pyr_down_val K v (smul dd (sZ 2)) NaN) sd;
     Nat.iter j (fun v => pyr_down_val K v (smul dd (sZ 2)) NaN) td;
     Nat.iter j (k_PyrDown K) si; Nat.iter j (k_PyrDown K) ti].
Proof.
  induction j as [|j IH]; simpl; [reflexivity|]. rewrite IH. reflexivity.
Qed.

Lemma p2p_fits_ok dd n sd td j :
  depth_fits n sd -> depth_fits n td -> j < n - 1 ->
  Forall pdd_ok (Nat.iter j (p2p_dn K dd) [sd; td]).
Proof.
  intros Hs Ht Hj. rewrite p2p_dn_iter.
  repeat first [apply Forall_nil_2 | apply Forall_cons_2];
    eapply pyr_down_iter_ok; eauto.
Qed.

Lemma i_fits_ok dd n sd td si ti j :
  depth_fits n sd -> depth_fits n td -> j < n - 1 ->
  i_dn_ok (Nat.iter j (i_dn K dd) [sd; td; si; ti]).
Proof.
  intros Hs Ht Hj. rewrite i_dn_iter. unfold i_dn_ok. cbn [take].
  repeat first [apply Forall_nil_2 | apply Forall_cons_2];
    eapply pyr_down_iter_ok; eauto.
Qed.

End Sizes.

Section Entry.

Context (K : Kernels).

Lemma entry_prefix source target intrinsics init ds dm dd iterations method s0 :
  tv_device (deref s0 (depth_ target)) = tv_device (deref s0 (depth_ source)) ->
  depth_precondition (deref s0 (depth_ source)) = true ->
  depth_precondition (deref s0 (depth_ target)) = true ->
  valid s0 (depth_ source) -> valid s0 (depth_ target) -> valid s0 init ->
  exists li lt ls lg s1,
    RGBDOdometryMultiScale K source target intrinsics init ds dm dd iterations
      method s0
    = (dispatch K) method (mkRGBD (color_ source) (TensorAt ls))
        (mkRGBD (color_ target) (TensorAt lg)) (TensorAt li) (TensorAt lt)
        ds dm dd iterations s1
    /\ (length (store s0) <= li /\ li < lt /\ lt < ls /\ ls < lg
        /\ lg < length (store s1))
    /\ preserved TensorEmpty s0 s1
    /\ deref s1 (TensorAt li) = to_host_f64 (deref s0 intrinsics)
    /\ deref s1 (TensorAt lt) = to_host_f64 (deref s0 init)
    /\ deref s1 (TensorAt ls) = clip_val ds (sZ 0) dm NaN (deref s0 (depth_ source))
    /\ deref s1 (TensorAt lg) = clip_val ds (sZ 0) dm NaN (deref s0 (depth_ target))
    /\ trace s1 = trace s0 ++ [EvClipTransform; EvClipTransform].
Proof.
  intros Hdev Hps Hpt Hvs Hvt Hvi.
  destruct (To_Clone_spec intrinsics s0)
    as (h1 & s1 & li & s2 & R1 & R2 & L1 & L2 & P2 & D2 & T2).
  destruct (To_Clone_spec init s2)
    as (h3 & s3 & lt & s4 & R3 & R4 & L3 & L4 & P4 & D4 & T4).
  assert (P04 : preserved TensorEmpty s0 s4) by (eapply preserved_trans; eauto).
  assert (Es : deref s4 (depth_ source) = deref s0 (depth_ source))
    by (apply deref_ext; assumption).
  assert (Et : deref s4 (depth_ target) = deref s0 (depth_ target))
    by (apply deref_ext; assumption).
  assert (Vs : valid s4 (depth_ source)) by (eapply valid_preserved; eauto).
  assert (Vt : valid s4 (depth_ target)) by (eapply valid_preserved; eauto).
  exists li, lt, (length (store s4)),
    (length (store (push s4 (clip_val ds (sZ 0) dm NaN (deref s4 (depth_ source)))
                      [EvClipTransform]))).
  eexists. split.
  { unfold RGBDOdometryMultiScale.
    unfold bind at 1. unfold load at 1. cbv beta iota.
    unfold bind at 1. unfold load at 1. cbv beta iota.
    rewrite Hdev, bool_decide_true by reflexivity. cbn [negb when].
    rewrite bind_ret_pt.
    rewrite (bind_run _ _ _ _ _ R1), (bind_run _ _ _ _ _ R2).
    rewrite (bind_run _ _ _ _ _ R3), (bind_run _ _ _ _ _ R4).
    erewrite bind_run by (apply ClipTransform_run; rewrite Es; exact Hps).
    erewrite bind_run
      by (apply ClipTransform_run; rewrite deref_push_old, Et by exact Vt;
          exact Hpt).
    unfold dispatch. reflexivity. }
  split; [rewrite !length_push; lia|].
  split; [eapply preserved_trans; [exact P04|ext_tac]|].
  assert (Hli : valid s4 (TensorAt li)) by (simpl; lia).
  assert (Hlt : valid s4 (TensorAt lt)) by (simpl; lia).
  split; [deref_tac; rewrite (deref_ext _ _ _ P4) by (simpl; lia); exact D2|].
  split; [deref_tac; rewrite D4, (deref_ext _ _ _ P2) by exact Hvi; reflexivity|].
  split; [deref_tac; rewrite Es; reflexivity|].
  split; [deref_tac; rewrite Et; reflexivity|].
  rewrite !trace_push, T4, T2, <- app_assoc. reflexivity.
Qed.

End Entry.

Section EntrySpec.

Context (K : Kernels).

Lemma depth_fits_clip n a b c d v :
  depth_fits n v -> depth_fits n (clip_val a b c d v).
Proof. exact (fun H => H). Qed.

Lemma depth_fits_precondition n v :
  depth_fits n v -> depth_precondition v = true.
Proof. intros (Hc & Hd & _). apply depth_precondition_true. auto. Qed.

Theorem entry_spec source target intrinsics init ds dm dd iterations m s0 :
  let n := length iterations in
  is_enumerator m ->
  frames_ok n s0 source target init ->
  exists t s',
    RGBDOdometryMultiScale K source target intrinsics init ds dm dd iterations
      m s0 = (inr t, s')
    /\ valid s' t
    /\ deref s' t
       = (entry_val K) m ds dm dd iterations
           (deref s0 (depth_ source)) (deref s0 (depth_ target))
           (deref s0 (color_ source)) (deref s0 (color_ target))
           (deref s0 intrinsics) (deref s0 init)
    /\ trace s' = trace s0 ++ [EvClipTransform; EvClipTransform]
                  ++ (build_trace K) m n (deref s0 (color_ source))
                       (deref s0 (color_ target))
                  ++ schedule m iterations n.
Proof.
  intros n Hm (Hdev & Hfs & Hft & Hvs & Hvt & Hcs & Hct & Hvi).
  destruct (entry_prefix K source target intrinsics init ds dm dd iterations
              m s0 Hdev (depth_fits_precondition _ _ Hfs)
              (depth_fits_precondition _ _ Hft) Hvs Hvt Hvi)
    as (li & lt & ls & lg & s1 & Hrun & (L0 & L1 & L2 & L3 & L4) & P & Dk & Dt
        & Ds & Dg & Tr).
  assert (Sls : stable (TensorAt li) s1 (TensorAt ls)) by (apply stable_at; lia).
  assert (Slg : stable (TensorAt li) s1 (TensorAt lg)) by (apply stable_at; lia).
  assert (Slt : stable (TensorAt li) s1 (TensorAt lt)) by (apply stable_at; lia).
  assert (Vli : valid s1 (TensorAt li)) by (simpl; lia).
  assert (Vcs : valid s1 (color_ source)) by (eapply valid_preserved; eauto).
  assert (Vct : valid s1 (color_ target)) by (eapply valid_preserved; eauto).
  assert (Ecs : deref s1 (color_ source) = deref s0 (color_ source))
    by (apply deref_ext; assumption).
  assert (Ect : deref s1 (color_ target) = deref s0 (color_ target))
    by (apply deref_ext; assumption).
  rewrite Hrun. unfold entry_val. fold n.
  destruct m as [| | |z]; [| | |contradiction]; unfold dispatch.
  - destruct (PointToPlane_driver_spec K
                (mkRGBD (color_ source) (TensorAt ls))
                (mkRGBD (color_ target) (TensorAt lg)) li (TensorAt lt)
                ds dm dd iterations s1 Sls Slg Slt Vli)
      as (t & s' & R & Vt' & Dv & Tv & _).
    { intros j Hj. cbn [depth_]. rewrite Ds, Dg.
      eapply p2p_fits_ok; eauto using depth_fits_clip. }
    exists t, s'. split; [exact R|]. split; [exact Vt'|].
    cbn [depth_] in Dv. rewrite Ds, Dg, Dk, Dt in Dv.
    split; [exact Dv|]. rewrite Tv, Tr, <- !app_assoc. reflexivity.
  - destruct (Intensity_driver_spec K
                (mkRGBD (color_ source) (TensorAt ls))
                (mkRGBD (color_ target) (TensorAt lg)) li (TensorAt lt)
                ds dm dd iterations s1 Sls Slg Vcs Vct Slt Vli)
      as (t & s' & R & Vt' & Dv & Tv & _).
    { intros j Hj. cbn [depth_ color_]. rewrite Ds, Dg.
      eapply i_fits_ok; eauto using depth_fits_clip. }
    exists t, s'. split; [exact R|]. split; [exact Vt'|].
    cbn [depth_ color_] in Dv, Tv. rewrite Ds, Dg, Dk, Dt, Ecs, Ect in Dv.
    split; [exact Dv|]. rewrite Tv, Tr, Ecs, Ect, <- !app_assoc. reflexivity.
  - destruct (Hybrid_driver_spec K
                (mkRGBD (color_ source) (TensorAt ls))
                (mkRGBD (color_ target) (TensorAt lg)) li (TensorAt lt)
                ds dm dd iterations s1 Sls Slg Vcs Vct Slt Vli)
      as (t & s' & R & Vt' & Dv & Tv & _).
    { intros j Hj. cbn [depth_ color_]. rewrite Ds, Dg.
      eapply i_fits_ok; eauto using depth_fits_clip. }
    exists t, s'. split; [exact R|]. split; [exact Vt'|].
    cbn [depth_ color_] in Dv, Tv. rewrite Ds, Dg, Dk, Dt, Ecs, Ect in Dv.
    split; [exact Dv|]. rewrite Tv, Tr, Ecs, Ect, <- !app_assoc. reflexivity.
Qed.

End EntrySpec.

Lemma entry_device_mismatch (K : Kernels) (source target : RGBDImage)
    (intrinsics init : Tensor) (ds dm dd : scalar) (iterations : list Z)
    (m : Method) (s0 : State) :
  tv_device (deref s0 (depth_ target)) <> tv_device (deref s0 (depth_ source)) ->
  RGBDOdometryMultiScale K source target intrinsics init ds dm dd iterations
    m s0 = (inl ErrDeviceMismatch, s0).
Proof.
  intros Hdev. unfold RGBDOdometryMultiScale.
  unfold bind at 1. unfold load at 1. cbv beta iota.
  unfold bind at 1. unfold load at 1. cbv beta iota.
  rewrite bool_decide_false by exact Hdev. reflexivity.
Qed.

(** C2. Frames whose depth tensors live on different devices are rejected
    with the device-mismatch error before anything else happens: no
    transformation is returned, and the store and the kernel log are
    still those the call started from. *)
Theorem device_mismatch_fails_first (K : Kernels) (source target : RGBDImage)
    (intrinsics init : Tensor) (ds dm dd : scalar) (iterations : list Z)
    (m : Method) (s0 : State) :
  tv_device (deref s0 (depth_ target)) <> tv_device (deref s0 (depth_ source)) ->
  exists s',
    RGBDOdometryMultiScale K source target intrinsics init ds dm dd iterations
      m s0 = (inl ErrDeviceMismatch, s')
    /\ store s' = store s0 /\ trace s' = trace s0.
Proof.
  intros Hdev. exists s0. split; [|split; reflexivity].
  apply entry_device_mismatch. exact Hdev.
Qed.

Lemma device_mismatch_fails_first_witness :
  exists s',
    RGBDOdometryMultiScale Demo.K Demo.source Demo.target (TensorAt 4)
      (TensorAt 5) (sZ 1000) (sZ 3) (Num (7 # 100)) [2; 1]%Z Hybrid
      (Demo.frames_split 8 8)
    = (inl ErrDeviceMismatch, s')
    /\ store s' = store (Demo.frames_split 8 8) /\ trace s' = [].
Proof.
  apply (device_mismatch_fails_first Demo.K Demo.source Demo.target
           (TensorAt 4) (TensorAt 5) (sZ 1000) (sZ 3) (Num (7 # 100))
           [2; 1]%Z Hybrid (Demo.frames_split 8 8)).
  vm_compute. discriminate.
Defined.

(** C7. Before the method is dispatched, the depth image of the source and
    that of the target are each replaced by a new image: every element is
    divided by [depth_scale]; a quotient below 0 or above [depth_max]
    becomes NaN and every other quotient is kept.  The method-specific
    driver receives these new images together with the original colour
    images; the frames passed in are left as they were. *)
Theorem depth_preprocessing (K : Kernels) (source target : RGBDImage)
    (intrinsics init : Tensor) (ds dm dd : scalar) (iterations : list Z)
    (m : Method) (s0 : State) :
  tv_device (deref s0 (depth_ target)) = tv_device (deref s0 (depth_ source)) ->
  depth_precondition (deref s0 (depth_ source)) = true ->
  depth_precondition (deref s0 (depth_ target)) = true ->
  valid s0 (depth_ source) -> valid s0 (depth_ target) -> valid s0 init ->
  exists source_depth_processed target_depth_processed intrinsics_d trans_d s1,
    RGBDOdometryMultiScale K source target intrinsics init ds dm dd iterations
      m s0
    = dispatch K m (mkRGBD (color_ source) source_depth_processed)
        (mkRGBD (color_ target) target_depth_processed) intrinsics_d trans_d
        ds dm dd iterations s1
    /\ ~ valid s0 source_depth_processed
    /\ ~ valid s0 target_depth_processed
    /\ preserved TensorEmpty s0 s1
    /\ (forall img clipped,
          (img = depth_ source /\ clipped = source_depth_processed)
          \/ (img = depth_ target /\ clipped = target_depth_processed) ->
          tv_shape (deref s1 clipped) = tv_shape (deref s0 img)
          /\ tv_data (deref s1 clipped)
             = map (clip_elem ds (sZ 0) dm NaN) (tv_data (deref s0 img)))
    /\ (forall x,
          let y := sdiv x ds in
          clip_elem ds (sZ 0) dm NaN x
          = if slt y (sZ 0) || slt dm y then NaN else y).
Proof.
  intros Hdev Hps Hpt Hvs Hvt Hvi.
  destruct (entry_prefix K source target intrinsics init ds dm dd iterations
              m s0 Hdev Hps Hpt Hvs Hvt Hvi)
    as (li & lt & ls & lg & s1 & Hrun & (L0 & L1 & L2 & L3 & L4) & P & Dk & Dt
        & Ds & Dg & Tr).
  exists (TensorAt ls), (TensorAt lg), (TensorAt li), (TensorAt lt), s1.
  split; [exact Hrun|]. split; [simpl; lia|]. split; [simpl; lia|].
  split; [exact P|]. split; [|reflexivity].
  intros img clipped [[-> ->]|[-> ->]].
  - rewrite Ds. split; reflexivity.
  - rewrite Dg. split; reflexivity.
Qed.

Lemma depth_preprocessing_witness :
  exists sp tp kd td s1,
    Demo.run 8 8 [2; 1]%Z PointToPlane
    = dispatch Demo.K PointToPlane (mkRGBD (TensorAt 1) sp)
        (mkRGBD (TensorAt 3) tp) kd td (sZ 1000) (sZ 3) (Num (7 # 100))
        [2; 1]%Z s1
    /\ tv_data (deref s1 sp) = replicate 64 (Num (1000 # 1000)).
Proof.
  destruct (depth_preprocessing Demo.K Demo.source Demo.target (TensorAt 4)
              (TensorAt 5) (sZ 1000) (sZ 3) (Num (7 # 100)) [2; 1]%Z
              PointToPlane (Demo.frames 8 8))
    as (sp & tp & kd & td & s1 & Hrun & _ & _ & _ & Hclip & _);
    try reflexivity; try (simpl; lia).
  exists sp, tp, kd, td, s1. split; [exact Hrun|].
  destruct (Hclip (TensorAt 0) sp) as [_ Hd]; [left; split; reflexivity|].
  rewrite Hd. reflexivity.
Defined.

(** C9, as the code has it.  A method outside the three enumerators always
    ends in a fatal error and never in a transformation.  The check is the
    last branch of the dispatch: it comes after the device check, the
    copies of the intrinsics and of the initial transformation, and the
    clipping of both depth images, and before any pyramid or pose kernel.
    On frames that pass the earlier checks the error is the
    method error and exactly the two clipping kernels have run. *)
Theorem unknown_method_fails_at_dispatch (K : Kernels)
    (source target : RGBDImage) (intrinsics init : Tensor)
    (ds dm dd : scalar) (iterations : list Z) (code : Z) (s0 : State) :
  exists e s' evs,
    RGBDOdometryMultiScale K source target intrinsics init ds dm dd iterations
      (MethodOther code) s0 = (inl e, s')
    /\ trace s' = trace s0 ++ evs
    /\ Forall (fun ev => ev = EvClipTransform) evs
    /\ (tv_device (deref s0 (depth_ target))
        = tv_device (deref s0 (depth_ source)) ->
        depth_precondition (deref s0 (depth_ source)) = true ->
        depth_precondition (deref s0 (depth_ target)) = true ->
        valid s0 (depth_ source) -> valid s0 (depth_ target) ->
        valid s0 init ->
        e = ErrMethodNotImplemented
        /\ evs = [EvClipTransform; EvClipTransform]).
Proof.
  destruct (decide (tv_device (deref s0 (depth_ target))
                    = tv_device (deref s0 (depth_ source)))) as [Hdev|Hdev].
  2:{ exists ErrDeviceMismatch, s0, [].
      split; [apply entry_device_mismatch; exact Hdev|].
      split; [rewrite app_nil_r; reflexivity|]. split; [constructor|].
      intros H. contradiction. }
  destruct (To_Clone_spec intrinsics s0)
    as (h1 & s1 & li & s2 & R1 & R2 & L1 & L2 & P2 & D2 & T2).
  destruct (To_Clone_spec init s2)
    as (h3 & s3 & lt & s4 & R3 & R4 & L3 & L4 & P4 & D4 & T4).
  assert (P04 : preserved TensorEmpty s0 s4) by (eapply preserved_trans; eauto).
  assert (Hrun : forall r,
            (do source_depth_processed <-
               ClipTransform (depth_ source) ds (sZ 0) dm NaN;
             do target_depth_processed <-
               ClipTransform (depth_ target) ds (sZ 0) dm NaN;
             LogError ErrMethodNotImplemented) s4 = r ->
            RGBDOdometryMultiScale K source target intrinsics init ds dm dd
              iterations (MethodOther code) s0 = r).
  { intros r <-. unfold RGBDOdometryMultiScale.
    unfold bind at 1. unfold load at 1. cbv beta iota.
    unfold bind at 1. unfold load at 1. cbv beta iota.
    rewrite Hdev, bool_decide_true by reflexivity. cbn [negb when].
    rewrite bind_ret_pt.
    rewrite (bind_run _ _ _ _ _ R1), (bind_run _ _ _ _ _ R2).
    rewrite (bind_run _ _ _ _ _ R3), (bind_run _ _ _ _ _ R4).
    reflexivity. }
  destruct (depth_precondition (deref s4 (depth_ source))) eqn:Es.
  2:{ exists ErrDepthPrecondition, s4, [].
      split; [apply Hrun; rewrite (bind_fail _ _ _ _ _
                (ClipTransform_fail _ _ _ _ _ _ Es)); reflexivity|].
      split; [rewrite app_nil_r, T4, T2; reflexivity|]. split; [constructor|].
      intros _ Hps _ Hvs _ _.
      rewrite (deref_ext _ _ _ P04 Hvs), Hps in Es. discriminate. }
  set (s5 := push s4 (clip_val ds (sZ 0) dm NaN (deref s4 (depth_ source)))
               [EvClipTransform]).
  destruct (depth_precondition (deref s5 (depth_ target))) eqn:Et.
  2:{ exists ErrDepthPrecondition, s5, [EvClipTransform].
      split; [apply Hrun;
              rewrite (bind_run _ _ _ _ _ (ClipTransform_run _ _ _ _ _ _ Es));
              rewrite (bind_fail _ _ _ _ _
                (ClipTransform_fail _ _ _ _ _ _ Et)); reflexivity|].
      split; [subst s5; rewrite trace_push, T4, T2; reflexivity|].
      split; [repeat constructor|].
      intros _ _ Hpt _ Hvt _. subst s5.
      rewrite deref_push_old in Et by (eapply valid_preserved; eauto).
      rewrite (deref_ext _ _ _ P04 Hvt), Hpt in Et. discriminate. }
  eexists ErrMethodNotImplemented, _, [EvClipTransform; EvClipTransform].
  split; [apply Hrun;
          rewrite (bind_run _ _ _ _ _ (ClipTransform_run _ _ _ _ _ _ Es));
          rewrite (bind_run _ _ _ _ _ (ClipTransform_run _ _ _ _ _ _ Et));
          reflexivity|].
  split; [subst s5; rewrite !trace_push, T4, T2, <- app_assoc; reflexivity|].
  split; [repeat constructor|]. auto.
Qed.

Lemma unknown_method_fails_at_dispatch_witness :
  exists s',
    Demo.run 4 4 [1; 1]%Z (MethodOther 7) = (inl ErrMethodNotImplemented, s')
    /\ trace s' = [EvClipTransform; EvClipTransform].
Proof.
  destruct (unknown_method_fails_at_dispatch Demo.K Demo.source Demo.target
              (TensorAt 4) (TensorAt 5) (sZ 1000) (sZ 3) (Num (7 # 100))
              [1; 1]%Z 7 (Demo.frames 4 4))
    as (e & s' & evs & Hrun & Htr & _ & Hok).
  destruct Hok as [-> ->]; try reflexivity; try (simpl; lia).
  exists s'. split; [exact Hrun|exact Htr].
Defined.

(** C9, as stated, fails: with an unknown method the two clipping kernels
    have already run over the full-resolution depth images when the error
    is raised, and four tensors have been allocated; and the shape check of
    the depth pyramid is raised in the middle of pyramid construction,
    after vertex-map, gradient and down-sampling kernels have run. *)
Lemma unknown_method_not_pure_validation :
  (exists s',
     Demo.run 4 4 [1; 1]%Z (MethodOther 7) = (inl ErrMethodNotImplemented, s')
     /\ trace s' = [EvClipTransform; EvClipTransform]
     /\ length (store s') = length (store (Demo.frames 4 4)) + 4)
  /\ (exists s',
        Demo.run 1 1 [1; 1; 1]%Z Intensity = (inl ErrInvalidShape, s')
        /\ trace s'
           = [EvClipTransform; EvClipTransform; EvRGBToGray; EvRGBToGray;
              EvCreateVertexMap; EvFilterSobel; EvPyrDownDepth;
              EvPyrDownDepth; EvPyrDown; EvPyrDown; EvCreateVertexMap;
              EvFilterSobel]).
Proof.
  split; eexists; (split; [vm_compute; reflexivity|]);
    vm_compute; repeat split; reflexivity.
Qed.


(** ** Counting pose-kernel invocations in a log *)










Lemma demo_frames_ok n rows cols :
  (2 ^ Z.of_nat (n - 2) <= rows)%Z -> (2 ^ Z.of_nat (n - 2) <= cols)%Z ->
  frames_ok n (Demo.frames rows cols) Demo.source Demo.target (TensorAt 5).
Proof.
  intros Hr Hc. unfold frames_ok, depth_fits. simpl.
  repeat split; try reflexivity; try lia; assumption.
Qed.



(** C1. For each of the three methods the transformation returned is the
    initial one updated, level after level and iteration after iteration,
    by [trans := delta * trans], where [delta] is the incremental transform
    computed from the current [trans].  Two iterations that produce [A] and
    then [B] from [T] therefore leave [B * (A * T)]; this differs from
    [A * (B * T)], as two quarter turns about different axes show. *)
Theorem premultiplication_order (K : Kernels) (source target : RGBDImage)
    (intrinsics init : Tensor) (ds dm dd : scalar) (iterations : list Z)
    (m : Method) (s0 : State) :
  let n := length iterations in
  let pose := fun i =>
    entry_pose K m dd
      (entry_level K m dd
         (clip_val ds (sZ 0) dm NaN (deref s0 (depth_ source)))
         (clip_val ds (sZ 0) dm NaN (deref s0 (depth_ target)))
         (deref s0 (color_ source)) (deref s0 (color_ target))
         (to_host_f64 (deref s0 intrinsics)) (n - 1 - i)) in
  let T := to_host_f64 (deref s0 init) in
  is_enumerator m ->
  frames_ok n s0 source target init ->
  (exists t s',
     RGBDOdometryMultiScale K source target intrinsics init ds dm dd
       iterations m s0 = (inr t, s')
     /\ deref s' t = odometry_val pose iterations n T)
  /\ (forall i,
        odometry_val pose iterations (S i) T
        = Nat.iter (Z.to_nat (nth i iterations 0%Z))
            (fun trans => matmul_val (pose i trans) trans)
            (odometry_val pose iterations i T))
  /\ (iterations = [2%Z] ->
        let A := pose 0 T in
        let B := pose 0 (matmul_val A T) in
        odometry_val pose iterations n T = matmul_val B (matmul_val A T))
  /\ (let A := mkTVal [4; 4]%Z Float64 host Demo.rotZ in
      let B := mkTVal [4; 4]%Z Float64 host Demo.rotX in
      ~ scalar_equiv
          (mat_entry 4 (tv_data (matmul_val B (matmul_val A Demo.eye4_val))) 0 1)
          (mat_entry 4 (tv_data (matmul_val A (matmul_val B Demo.eye4_val))) 0 1)).
Proof.
  intros n pose T Hm Hok. split; [|split; [|split]].
  - destruct (entry_spec K source target intrinsics init ds dm dd iterations
                m s0 Hm Hok) as (t & s' & Hrun & _ & Hd & _).
    exists t, s'. split; [exact Hrun|exact Hd].
  - intros i. apply odometry_val_S.
  - intros E. subst n. rewrite E. reflexivity.
  - vm_compute. intros H. discriminate H.
Qed.

Lemma premultiplication_order_witness :
  exists t s',
    Demo.run 8 8 [2%Z] Hybrid = (inr t, s')
    /\ tv_data (deref s' t)
       = tv_data (matmul_val (mkTVal [4; 4]%Z Float64 host Demo.rotX)
                    (matmul_val (mkTVal [4; 4]%Z Float64 host Demo.rotZ)
                       Demo.eye4_val)).
Proof.
  destruct (premultiplication_order Demo.K Demo.source Demo.target
              (TensorAt 4) (TensorAt 5) (sZ 1000) (sZ 3) (Num (7 # 100))
              [2%Z] Hybrid (Demo.frames 8 8))
    as [(t & s' & Hrun & Hd) _].
  - exact I.
  - apply demo_frames_ok; simpl; lia.
  - exists t, s'. split; [exact Hrun|]. rewrite Hd. vm_compute. reflexivity.
Defined.


Section PyramidOf.

Context (K : Kernels).

Lemma nth_map_fields {A} (f : A -> list Tensor) (l : list A) (d : A) k :
  k < length l -> nth k (map f l) [] = f (nth k l d).
Proof.
  intros Hk. rewrite (nth_indep _ [] (f d)) by (rewrite length_map; exact Hk).
  apply map_nth.
Qed.

Theorem PyramidOf_spec m source target li dd iterations s0 :
  let n := length iterations in
  is_enumerator m ->
  stable (TensorAt li) s0 (depth_ source) ->
  stable (TensorAt li) s0 (depth_ target) ->
  valid s0 (color_ source) -> valid s0 (color_ target) ->
  valid s0 (TensorAt li) ->
  depth_fits n (deref s0 (depth_ source)) ->
  depth_fits n (deref s0 (depth_ target)) ->
  exists pyr s',
    (PyramidOf K) m source target (TensorAt li) dd iterations s0 = (inr pyr, s')
    /\ length pyr = n
    /\ (forall k, k < n ->
          map (deref s') (nth k pyr [])
          = entry_level K m dd (deref s0 (depth_ source))
              (deref s0 (depth_ target)) (deref s0 (color_ source))
              (deref s0 (color_ target)) (deref s0 (TensorAt li)) (n - 1 - k))
    /\ deref s' (TensorAt li)
       = Nat.iter (n - 1) halve_reset (deref s0 (TensorAt li))
    /\ preserved (TensorAt li) s0 s'.
Proof.
  intros n Hm Hs Ht Hcs Hct Hv Hfs Hft.
  destruct m as [| | |z]; [| | |contradiction]; unfold PyramidOf.
  - destruct (PyramidPointToPlane_spec K source target li dd iterations s0
                Hs Ht Hv)
      as (levels & s' & R & Hlen & Hlv & _ & Hk & _ & Hp).
    { intros j Hj. eapply p2p_fits_ok; eauto. }
    exists (map p2p_lfields levels), s'.
    split; [rewrite (bind_run _ _ _ _ _ R); reflexivity|].
    split; [rewrite length_map; exact Hlen|].
    split; [|split; [exact Hk|exact Hp]].
    intros k Hkn. rewrite (nth_map_fields _ _ LevelP2P_default) by lia.
    apply Hlv. exact Hkn.
  - destruct (PyramidIntensity_spec K source target li dd iterations s0
                Hs Ht Hcs Hct Hv)
      as (levels & s' & R & Hlen & Hlv & _ & Hk & _ & Hp).
    { intros j Hj. eapply i_fits_ok; eauto. }
    exists (map i_lfields levels), s'.
    split; [rewrite (bind_run _ _ _ _ _ R); reflexivity|].
    split; [rewrite length_map; exact Hlen|].
    split; [|split; [exact Hk|exact Hp]].
    intros k Hkn. rewrite (nth_map_fields _ _ LevelIntensity_default) by lia.
    apply Hlv. exact Hkn.
  - destruct (PyramidHybrid_spec K source target li dd iterations s0
                Hs Ht Hcs Hct Hv)
      as (levels & s' & R & Hlen & Hlv & _ & Hk & _ & Hp).
    { intros j Hj. eapply i_fits_ok; eauto. }
    exists (map h_lfields levels), s'.
    split; [rewrite (bind_run _ _ _ _ _ R); reflexivity|].
    split; [rewrite length_map; exact Hlen|].
    split; [|split; [exact Hk|exact Hp]].
    intros k Hkn. rewrite (nth_map_fields _ _ LevelHybrid_default) by lia.
    apply Hlv. exact Hkn.
Qed.

Lemma pyr_down_iter_size thr fill j v :
  (0 <= GetRows v)%Z -> (0 <= GetCols v)%Z ->
  GetRows (Nat.iter j (fun v => pyr_down_val K v thr fill) v)
  = (GetRows v / 2 ^ Z.of_nat j)%Z
  /\ GetCols (Nat.iter j (fun v => pyr_down_val K v thr fill) v)
     = (GetCols v / 2 ^ Z.of_nat j)%Z.
Proof.
  intros Hr Hc. induction j as [|j [IHr IHc]].
  - simpl. rewrite !Z.div_1_r. auto.
  - cbn [Nat.iter nat_rect].
    change (Nat.iter j (fun v => pyr_down_val K v thr fill) v)
      with (nat_rect (fun _ => TVal) v
              (fun _ v => pyr_down_val K v thr fill) j) in IHr, IHc.
    set (w := nat_rect _ v _ j) in *.
    change (GetRows (pyr_down_val K w thr fill)) with (GetRows w ÷ 2)%Z.
    change (GetCols (pyr_down_val K w thr fill)) with (GetCols w ÷ 2)%Z.
    assert (0 < 2 ^ Z.of_nat j)%Z by (apply Z.pow_pos_nonneg; lia).
    rewrite IHr, IHc, Nat2Z.inj_succ, Z.pow_succ_r by lia.
    rewrite !Z.quot_div_nonneg by (try apply Z.div_pos; lia).
    rewrite !Z.div_div by lia.
    rewrite (Z.mul_comm 2). auto.
Qed.

End PyramidOf.

(** ** Halving a 3x3 intrinsic matrix *)

Lemma halve_reset_shape v : tv_shape (halve_reset v) = tv_shape v.
Proof. reflexivity. Qed.

Lemma halve_reset_iter_shape j v :
  tv_shape (Nat.iter j halve_reset v) = tv_shape v.
Proof. induction j as [|j IH]; simpl; [reflexivity|exact IH]. Qed.

Lemma halve_reset_data33 v :
  tv_shape v = [3; 3]%Z ->
  tv_data (halve_reset v)
  = <[8 := sZ 1]> (map (fun x => sdiv x (sZ 2)) (tv_data v)).
Proof.
  intros H. unfold halve_reset, set_item2_val, div_val, dim. cbn [tv_shape tv_data].
  rewrite H. reflexivity.
Qed.

Lemma halve_reset_iter_length j v :
  tv_shape v = [3; 3]%Z ->
  length (tv_data (Nat.iter j halve_reset v)) = length (tv_data v).
Proof.
  intros H. induction j as [|j IH]; [reflexivity|].
  cbn [Nat.iter nat_rect].
  change (nat_rect (fun _ => TVal) v (fun _ => halve_reset) j)
    with (Nat.iter j halve_reset v).
  rewrite halve_reset_data33 by (rewrite halve_reset_iter_shape; exact H).
  rewrite length_insert, length_map. exact IH.
Qed.

Lemma pow2_nonzero (j : Z) :
  (0 <= j)%Z -> Qeq_bool (inject_Z (2 ^ j)) 0 = false.
Proof.
  intros Hj. apply not_true_is_false. intros E. apply Qeq_bool_iff in E.
  assert (0 < 2 ^ j)%Z by (apply Z.pow_pos_nonneg; lia).
  unfold Qeq, inject_Z in E. simpl in E. lia.
Qed.

Lemma sdiv_pow2_base x : scalar_equiv x (sdiv x (sZ (2 ^ 0))).
Proof.
  destruct x as [q|]; simpl; [|exact I].
  change (Qeq q (q / 1)). field.
Qed.

Lemma sdiv_pow2_step x y (j : Z) :
  (0 <= j)%Z ->
  scalar_equiv y (sdiv x (sZ (2 ^ j))) ->
  scalar_equiv (sdiv y (sZ 2)) (sdiv x (sZ (2 ^ (j + 1)))).
Proof.
  intros Hj. unfold sZ. destruct x as [q|]; cbn [sdiv].
  - rewrite (pow2_nonzero (j + 1)) by lia. rewrite (pow2_nonzero j) by exact Hj.
    destruct y as [p|]; cbn [scalar_equiv sdiv]; [|contradiction].
    change (Qeq_bool (inject_Z 2) 0) with false. cbv iota.
    intros E. change (Qeq p (q / inject_Z (2 ^ j))) in E.
    change (Qeq (p / inject_Z 2) (q / inject_Z (2 ^ (j + 1)))).
    rewrite E.
    rewrite Z.pow_add_r, Z.pow_1_r by lia. rewrite inject_Z_mult.
    assert (Hnz : ~ Qeq (inject_Z (2 ^ j)) 0).
    { intros E0. apply Qeq_bool_iff in E0. rewrite pow2_nonzero in E0 by exact Hj.
      discriminate. }
    field. exact Hnz.
  - destruct y as [p|]; cbn [scalar_equiv sdiv]; [contradiction|auto].
Qed.

Lemma halve_reset_iter_entry v j p :
  tv_shape v = [3; 3]%Z -> p <> 8 ->
  scalar_equiv (nth p (tv_data (Nat.iter j halve_reset v)) NaN)
    (sdiv (nth p (tv_data v) NaN) (sZ (2 ^ Z.of_nat j))).
Proof.
  intros H Hp. induction j as [|j IH].
  - apply sdiv_pow2_base.
  - cbn [Nat.iter nat_rect].
    change (nat_rect (fun _ => TVal) v (fun _ => halve_reset) j)
      with (Nat.iter j halve_reset v).
    rewrite halve_reset_data33 by (rewrite halve_reset_iter_shape; exact H).
    rewrite nth_insert_ne by lia.
    change NaN with (sdiv NaN (sZ 2)) at 1.
    rewrite (map_nth (fun x => sdiv x (sZ 2))).
    rewrite Nat2Z.inj_succ, <- Z.add_1_r.
    apply sdiv_pow2_step; [lia|exact IH].
Qed.

Lemma halve_reset_iter_corner v j :
  tv_shape v = [3; 3]%Z -> length (tv_data v) = 9 -> 0 < j ->
  nth 8 (tv_data (Nat.iter j halve_reset v)) NaN = sZ 1.
Proof.
  intros H Hlen Hj. destruct j as [|j]; [lia|].
  cbn [Nat.iter nat_rect].
  change (nat_rect (fun _ => TVal) v (fun _ => halve_reset) j)
    with (Nat.iter j halve_reset v).
  rewrite halve_reset_data33 by (rewrite halve_reset_iter_shape; exact H).
  apply nth_insert_eq. rewrite length_map, halve_reset_iter_length by exact H.
  lia.
Qed.

Lemma entry_level_last K m dd sd td cs ct K0 j :
  is_enumerator m ->
  last (entry_level K m dd sd td cs ct K0 j)
  = Some (Nat.iter j halve_reset K0).
Proof.
  destruct m as [| | |z]; [| | |contradiction]; intros _; simpl;
    unfold p2p_level_spec, i_level_spec, h_level_spec, level_spec.
  - rewrite p2p_dn_iter. reflexivity.
  - rewrite i_dn_iter. reflexivity.
  - rewrite i_dn_iter. reflexivity.
Qed.






(** C3. With [n >= 1] levels, the level stored at index [k] of the pyramid
    is the one built in iteration [n - 1 - k], from the images
    down-sampled [n - 1 - k] times and the intrinsics halved as often:
    index [n - 1] holds the full-resolution level and index 0 the coarsest
    (each down-sampling halves rows and columns).  The optimisation loop
    of each driver reads index [i] of that pyramid at position [i]: the
    transformation a driver returns is the initial one updated first with
    the poses computed on the contents of index 0, the coarsest level,
    then on those of index 1, and last on those of index [n - 1], the
    full-resolution level. *)
Theorem levels_coarse_to_fine (K : Kernels) (m : Method)
    (source target : RGBDImage) (li : nat) (dd : scalar)
    (iterations : list Z) (s0 : State) :
  let n := length iterations in
  let down := fun v => pyr_down_val K v (smul dd (sZ 2)) NaN in
  let level := fun k =>
    entry_level K m dd (deref s0 (depth_ source)) (deref s0 (depth_ target))
      (deref s0 (color_ source)) (deref s0 (color_ target))
      (deref s0 (TensorAt li)) (n - 1 - k) in
  1 <= n ->
  is_enumerator m ->
  stable (TensorAt li) s0 (depth_ source) ->
  stable (TensorAt li) s0 (depth_ target) ->
  valid s0 (color_ source) -> valid s0 (color_ target) ->
  valid s0 (TensorAt li) ->
  depth_fits n (deref s0 (depth_ source)) ->
  depth_fits n (deref s0 (depth_ target)) ->
  (exists pyr s',
     PyramidOf K m source target (TensorAt li) dd iterations s0
     = (inr pyr, s')
     /\ length pyr = n
     /\ (forall k, k < n -> map (deref s') (nth k pyr []) = level k))
  /\ (forall j,
        GetRows (Nat.iter j down (deref s0 (depth_ source)))
        = (GetRows (deref s0 (depth_ source)) / 2 ^ Z.of_nat j)%Z
        /\ GetCols (Nat.iter j down (deref s0 (depth_ source)))
           = (GetCols (deref s0 (depth_ source)) / 2 ^ Z.of_nat j)%Z)
  /\ (forall trans ds dm,
        stable (TensorAt li) s0 trans ->
        exists t s',
          match m with
          | PointToPlane => RGBDOdometryMultiScalePointToPlane K
          | Intensity => RGBDOdometryMultiScaleIntensity K
          | _ => RGBDOdometryMultiScaleHybrid K
          end source target (TensorAt li) trans ds dm dd iterations s0
          = (inr t, s')
          /\ deref s' t
             = odometry_val (fun i => entry_pose K m dd (level i))
                 iterations n (deref s0 trans)
          /\ trace s' = trace s0
               ++ build_trace K m n (deref s0 (color_ source))
                    (deref s0 (color_ target))
               ++ flat_map
                    (fun i => map (EvComputePose m i)
                                (seq 0 (Z.to_nat (nth i iterations 0%Z))))
                    (seq 0 n))
  /\ (forall (pose : nat -> TVal -> TVal) T,
        odometry_val pose iterations 0 T = T
        /\ forall i,
             odometry_val pose iterations (S i) T
             = Nat.iter (Z.to_nat (nth i iterations 0%Z))
                 (fun trans => matmul_val (pose i trans) trans)
                 (odometry_val pose iterations i T)).
Proof.
  intros n down level Hn Hm Hs Ht Hcs Hct Hv Hfs Hft.
  split; [|split; [|split]].
  - destruct (PyramidOf_spec K m source target li dd iterations s0
                Hm Hs Ht Hcs Hct Hv Hfs Hft)
      as (pyr & s' & R & Hlen & Hlv & _).
    exists pyr, s'. auto.
  - intros j. destruct Hfs as (_ & _ & Hr & Hc).
    assert (0 < 2 ^ Z.of_nat (n - 2))%Z by (apply Z.pow_pos_nonneg; lia).
    apply pyr_down_iter_size; lia.
  - intros trans ds dm Htr. subst level.
    destruct m as [| | |z]; [| | |contradiction].
    + destruct (PointToPlane_driver_spec K source target li trans ds dm dd
                  iterations s0 Hs Ht Htr Hv)
        as (t & s' & R & _ & Dv & Tv & _).
      { intros j Hj. eapply p2p_fits_ok; eauto. }
      exists t, s'. split; [exact R|]. split; [exact Dv|exact Tv].
    + destruct (Intensity_driver_spec K source target li trans ds dm dd
                  iterations s0 Hs Ht Hcs Hct Htr Hv)
        as (t & s' & R & _ & Dv & Tv & _).
      { intros j Hj. eapply i_fits_ok; eauto. }
      exists t, s'. split; [exact R|]. split; [exact Dv|exact Tv].
    + destruct (Hybrid_driver_spec K source target li trans ds dm dd
                  iterations s0 Hs Ht Hcs Hct Htr Hv)
        as (t & s' & R & _ & Dv & Tv & _).
      { intros j Hj. eapply i_fits_ok; eauto. }
      exists t, s'. split; [exact R|]. split; [exact Dv|exact Tv].
  - intros pose T. split; [reflexivity|]. intros i. apply odometry_val_S.
Qed.

Lemma demo_stable rows cols l :
  l < 6 -> l <> 4 -> stable (TensorAt 4) (Demo.frames rows cols) (TensorAt l).
Proof. intros Hl Hne. split; [exact Hl|congruence]. Qed.

Lemma levels_coarse_to_fine_witness :
  (exists pyr s',
     PyramidOf Demo.K_by_rows Intensity Demo.source Demo.target (TensorAt 4)
       (Num (7 # 100)) [1; 1]%Z (Demo.frames 8 8) = (inr pyr, s')
     /\ map (fun lv => tv_shape (deref s' (nth 0 lv TensorEmpty))) pyr
        = [[4; 4; 1]; [8; 8; 1]]%Z)
  /\ exists t s',
       RGBDOdometryMultiScaleIntensity Demo.K_by_rows Demo.source Demo.target
         (TensorAt 4) (TensorAt 5) (sZ 1000) (sZ 3) (Num (7 # 100)) [1; 1]%Z
         (Demo.frames 8 8) = (inr t, s')
       /\ tv_data (deref s' t)
          = tv_data (matmul_val (mkTVal [4; 4]%Z Float64 host Demo.rotX)
                       (matmul_val (mkTVal [4; 4]%Z Float64 host Demo.rotZ)
                          Demo.eye4_val)).
Proof.
  destruct (levels_coarse_to_fine Demo.K_by_rows Intensity Demo.source
              Demo.target 4 (Num (7 # 100)) [1; 1]%Z (Demo.frames 8 8))
    as ((pyr & s1 & Hrun & Hlen & Hlv) & _ & Hloop & _);
    try (apply demo_stable; lia); try (simpl; lia); try exact I.
  - vm_compute. repeat split; intros H; discriminate H.
  - vm_compute. repeat split; intros H; discriminate H.
  - split.
    + exists pyr, s1. split; [exact Hrun|].
      destruct pyr as [|l0 [|l1 [|]]]; try discriminate Hlen.
      assert (H0 := Hlv 0). assert (H1 := Hlv 1).
      cbn [nth] in H0, H1. cbn [map].
      assert (E : forall lv (vs : list TVal),
                map (deref s1) lv = vs ->
                deref s1 (nth 0 lv TensorEmpty) = nth 0 vs empty_tval).
      { intros lv vs <-. destruct lv; reflexivity. }
      rewrite (E _ _ (H0 ltac:(simpl; lia))), (E _ _ (H1 ltac:(simpl; lia))).
      vm_compute. reflexivity.
    + destruct (Hloop (TensorAt 5) (sZ 1000) (sZ 3))
        as (t & s' & R & Hd & _); [apply demo_stable; lia|].
      exists t, s'. split; [exact R|]. rewrite Hd. vm_compute. reflexivity.
Defined.

(** C5. Between two levels the working intrinsic matrix is divided by 2,
    entry by entry, and its bottom-right entry is then set to 1.  The
    matrix stored for level [k] is a copy taken before the halving of that
    iteration: the input matrix halved [n - 1 - k] times.  For a 3x3 input
    every entry but the bottom-right one, so the focal lengths and the
    principal point, is the input entry divided by [2 ^ (n - 1 - k)]; the
    bottom-right entry is 1 at every level but the finest, which holds the
    input matrix itself. *)
Theorem intrinsics_per_level (K : Kernels) (m : Method)
    (source target : RGBDImage) (li : nat) (dd : scalar)
    (iterations : list Z) (s0 : State) :
  let n := length iterations in
  let K0 := deref s0 (TensorAt li) in
  is_enumerator m ->
  stable (TensorAt li) s0 (depth_ source) ->
  stable (TensorAt li) s0 (depth_ target) ->
  valid s0 (color_ source) -> valid s0 (color_ target) ->
  valid s0 (TensorAt li) ->
  depth_fits n (deref s0 (depth_ source)) ->
  depth_fits n (deref s0 (depth_ target)) ->
  tv_shape K0 = [3; 3]%Z -> length (tv_data K0) = 9 ->
  (forall v, tv_shape v = [3; 3]%Z ->
     tv_shape (halve_reset v) = [3; 3]%Z
     /\ tv_data (halve_reset v)
        = <[8 := sZ 1]> (map (fun x => sdiv x (sZ 2)) (tv_data v)))
  /\ exists pyr s',
       PyramidOf K m source target (TensorAt li) dd iterations s0
       = (inr pyr, s')
       /\ deref s' (TensorAt li) = Nat.iter (n - 1) halve_reset K0
       /\ forall k, k < n ->
            exists Kk,
              last (map (deref s') (nth k pyr [])) = Some Kk
              /\ Kk = Nat.iter (n - 1 - k) halve_reset K0
              /\ (forall r c, r < 3 -> c < 3 -> (r, c) <> (2, 2) ->
                    scalar_equiv (mat_entry 3 (tv_data Kk) r c)
                      (sdiv (mat_entry 3 (tv_data K0) r c)
                            (sZ (2 ^ Z.of_nat (n - 1 - k)))))
              /\ (k < n - 1 -> mat_entry 3 (tv_data Kk) 2 2 = sZ 1)
              /\ (k = n - 1 -> Kk = K0).
Proof.
  intros n K0 Hm Hs Ht Hcs Hct Hv Hfs Hft Hshape Hlen. split.
  - intros v Hsv. split; [rewrite halve_reset_shape; exact Hsv|].
    apply halve_reset_data33. exact Hsv.
  - destruct (PyramidOf_spec K m source target li dd iterations s0
                Hm Hs Ht Hcs Hct Hv Hfs Hft)
      as (pyr & s' & R & Hl & Hlv & Hk & _).
    exists pyr, s'. split; [exact R|]. split; [exact Hk|].
    intros k Hkn. exists (Nat.iter (n - 1 - k) halve_reset K0).
    split; [rewrite (Hlv k Hkn); apply entry_level_last; exact Hm|].
    split; [reflexivity|]. split; [|split].
    + intros r c Hr Hc Hne. unfold mat_entry.
      apply halve_reset_iter_entry; [exact Hshape|].
      intros E. apply Hne. f_equal; lia.
    + intros Hk1. unfold mat_entry.
      apply halve_reset_iter_corner; [exact Hshape|exact Hlen|lia].
    + intros ->. replace (n - 1 - (n - 1)) with 0 by lia. reflexivity.
Qed.

Lemma intrinsics_per_level_witness :
  exists pyr s',
    PyramidOf Demo.K PointToPlane Demo.source Demo.target (TensorAt 4)
      (Num (7 # 100)) [2; 1; 1]%Z (Demo.frames 8 8) = (inr pyr, s')
    /\ map (fun lv => option_map tv_data (last (map (deref s') lv))) pyr
       = [Some [Num (525 # 4); Num (0 # 4); Num (320 # 4);
                Num (0 # 4); Num (525 # 4); Num (240 # 4);
                Num (0 # 4); Num (0 # 4); Num 1];
          Some [Num (525 # 2); Num (0 # 2); Num (320 # 2);
                Num (0 # 2); Num (525 # 2); Num (240 # 2);
                Num (0 # 2); Num (0 # 2); Num 1];
          Some [Num 525; Num 0; Num 320; Num 0; Num 525; Num 240;
                Num 0; Num 0; Num 1]].
Proof.
  destruct (intrinsics_per_level Demo.K PointToPlane Demo.source Demo.target 4
              (Num (7 # 100)) [2; 1; 1]%Z (Demo.frames 8 8))
    as [_ (pyr & s' & Hrun & _ & Hlv)];
    try (apply demo_stable; lia); try (simpl; lia); try exact I;
    try reflexivity.
  - vm_compute. repeat split; intros H; discriminate H.
  - vm_compute. repeat split; intros H; discriminate H.
  - exists pyr, s'. split; [exact Hrun|].
    assert (Hlen : length pyr = 3).
    { revert Hrun. vm_compute. intros E. injection E as <- _. reflexivity. }
    destruct pyr as [|l0 [|l1 [|l2 [|]]]]; try discriminate Hlen.
    destruct (Hlv 0) as (K0 & E0 & -> & _); [simpl; lia|].
    destruct (Hlv 1) as (K1 & E1 & -> & _); [simpl; lia|].
    destruct (Hlv 2) as (K2 & E2 & -> & _); [simpl; lia|].
    cbn [nth] in E0, E1, E2. cbn [map]. rewrite E0, E1, E2.
    vm_compute. reflexivity.
Defined.


(** C6, as stated, fails: the entry point has no level count of its own, so
    a caller who means three levels and passes two iteration counts is not
    told; the call returns a transformation. *)
Lemma level_count_mismatch_accepted :
  3 <> length [1; 1]%Z
  /\ fst (Demo.run 8 8 [1; 1]%Z PointToPlane) = inr (TensorAt 27)
  /\ fst (Demo.run 8 8 []%Z Hybrid) = inr (TensorAt 7).
Proof. split; [discriminate|]. split; vm_compute; reflexivity. Qed.

Lemma length_eqb_all (a b c d e : nat) :
  negb (b =? a) || negb (c =? a) || negb (d =? a) || negb (e =? a) = false
  <-> b = a /\ c = a /\ d = a /\ e = a.
Proof.
  rewrite !orb_false_iff, !negb_false_iff, !Nat.eqb_eq. tauto.
Qed.

(** C6, as the code has it.  The odometry entry point takes no level
    count: the number of levels is the length of the iterations vector, so
    every vector is accepted (on frames large enough for that many
    levels) and exactly that many levels are built and processed.  The
    configuration reader of the registration demo does compare lengths:
    it fails, before any criteria are built, exactly when the search
    radii, the iteration counts, the fitness or the RMSE thresholds differ
    in number from the voxel sizes. *)
Theorem level_count_is_vector_length (K : Kernels) (source target : RGBDImage)
    (intrinsics init : Tensor) (ds dm dd : scalar) (iterations : list Z)
    (m : Method) (s0 : State)
    (voxel_sizes search_radius relative_fitness relative_rmse : list Q)
    (max_iterations : list Z) (registration_method : String.string) :
  let n := length iterations in
  is_enumerator m ->
  frames_ok n s0 source target init ->
  (exists t s',
     RGBDOdometryMultiScale K source target intrinsics init ds dm dd
       iterations m s0 = (inr t, s')
     /\ trace s' = trace s0 ++ [EvClipTransform; EvClipTransform]
                   ++ build_trace K m n (deref s0 (color_ source))
                        (deref s0 (color_ target))
                   ++ schedule m iterations n)
  /\ (ReadConfigFile_check voxel_sizes search_radius relative_fitness
        relative_rmse max_iterations registration_method
      = inl ErrVectorLengths
      <-> ~ (length search_radius = length voxel_sizes
             /\ length max_iterations = length voxel_sizes
             /\ length relative_fitness = length voxel_sizes
             /\ length relative_rmse = length voxel_sizes))
  /\ (forall criterias estimation,
        ReadConfigFile_check voxel_sizes search_radius relative_fitness
          relative_rmse max_iterations registration_method
        = inr (criterias, estimation) ->
        length criterias = length voxel_sizes
        /\ length max_iterations = length voxel_sizes).
Proof.
  intros n Hm Hok. split; [|split].
  - destruct (entry_spec K source target intrinsics init ds dm dd iterations
                m s0 Hm Hok) as (t & s' & Hrun & _ & _ & Htr).
    exists t, s'. auto.
  - unfold ReadConfigFile_check.
    destruct (negb (length search_radius =? length voxel_sizes)
              || negb (length max_iterations =? length voxel_sizes)
              || negb (length relative_fitness =? length voxel_sizes)
              || negb (length relative_rmse =? length voxel_sizes)) eqn:E.
    + split; [|reflexivity]. intros _ H. apply length_eqb_all in H.
      rewrite H in E. discriminate.
    + apply length_eqb_all in E. split; [|tauto].
      destruct (String.eqb _ _); [discriminate|].
      destruct (String.eqb _ _); discriminate.
  - intros criterias estimation. unfold ReadConfigFile_check.
    destruct (negb (length search_radius =? length voxel_sizes)
              || negb (length max_iterations =? length voxel_sizes)
              || negb (length relative_fitness =? length voxel_sizes)
              || negb (length relative_rmse =? length voxel_sizes)) eqn:E;
      [discriminate|].
    apply length_eqb_all in E. destruct E as (_ & E & _).
    destruct (String.eqb _ _);
      [|destruct (String.eqb _ _); [|discriminate]];
      intros H; injection H as <- _; rewrite length_map, length_seq; auto.
Qed.

Lemma level_count_is_vector_length_witness :
  exists t s',
    Demo.run 8 8 [1; 1]%Z PointToPlane = (inr t, s')
    /\ trace s'
       = [EvClipTransform; EvClipTransform; EvCreateVertexMap;
          EvCreateVertexMap; EvCreateNormalMap; EvPyrDownDepth;
          EvPyrDownDepth; EvCreateVertexMap; EvCreateVertexMap;
          EvCreateNormalMap; EvComputePose PointToPlane 0 0;
          EvComputePose PointToPlane 1 0].
Proof.
  destruct (level_count_is_vector_length Demo.K Demo.source Demo.target
              (TensorAt 4) (TensorAt 5) (sZ 1000) (sZ 3) (Num (7 # 100))
              [1; 1]%Z PointToPlane (Demo.frames 8 8)
              [] [] [] [] [] String.EmptyString)
    as [(t & s' & Hrun & Htr) _].
  - exact I.
  - apply demo_frames_ok; simpl; lia.
  - exists t, s'. split; [exact Hrun|exact Htr].
Defined.


Lemma bind_inr {A B} (m : M A) (f : A -> M B) s b s' :
  bind m f s = (inr b, s') ->
  exists a s1, m s = (inr a, s1) /\ f a s1 = (inr b, s').
Proof.
  unfold bind. destruct (m s) as [[e|a] s1]; [discriminate|].
  intros H. exists a, s1. auto.
Qed.

Section Results.

Context (K : Kernels).

Lemma pres_PointToPlane_driver source target intr trans ds dm dd iterations :
  pres intr (RGBDOdometryMultiScalePointToPlane K source target intr trans
               ds dm dd iterations).
Proof.
  apply pres_bind; [apply pres_PyramidPointToPlane|].
  intros levels. apply pres_OdometryPointToPlane.
Qed.

Lemma pres_Intensity_driver source target intr trans ds dm dd iterations :
  pres intr (RGBDOdometryMultiScaleIntensity K source target intr trans
               ds dm dd iterations).
Proof.
  apply pres_bind; [apply pres_PyramidIntensity|].
  intros levels. apply pres_OdometryIntensity.
Qed.

Lemma pres_Hybrid_driver source target intr trans ds dm dd iterations :
  pres intr (RGBDOdometryMultiScaleHybrid K source target intr trans
               ds dm dd iterations).
Proof.
  apply pres_bind; [apply pres_PyramidHybrid|].
  intros levels. apply pres_OdometryHybrid.
Qed.

Lemma pres_dispatch m sp tp intr trans ds dm dd iterations :
  pres intr (dispatch K m sp tp intr trans ds dm dd iterations).
Proof.
  destruct m; simpl.
  - apply pres_PointToPlane_driver.
  - apply pres_Intensity_driver.
  - apply pres_Hybrid_driver.
  - apply pres_LogError.
Qed.

Lemma dispatch_result base m sp tp intr trans ds dm dd iterations s t s' :
  base <= length (store s) ->
  dispatch K m sp tp intr trans ds dm dd iterations s = (inr t, s') ->
  t = trans \/ produced K base s' t.
Proof.
  intros Hb. destruct m; simpl; intros H; [| | |discriminate H].
  - apply bind_inr in H. destruct H as (levels & s1 & H1 & H2).
    assert (P : preserved intr s s1)
      by (pose proof (pres_PyramidPointToPlane K sp tp intr dd iterations s) as Q;
          rewrite H1 in Q; exact Q).
    rewrite OdometryPointToPlane_loop in H2.
    destruct (odometry_loop_total K PointToPlane iterations _
                (fun i => p2p_wv K dd (nth i levels LevelP2P_default))
                (p2p_step_ok K levels dd) base trans s1)
      as (t2 & s2 & R & _ & _ & Hr); [destruct P; lia|].
    rewrite R in H2. injection H2 as <- <-. exact Hr.
  - apply bind_inr in H. destruct H as (levels & s1 & H1 & H2).
    assert (P : preserved intr s s1)
      by (pose proof (pres_PyramidIntensity K sp tp intr dd iterations s) as Q;
          rewrite H1 in Q; exact Q).
    rewrite OdometryIntensity_loop in H2.
    destruct (odometry_loop_total K Intensity iterations _
                (fun i => i_wv K dd (nth i levels LevelIntensity_default))
                (i_step_ok K levels dd) base trans s1)
      as (t2 & s2 & R & _ & _ & Hr); [destruct P; lia|].
    rewrite R in H2. injection H2 as <- <-. exact Hr.
  - apply bind_inr in H. destruct H as (levels & s1 & H1 & H2).
    assert (P : preserved intr s s1)
      by (pose proof (pres_PyramidHybrid K sp tp intr dd iterations s) as Q;
          rewrite H1 in Q; exact Q).
    rewrite OdometryHybrid_loop in H2.
    destruct (odometry_loop_total K Hybrid iterations _
                (fun i => h_wv K dd (nth i levels LevelHybrid_default))
                (h_step_ok K levels dd) base trans s1)
      as (t2 & s2 & R & _ & _ & Hr); [destruct P; lia|].
    rewrite R in H2. injection H2 as <- <-. exact Hr.
Qed.

Lemma pres_entry_rest source target kd td ds dm dd iterations m :
  pres kd ((entry_rest K) source target kd td ds dm dd iterations m).
Proof.
  unfold entry_rest.
  apply pres_bind; [apply pres_ClipTransform|]. intros sp.
  apply pres_bind; [apply pres_ClipTransform|]. intros tp.
  apply pres_dispatch.
Qed.

Lemma entry_copies source target intrinsics init ds dm dd iterations m s0 :
  tv_device (deref s0 (depth_ target)) = tv_device (deref s0 (depth_ source)) ->
  exists li lt s4,
    RGBDOdometryMultiScale K source target intrinsics init ds dm dd iterations
      m s0
    = (entry_rest K) source target (TensorAt li) (TensorAt lt) ds dm dd
        iterations m s4
    /\ length (store s0) <= li /\ li < lt /\ lt < length (store s4)
    /\ preserved TensorEmpty s0 s4
    /\ f64_host (deref s4 (TensorAt lt)).
Proof.
  intros Hdev.
  destruct (To_Clone_spec intrinsics s0)
    as (h1 & s1 & li & s2 & R1 & R2 & L1 & L2 & P2 & D2 & T2).
  destruct (To_Clone_spec init s2)
    as (h3 & s3 & lt & s4 & R3 & R4 & L3 & L4 & P4 & D4 & T4).
  exists li, lt, s4. split.
  { unfold RGBDOdometryMultiScale.
    unfold bind at 1. unfold load at 1. cbv beta iota.
    unfold bind at 1. unfold load at 1. cbv beta iota.
    rewrite Hdev, bool_decide_true by reflexivity. cbn [negb when].
    rewrite bind_ret_pt.
    rewrite (bind_run _ _ _ _ _ R1), (bind_run _ _ _ _ _ R2).
    rewrite (bind_run _ _ _ _ _ R3), (bind_run _ _ _ _ _ R4).
    reflexivity. }
  split; [exact L1|]. split; [lia|]. split; [lia|].
  split; [eapply preserved_trans; eauto|].
  rewrite D4. split; reflexivity.
Qed.

End Results.

(** C10. A call leaves every tensor that existed before it as it was,
    whether it succeeds or fails: the intrinsics and the initial
    transformation are copied before use, the halving writes into the
    copy, and clipping makes new depth images.  A transformation that is
    returned lives in a blob allocated during the call and is a Float64
    tensor on the host, whatever the device and dtype of the inputs. *)
Theorem arguments_untouched (K : Kernels) (source target : RGBDImage)
    (intrinsics init : Tensor) (ds dm dd : scalar) (iterations : list Z)
    (m : Method) (s0 : State) :
  host_f64_poses K ->
  let r := RGBDOdometryMultiScale K source target intrinsics init ds dm dd
             iterations m s0 in
  (forall l, l < length (store s0) -> store (snd r) !! l = store s0 !! l)
  /\ (forall t, fst r = inr t ->
        exists l,
          t = TensorAt l
          /\ length (store s0) <= l < length (store (snd r))
          /\ tv_dtype (deref (snd r) t) = Float64
          /\ tv_device (deref (snd r) t) = host).
Proof.
  intros Hk r.
  destruct (decide (tv_device (deref s0 (depth_ target))
                    = tv_device (deref s0 (depth_ source)))) as [Hdev|Hdev].
  2:{ subst r. rewrite (entry_device_mismatch K _ _ _ _ _ _ _ _ _ _ Hdev).
      split; [reflexivity|]. intros t H. discriminate H. }
  destruct (entry_copies K source target intrinsics init ds dm dd iterations
              m s0 Hdev) as (li & lt & s4 & Hrun & L1 & L2 & L3 & P04 & Hf).
  subst r. rewrite Hrun.
  pose proof (pres_entry_rest K source target (TensorAt li) (TensorAt lt)
                ds dm dd iterations m s4) as P.
  destruct (entry_rest K source target (TensorAt li) (TensorAt lt) ds dm dd
              iterations m s4) as [res s'] eqn:E.
  cbn [fst snd] in *. split.
  - intros l Hl. destruct P as [_ P]. destruct P04 as [Hlen P0].
    rewrite P; [apply P0; [exact Hl|discriminate]|lia|].
    intros Eq. injection Eq as ->. lia.
  - intros t ->. unfold entry_rest in E.
    apply bind_inr in E. destruct E as (sp & s5 & E5 & E).
    apply bind_inr in E. destruct E as (tp & s6 & E6 & E).
    assert (P45 : preserved TensorEmpty s4 s5)
      by (pose proof (pres_ClipTransform TensorEmpty (depth_ source) ds (sZ 0)
                        dm NaN s4) as Q; rewrite E5 in Q; exact Q).
    assert (P56 : preserved TensorEmpty s5 s6)
      by (pose proof (pres_ClipTransform TensorEmpty (depth_ target) ds (sZ 0)
                        dm NaN s5) as Q; rewrite E6 in Q; exact Q).
    assert (P6 : preserved (TensorAt li) s6 s')
      by (pose proof (pres_dispatch K m (mkRGBD (color_ source) sp)
                        (mkRGBD (color_ target) tp) (TensorAt li) (TensorAt lt)
                        ds dm dd iterations s6) as Q; rewrite E in Q; exact Q).
    assert (P46 : preserved (TensorAt li) s4 s')
      by (eapply preserved_trans; [apply preserved_weaken;
            eapply preserved_trans; eauto|exact P6]).
    assert (Hb : length (store s0) <= length (store s6))
      by (destruct P04, P45, P56; lia).
    destruct (dispatch_result K (length (store s0)) _ _ _ _ _ _ _ _ _ _ _ _
                Hb E) as [->|(l & w & y & -> & Hl & Hd)].
    + exists lt. split; [reflexivity|]. destruct P46 as [Hlen _].
      split; [lia|].
      assert (Ed : deref s' (TensorAt lt) = deref s4 (TensorAt lt)).
      { eapply deref_preserved; [eapply preserved_trans;
          [apply preserved_weaken; eapply preserved_trans; eauto|exact P6]|].
        apply stable_at; lia. }
      rewrite Ed. exact Hf.
    + exists l. split; [reflexivity|]. split; [exact Hl|].
      rewrite Hd. exact (Hk w).
Qed.

Lemma demo_host_f64_poses : host_f64_poses Demo.K.
Proof. intros w. split; reflexivity. Qed.

Lemma arguments_untouched_witness :
  let r := Demo.run 8 8 [2; 1]%Z Intensity in
  firstn 6 (store (snd r)) = store (Demo.frames 8 8)
  /\ exists l, fst r = inr (TensorAt l) /\ 6 <= l
               /\ tv_dtype (deref (snd r) (TensorAt l)) = Float64.
Proof.
  intros r.
  destruct (arguments_untouched Demo.K Demo.source Demo.target (TensorAt 4)
              (TensorAt 5) (sZ 1000) (sZ 3) (Num (7 # 100)) [2; 1]%Z
              Intensity (Demo.frames 8 8) demo_host_f64_poses) as [_ Hres].
  split; [vm_compute; reflexivity|].
  destruct (Hres (TensorAt 43)) as (l & E & Hl & Hd & _);
    [vm_compute; reflexivity|].
  exists l. split; [rewrite <- E; vm_compute; reflexivity|].
  split; [exact (proj1 Hl)|]. rewrite <- E. exact Hd.
Defined.

(** * Further properties of the drivers *)

(** ** A driver called on its own *)

Section DriversAlone.

Context (K : Kernels).



End DriversAlone.



(** ** Schedules that run no iteration *)

Lemma level_count_idle iterations i :
  idle iterations -> level_count iterations i = 0.
Proof.
  intros H. unfold level_count.
  destruct (nth_in_or_default i iterations 0%Z) as [Hin | ->]; [|reflexivity].
  unfold idle in H. rewrite List.Forall_forall in H.
  specialize (H _ Hin). lia.
Qed.

Lemma odometry_val_idle pose iterations i t0 :
  idle iterations -> odometry_val pose iterations i t0 = t0.
Proof.
  intros H. unfold odometry_val.
  induction i as [|i IH]; [reflexivity|].
  rewrite seq_S, fold_left_app, IH. simpl.
  rewrite level_count_idle by exact H. reflexivity.
Qed.

Lemma schedule_idle m iterations i :
  idle iterations -> schedule m iterations i = [].
Proof.
  intros H. unfold schedule.
  induction i as [|i IH]; [reflexivity|].
  rewrite seq_S, flat_map_app, IH. simpl.
  rewrite level_count_idle by exact H. reflexivity.
Qed.

Lemma odometry_loop_idle iterations step trans s :
  idle iterations ->
  odometry_loop iterations step trans s = (inr trans, s).
Proof.
  intros H. unfold odometry_loop.
  assert (G : forall todo i,
            for_loop todo i
              (fun i trans => for_range (level_count iterations i) (step i)
                                trans) trans s = (inr trans, s)).
  { induction todo as [|k IH]; intros i; [reflexivity|].
    cbn [for_loop]. rewrite level_count_idle by exact H.
    unfold for_range at 1. cbn [for_loop]. rewrite bind_ret_pt. apply IH. }
  apply G.
Qed.

(** X2. When no level asks for an iteration (all counts are zero or
    negative, or the vector is empty), the entry point still clips the
    depth images and builds every pyramid level, runs no pose kernel, and
    returns the initial transformation as Float64 on the host. *)
Theorem idle_schedule_returns_initial_transform (K : Kernels)
    (source target : RGBDImage) (intrinsics init : Tensor)
    (ds dm dd : scalar) (iterations : list Z) (m : Method) (s0 : State) :
  let n := length iterations in
  is_enumerator m ->
  frames_ok n s0 source target init ->
  Forall (fun z => (z <= 0)%Z) iterations ->
  exists t s',
    RGBDOdometryMultiScale K source target intrinsics init ds dm dd
      iterations m s0 = (inr t, s')
    /\ deref s' t
       = mkTVal (tv_shape (deref s0 init)) Float64 host
           (tv_data (deref s0 init))
    /\ trace s' = trace s0 ++ [EvClipTransform; EvClipTransform]
                  ++ build_trace K m n (deref s0 (color_ source))
                       (deref s0 (color_ target)).
Proof.
  intros n Hm Hok Hidle.
  destruct (entry_spec K source target intrinsics init ds dm dd iterations
              m s0 Hm Hok) as (t & s' & Hrun & _ & Hd & Htr).
  exists t, s'. split; [exact Hrun|]. split.
  - rewrite Hd. unfold entry_val. rewrite odometry_val_idle by exact Hidle.
    reflexivity.
  - rewrite Htr, schedule_idle by exact Hidle.
    rewrite app_nil_r. reflexivity.
Qed.

Lemma idle_schedule_returns_initial_transform_witness :
  exists t s',
    Demo.run 8 8 [0; -3]%Z PointToPlane = (inr t, s')
    /\ deref s' t = Demo.eye4_val
    /\ trace s' = [EvClipTransform; EvClipTransform; EvCreateVertexMap;
                   EvCreateVertexMap; EvCreateNormalMap; EvPyrDownDepth;
                   EvPyrDownDepth; EvCreateVertexMap; EvCreateVertexMap;
                   EvCreateNormalMap].
Proof.
  destruct (idle_schedule_returns_initial_transform Demo.K Demo.source
              Demo.target (TensorAt 4) (TensorAt 5) (sZ 1000) (sZ 3)
              (Num (7 # 100)) [0; -3]%Z PointToPlane (Demo.frames 8 8))
    as (t & s' & Hrun & Hd & Htr).
  - exact I.
  - apply demo_frames_ok; simpl; lia.
  - repeat constructor; lia.
  - exists t, s'. split; [exact Hrun|]. split; [exact Hd|exact Htr].
Defined.

(** X3. A driver that runs no iteration hands back the very tensor it
    was given as initial transformation, not a copy of it. *)
Theorem idle_driver_returns_its_argument (K : Kernels) (driver : Driver)
    (source target : RGBDImage) (li : nat) (trans : Tensor)
    (ds dm dd : scalar) (iterations : list Z) (s0 : State) :
  let n := length iterations in
  In driver [RGBDOdometryMultiScalePointToPlane K;
             RGBDOdometryMultiScaleIntensity K;
             RGBDOdometryMultiScaleHybrid K] ->
  stable (TensorAt li) s0 (depth_ source) ->
  stable (TensorAt li) s0 (depth_ target) ->
  valid s0 (color_ source) -> valid s0 (color_ target) ->
  valid s0 (TensorAt li) ->
  depth_fits n (deref s0 (depth_ source)) ->
  depth_fits n (deref s0 (depth_ target)) ->
  Forall (fun z => (z <= 0)%Z) iterations ->
  exists s',
    driver source target (TensorAt li) trans ds dm dd iterations s0
    = (inr trans, s').
Proof.
  intros n Hin Hs Ht Hcs Hct Hv Hfs Hft Hidle.
  destruct Hin as [<-|[<-|[<-|[]]]].
  - destruct (PyramidPointToPlane_spec K source target li dd iterations s0
                Hs Ht Hv) as (levels & s1 & R & _).
    { intros j Hj. eapply p2p_fits_ok; eauto. }
    exists s1. unfold RGBDOdometryMultiScalePointToPlane.
    rewrite (bind_run _ _ _ _ _ R), OdometryPointToPlane_loop.
    apply odometry_loop_idle, Hidle.
  - destruct (PyramidIntensity_spec K source target li dd iterations s0
                Hs Ht Hcs Hct Hv) as (levels & s1 & R & _).
    { intros j Hj. eapply i_fits_ok; eauto. }
    exists s1. unfold RGBDOdometryMultiScaleIntensity.
    rewrite (bind_run _ _ _ _ _ R), OdometryIntensity_loop.
    apply odometry_loop_idle, Hidle.
  - destruct (PyramidHybrid_spec K source target li dd iterations s0
                Hs Ht Hcs Hct Hv) as (levels & s1 & R & _).
    { intros j Hj. eapply i_fits_ok; eauto. }
    exists s1. unfold RGBDOdometryMultiScaleHybrid.
    rewrite (bind_run _ _ _ _ _ R), OdometryHybrid_loop.
    apply odometry_loop_idle, Hidle.
Qed.

Lemma idle_driver_returns_its_argument_witness :
  exists s',
    RGBDOdometryMultiScaleIntensity Demo.K Demo.source Demo.target
      (TensorAt 4) (TensorAt 5) (sZ 1000) (sZ 3) (Num (7 # 100)) [0; 0]%Z
      (Demo.frames 8 8) = (inr (TensorAt 5), s').
Proof.
  apply (idle_driver_returns_its_argument Demo.K
           (RGBDOdometryMultiScaleIntensity Demo.K) Demo.source Demo.target 4
           (TensorAt 5) (sZ 1000) (sZ 3) (Num (7 # 100)) [0; 0]%Z
           (Demo.frames 8 8));
    try (apply demo_stable; lia); try (simpl; lia).
  - right. left. reflexivity.
  - vm_compute. repeat split; intros H; discriminate H.
  - vm_compute. repeat split; intros H; discriminate H.
  - repeat constructor; lia.
Defined.

(** ** Negative iteration counts *)

Lemma to_nat_clamp iterations i :
  Z.to_nat (nth i (map (Z.max 0) iterations) 0%Z)
  = Z.to_nat (nth i iterations 0%Z).
Proof.
  change 0%Z with (Z.max 0 0) at 2. rewrite map_nth. lia.
Qed.

(** X4. A negative iteration count is a count of zero: replacing every
    negative entry of the vector by 0 changes neither the result nor the
    state the call ends in, for every method and every input. *)
Theorem negative_counts_are_zero (K : Kernels) (source target : RGBDImage)
    (intrinsics init : Tensor) (ds dm dd : scalar) (iterations : list Z)
    (m : Method) (s0 : State) :
  RGBDOdometryMultiScale K source target intrinsics init ds dm dd
    (map (Z.max 0) iterations) m s0
  = RGBDOdometryMultiScale K source target intrinsics init ds dm dd
      iterations m s0.
Proof.
  unfold RGBDOdometryMultiScale.
  repeat (apply bind_congr; intros ? ?).
  destruct m; [| | |reflexivity].
  - unfold RGBDOdometryMultiScalePointToPlane, PyramidPointToPlane,
      OdometryPointToPlane. cbv zeta. rewrite !length_map.
    apply bind_congr; intros levels s1.
    apply for_loop_ext. intros i t s2. rewrite to_nat_clamp. reflexivity.
  - unfold RGBDOdometryMultiScaleIntensity, PyramidIntensity,
      OdometryIntensity. cbv zeta. rewrite !length_map.
    apply bind_congr; intros levels s1.
    apply for_loop_ext. intros i t s2. rewrite to_nat_clamp. reflexivity.
  - unfold RGBDOdometryMultiScaleHybrid, PyramidHybrid, OdometryHybrid.
    cbv zeta. rewrite !length_map.
    apply bind_congr; intros levels s1.
    apply for_loop_ext. intros i t s2. rewrite to_nat_clamp. reflexivity.
Qed.

(** ** Frames a pyramid cannot be built from *)





Lemma depth_fits_dec n v : {depth_fits n v} + {~ depth_fits n v}.
Proof.
  unfold depth_fits.
  destruct (Z.eq_dec (GetChannels v) 1%Z); [|right; tauto].
  destruct (decide (tv_dtype v = Float32)); [|right; tauto].
  destruct (Z_le_dec (2 ^ Z.of_nat (n - 2)) (GetRows v)); [|right; tauto].
  destruct (Z_le_dec (2 ^ Z.of_nat (n - 2)) (GetCols v));
    [left; tauto|right; tauto].
Qed.

Section PyramidFailure.

Context {C L : Type} (cfields : C -> list Tensor) (lfields : L -> list Tensor).

Context (li : nat).

Context (make_level : C -> M L) (down : C -> M C).

Context (mk : list TVal -> TVal -> list TVal).

Context (dn : list TVal -> list TVal) (dn_ok : list TVal -> Prop).

Context (ev_mk ev_dn : list Event).

Context (n : nat) (dflt : L).

Context (bad : Error -> Prop).

Hypothesis make_level_spec : forall s c,
  Forall (stable (TensorAt li) s) (cfields c) -> valid s (TensorAt li) ->
  exists lv s',
    make_level c s = (inr lv, s')
    /\ preserved TensorEmpty s s'
    /\ Forall (stable (TensorAt li) s') (lfields lv)
    /\ map (deref s') (lfields lv)
       = mk (map (deref s) (cfields c)) (deref s (TensorAt li))
    /\ trace s' = trace s ++ ev_mk.

Hypothesis down_spec : forall s c,
  Forall (stable (TensorAt li) s) (cfields c) -> valid s (TensorAt li) ->
  dn_ok (map (deref s) (cfields c)) ->
  exists c' s',
    down c s = (inr c', s')
    /\ preserved TensorEmpty s s'
    /\ Forall (stable (TensorAt li) s') (cfields c')
    /\ map (deref s') (cfields c') = dn (map (deref s) (cfields c))
    /\ trace s' = trace s ++ ev_dn.

Hypothesis down_fail : forall s c,
  Forall (stable (TensorAt li) s) (cfields c) -> valid s (TensorAt li) ->
  ~ dn_ok (map (deref s) (cfields c)) ->
  exists e s', down c s = (inl e, s') /\ bad e /\ preserved TensorEmpty s s'.



End PyramidFailure.

Section Rejection.

Context (K : Kernels).











End Rejection.



(** ** How many kernels a call launches *)

Lemma kernel_count_app e a b :
  kernel_count e (a ++ b) = kernel_count e a + kernel_count e b.
Proof. apply count_occ_app. Qed.

Lemma kernel_count_pyramid_events e ev_mk ev_dn n i :
  i <= n ->
  kernel_count e (pyramid_events ev_mk ev_dn n i)
  = i * kernel_count e ev_mk + Nat.min i (n - 1) * kernel_count e ev_dn.
Proof.
  unfold pyramid_events. induction i as [|i IH]; intros Hi; [reflexivity|].
  rewrite seq_S, flat_map_app, kernel_count_app, IH by lia.
  cbn [flat_map Nat.add]. rewrite app_nil_r, kernel_count_app.
  destruct (Nat.eqb_spec i (n - 1)) as [->|Hne].
  - rewrite Nat.min_l, Nat.min_r by lia. cbn [kernel_count count_occ]. lia.
  - rewrite !Nat.min_l by lia. lia.
Qed.

Lemma kernel_count_schedule e m iterations i :
  is_pose e = false -> kernel_count e (schedule m iterations i) = 0.
Proof.
  intros He. unfold schedule, kernel_count. apply count_occ_not_In.
  intros Hin. apply in_flat_map in Hin. destruct Hin as (l & _ & Hin).
  apply in_map_iff in Hin. destruct Hin as (k & <- & _). discriminate He.
Qed.

Lemma kernel_count_gray K e v :
  e <> EvImageTo ->
  kernel_count e (gray_events K v) = if decide (e = EvRGBToGray) then 1 else 0.
Proof.
  intros He. unfold gray_events, kernel_count.
  destruct (decide (tv_dtype (k_RGBToGray K v) = Float32));
    cbn [count_occ];
    destruct (Event_eq_dec EvRGBToGray e) as [<-|H1];
    destruct (decide (_ = EvRGBToGray)) as [E|E];
    try congruence; try reflexivity;
    destruct (Event_eq_dec EvImageTo e); congruence.
Qed.

(** X6. The kernels one call launches, for [n] levels: two depth
    clippings; per level one vertex map (two for the point-to-plane
    method, which also computes a normal map) and, for the intensity and
    hybrid methods, one Sobel filter (two for hybrid); the last level is
    not down-sampled, so each depth image and each intensity image is
    down-sampled [n - 1] times; colour is converted to gray once per
    frame, and never for the point-to-plane method. *)
Theorem kernels_launched (K : Kernels) (source target : RGBDImage)
    (intrinsics init : Tensor) (ds dm dd : scalar) (iterations : list Z)
    (m : Method) (s0 : State) :
  let n := length iterations in
  is_enumerator m ->
  frames_ok n s0 source target init ->
  exists t s' evs,
    RGBDOdometryMultiScale K source target intrinsics init ds dm dd
      iterations m s0 = (inr t, s')
    /\ trace s' = trace s0 ++ evs
    /\ kernel_count EvClipTransform evs = 2
    /\ kernel_count EvPyrDownDepth evs = 2 * (n - 1)
    /\ kernel_count EvCreateVertexMap evs
       = match m with PointToPlane => 2 * n | _ => n end
    /\ kernel_count EvCreateNormalMap evs
       = match m with PointToPlane => n | _ => 0 end
    /\ kernel_count EvFilterSobel evs
       = match m with PointToPlane => 0 | Hybrid => 2 * n | _ => n end
    /\ kernel_count EvPyrDown evs
       = match m with PointToPlane => 0 | _ => 2 * (n - 1) end
    /\ kernel_count EvRGBToGray evs
       = match m with PointToPlane => 0 | _ => 2 end.
Proof.
  intros n Hm Hok.
  destruct (entry_spec K source target intrinsics init ds dm dd iterations
              m s0 Hm Hok) as (t & s' & Hrun & _ & _ & Htr).
  exists t, s'. eexists. split; [exact Hrun|]. split; [exact Htr|].
  fold n.
  assert (Hmin : Nat.min n (n - 1) = n - 1) by lia.
  destruct m as [| | |z]; [| | |contradiction];
    unfold build_trace, i_trace, h_trace;
    rewrite ?kernel_count_app, !kernel_count_schedule by reflexivity;
    rewrite !kernel_count_pyramid_events by lia;
    rewrite ?kernel_count_gray by discriminate;
    rewrite Hmin; cbn; repeat (case_decide; try congruence);
    repeat split; lia.
Qed.

Lemma kernels_launched_witness :
  exists t s' evs,
    Demo.run 8 8 [1; 1; 1]%Z Hybrid = (inr t, s')
    /\ trace s' = evs
    /\ kernel_count EvFilterSobel evs = 6
    /\ kernel_count EvPyrDownDepth evs = 4.
Proof.
  destruct (kernels_launched Demo.K Demo.source Demo.target (TensorAt 4)
              (TensorAt 5) (sZ 1000) (sZ 3) (Num (7 # 100)) [1; 1; 1]%Z
              Hybrid (Demo.frames 8 8))
    as (t & s' & evs & Hrun & Htr & _ & Hd & _ & _ & Hf & _).
  - exact I.
  - apply demo_frames_ok; simpl; lia.
  - exists t, s', evs. split; [exact Hrun|]. split; [exact Htr|].
    split; [exact Hf|exact Hd].
Defined.

(** ** The hybrid pyramid against the intensity pyramid *)

(** X7. On the same frames the hybrid pyramid holds, level by level, what
    the intensity pyramid holds (depth and intensity images, source
    vertex map, intensity gradients, intrinsic matrix), and in addition
    the two Sobel gradients of that level's target depth image. *)
Theorem hybrid_pyramid_extends_intensity (K : Kernels)
    (source target : RGBDImage) (li : nat) (dd : scalar)
    (iterations : list Z) (s0 : State) :
  let n := length iterations in
  stable (TensorAt li) s0 (depth_ source) ->
  stable (TensorAt li) s0 (depth_ target) ->
  valid s0 (color_ source) -> valid s0 (color_ target) ->
  valid s0 (TensorAt li) ->
  depth_fits n (deref s0 (depth_ source)) ->
  depth_fits n (deref s0 (depth_ target)) ->
  exists i_levels s1 h_levels s2,
    PyramidIntensity K source target (TensorAt li) dd iterations s0
    = (inr i_levels, s1)
    /\ PyramidHybrid K source target (TensorAt li) dd iterations s0
       = (inr h_levels, s2)
    /\ forall k, k < n ->
         let a := nth k i_levels LevelIntensity_default in
         let b := nth k h_levels LevelHybrid_default in
         deref s2 (h_source_depth b) = deref s1 (i_source_depth a)
         /\ deref s2 (h_target_depth b) = deref s1 (i_target_depth a)
         /\ deref s2 (h_source_intensity b) = deref s1 (i_source_intensity a)
         /\ deref s2 (h_target_intensity b) = deref s1 (i_target_intensity a)
         /\ deref s2 (h_source_vertex_map b)
            = deref s1 (i_source_vertex_map a)
         /\ deref s2 (h_target_intensity_dx b)
            = deref s1 (i_target_intensity_dx a)
         /\ deref s2 (h_target_intensity_dy b)
            = deref s1 (i_target_intensity_dy a)
         /\ deref s2 (h_intrinsic_matrix b) = deref s1 (i_intrinsic_matrix a)
         /\ deref s2 (h_target_depth_dx b)
            = fst (k_FilterSobel K (deref s2 (h_target_depth b)))
         /\ deref s2 (h_target_depth_dy b)
            = snd (k_FilterSobel K (deref s2 (h_target_depth b))).
Proof.
  intros n Hs Ht Hcs Hct Hv Hfs Hft.
  destruct (PyramidIntensity_spec K source target li dd iterations s0
              Hs Ht Hcs Hct Hv) as (i_levels & s1 & R1 & _ & Hl1 & _).
  { intros j Hj. eapply i_fits_ok; eauto. }
  destruct (PyramidHybrid_spec K source target li dd iterations s0
              Hs Ht Hcs Hct Hv) as (h_levels & s2 & R2 & _ & Hl2 & _).
  { intros j Hj. eapply i_fits_ok; eauto. }
  exists i_levels, s1, h_levels, s2.
  split; [exact R1|]. split; [exact R2|].
  intros k Hk a b.
  destruct (Hl1 k Hk) as [_ E1]. destruct (Hl2 k Hk) as [_ E2].
  fold a in E1. fold b in E2.
  unfold i_level_spec, h_level_spec, level_spec in E1, E2.
  rewrite i_dn_iter in E1, E2.
  unfold i_lfields, i_mk in E1. unfold h_lfields, h_mk in E2.
  cbn [map] in E1, E2.
  injection E1 as A1 A2 A3 A4 A5 A6 A7 A8.
  injection E2 as B1 B2 B3 B4 B5 B6 B7 B8 B9 B10.
  rewrite A1, A2, A3, A4, A5, A6, A7, A8, B1, B2, B3, B4, B5, B6, B7, B8,
    B9, B10.
  repeat split; reflexivity.
Qed.

Lemma hybrid_pyramid_extends_intensity_witness :
  exists i_levels s1 h_levels s2,
    PyramidIntensity Demo.K Demo.source Demo.target (TensorAt 4)
      (Num (7 # 100)) [1; 1]%Z (Demo.frames 8 8) = (inr i_levels, s1)
    /\ PyramidHybrid Demo.K Demo.source Demo.target (TensorAt 4)
         (Num (7 # 100)) [1; 1]%Z (Demo.frames 8 8) = (inr h_levels, s2)
    /\ deref s2 (h_source_vertex_map (nth 0 h_levels LevelHybrid_default))
       = deref s1 (i_source_vertex_map
                     (nth 0 i_levels LevelIntensity_default)).
Proof.
  destruct (hybrid_pyramid_extends_intensity Demo.K Demo.source Demo.target
              4 (Num (7 # 100)) [1; 1]%Z (Demo.frames 8 8))
    as (i_levels & s1 & h_levels & s2 & R1 & R2 & H);
    try (apply demo_stable; lia); try (simpl; lia).
  - vm_compute. repeat split; intros H; discriminate H.
  - vm_compute. repeat split; intros H; discriminate H.
  - exists i_levels, s1, h_levels, s2. split; [exact R1|]. split; [exact R2|].
    destruct (H 0) as (_ & _ & _ & _ & E & _); [simpl; lia|]. exact E.
Defined.

(** * The configuration reader of the ICP demo *)

(** ** Lines *)

Lemma erase_spaces_app a b :
  erase_spaces (a ++ b)%string = (erase_spaces a ++ erase_spaces b)%string.
Proof.
  induction a as [|c a IH]; [reflexivity|].
  cbn [String.append erase_spaces]. destruct (isspace c); [exact IH|].
  cbn [String.append]. rewrite IH. reflexivity.
Qed.

Lemma erase_spaces_blank ws :
  Forall (fun c => isspace c = true) (list_ascii_of_string ws) ->
  erase_spaces ws = EmptyString.
Proof.
  induction ws as [|c ws IH]; intros H; [reflexivity|].
  cbn [list_ascii_of_string] in H. inversion H as [|? ? Hc Hrest]; subst.
  cbn [erase_spaces]. rewrite Hc. apply IH, Hrest.
Qed.

Lemma find_delimiter_app a b :
  find_delimiter a = None ->
  find_delimiter (a ++ String "="%char b)%string = Some (String.length a).
Proof.
  induction a as [|c a IH]; intros H; [reflexivity|].
  cbn [String.append find_delimiter String.length] in *.
  destruct (Ascii.eqb c "="); [discriminate|].
  destruct (find_delimiter a); [discriminate|].
  rewrite IH by reflexivity. reflexivity.
Qed.

Lemma substring_all s : substring 0 (String.length s) s = s.
Proof.
  induction s as [|c s IH]; [reflexivity|]. simpl. rewrite IH. reflexivity.
Qed.

Lemma substring_prefix a b :
  substring 0 (String.length a) (a ++ b)%string = a.
Proof.
  induction a as [|c a IH]; [destruct b; reflexivity|].
  simpl. rewrite IH. reflexivity.
Qed.

Lemma substring_suffix a c b :
  substring (String.length a + 1)
    (String.length (a ++ String c b)%string - (String.length a + 1))
    (a ++ String c b)%string = b.
Proof.
  induction a as [|x a IH].
  - cbn [String.append String.length Nat.add substring].
    replace (S (String.length b) - 1) with (String.length b) by lia.
    apply substring_all.
  - cbn [String.append String.length Nat.add substring].
    exact IH.
Qed.

Lemma split_at_delimiter name value :
  find_delimiter name = None ->
  name_of (name ++ String "="%char value)%string = name
  /\ value_of (name ++ String "="%char value)%string = value.
Proof.
  intros H. unfold name_of, value_of. rewrite (find_delimiter_app _ _ H).
  split; [apply substring_prefix|apply substring_suffix].
Qed.

(** X8. A line is split at its first ["="]: for a name without ["="], the
    line [name=value] yields exactly that name and that value, whatever
    the value contains (further ["="] included). *)
Theorem line_splits_at_first_delimiter (name value : string) :
  find_delimiter name = None ->
  name_of (name ++ "=" ++ value)%string = name
  /\ value_of (name ++ "=" ++ value)%string = value.
Proof. apply split_at_delimiter. Qed.

Lemma line_splits_at_first_delimiter_witness :
  name_of "dataset_path=/data/a=b/" = "dataset_path"%string
  /\ value_of "dataset_path=/data/a=b/" = "/data/a=b/"%string.
Proof.
  apply (line_splits_at_first_delimiter "dataset_path" "/data/a=b/").
  reflexivity.
Defined.

Section ReaderLines.

Context (stoi : string -> Exception + Z) (stod : string -> Exception + Q).

Lemma assign_empty st : assign stoi stod EmptyString EmptyString st = inr st.
Proof. destruct st as [w l]. reflexivity. Qed.

Lemma read_line_erased line st :
  read_line stoi stod line st
  = (if skipped (erase_spaces line) then inr st
     else assign stoi stod (name_of (erase_spaces line))
            (value_of (erase_spaces line)) st).
Proof. reflexivity. Qed.

End ReaderLines.

(** X9. White space is insignificant anywhere in a line: inserting a
    space, tab or other [isspace] character at any position, inside a
    key or a value too, changes nothing in what the line does. *)
Theorem whitespace_is_insignificant
    (stoi : string -> Exception + Z) (stod : string -> Exception + Q)
    (before after : string) (c : ascii) (st : ExampleWindow * Locals) :
  isspace c = true ->
  read_line stoi stod (before ++ String c after)%string st
  = read_line stoi stod (before ++ after)%string st.
Proof.
  intros Hc. rewrite !read_line_erased, !erase_spaces_app.
  cbn [erase_spaces]. rewrite Hc. reflexivity.
Qed.

Lemma whitespace_is_insignificant_witness :
  read_line DemoReader.stoi DemoReader.stod "end _range = 7"
    (DemoReader.window, DemoReader.locals)
  = read_line DemoReader.stoi DemoReader.stod "end_range = 7"
      (DemoReader.window, DemoReader.locals).
Proof.
  apply (whitespace_is_insignificant DemoReader.stoi DemoReader.stod
           "end" "_range = 7" " "%char).
  reflexivity.
Defined.

(** X10. Comment lines and blank lines do nothing: a line whose first
    character after any white space is ["#"], and a line of white space
    only (the empty line included), leave members and locals as they
    are and cannot fail. *)
Theorem comments_and_blank_lines_are_skipped
    (stoi : string -> Exception + Z) (stod : string -> Exception + Q)
    (ws rest : string) (st : ExampleWindow * Locals) :
  Forall (fun c => isspace c = true) (list_ascii_of_string ws) ->
  read_line stoi stod (ws ++ String "#"%char rest)%string st = inr st
  /\ read_line stoi stod ws st = inr st.
Proof.
  intros H. rewrite !read_line_erased, erase_spaces_app.
  rewrite (erase_spaces_blank _ H). split; reflexivity.
Qed.

Lemma comments_and_blank_lines_are_skipped_witness :
  read_line DemoReader.stoi DemoReader.stod "   # end_range = x"
    (DemoReader.window, DemoReader.locals)
  = inr (DemoReader.window, DemoReader.locals).
Proof.
  apply (comments_and_blank_lines_are_skipped DemoReader.stoi DemoReader.stod
           "   " " end_range = x").
  repeat constructor.
Defined.

(** X11. A key the reader does not know is ignored without any
    diagnostic: the line changes nothing and cannot fail, whatever its
    value.  Keys are compared exactly, so a misspelt key is such a key. *)
Theorem unknown_keys_are_ignored
    (stoi : string -> Exception + Z) (stod : string -> Exception + Q)
    (line : string) (st : ExampleWindow * Locals) :
  ~ In (name_of (erase_spaces line))
       ["dataset_path"; "end_range"; "registration_method";
        "criteria.relative_fitness"; "criteria.relative_rmse";
        "criteria.max_iterations"; "voxel_size"; "search_radii";
        "verbosity"; "ground_truth_tx"; "ground_truth_ty"]%string ->
  read_line stoi stod line st = inr st.
Proof.
  intros Hn. rewrite read_line_erased.
  destruct (skipped (erase_spaces line)); [reflexivity|].
  destruct st as [w l]. unfold assign.
  repeat match goal with
         | |- context [String.eqb ?n ?k] =>
             destruct (String.eqb_spec n k) as [E|_];
             [exfalso; apply Hn; rewrite E; simpl; tauto|]
         end.
  reflexivity.
Qed.

Lemma unknown_keys_are_ignored_witness :
  read_line DemoReader.stoi DemoReader.stod "voxel_sizes = x"
    (DemoReader.window, DemoReader.locals)
  = inr (DemoReader.window, DemoReader.locals).
Proof.
  apply (unknown_keys_are_ignored DemoReader.stoi DemoReader.stod
           "voxel_sizes = x").
  vm_compute. intros H.
  repeat (destruct H as [H|H]; [discriminate H|]). exact H.
Defined.

(** X12. A line without ["="] is read as if it were written
    [line=line]: the search for the delimiter fails, and then both the
    name and the value are the whole line.  So the line
    [registration_method] sets the method to the string
    ["registration_method"]. *)
Theorem line_without_delimiter_is_its_own_value
    (stoi : string -> Exception + Z) (stod : string -> Exception + Q)
    (line : string) (st : ExampleWindow * Locals) :
  find_delimiter (erase_spaces line) = None ->
  read_line stoi stod line st
  = read_line stoi stod (line ++ "=" ++ line)%string st.
Proof.
  intros H. rewrite !read_line_erased, !erase_spaces_app.
  change (erase_spaces "=") with "="%string.
  set (l := erase_spaces line) in *.
  destruct (split_at_delimiter l l H) as [En Ev].
  cbn [String.append]. rewrite En, Ev.
  unfold name_of, value_of. rewrite H.
  destruct l as [|c r]; [|reflexivity].
  cbn [skipped String.append]. symmetry. apply assign_empty.
Qed.

Lemma line_without_delimiter_is_its_own_value_witness :
  read_line DemoReader.stoi DemoReader.stod "registration_method"
    (DemoReader.window, DemoReader.locals)
  = inr (set_registration_method "registration_method" DemoReader.window,
         DemoReader.locals).
Proof.
  rewrite (line_without_delimiter_is_its_own_value DemoReader.stoi
             DemoReader.stod "registration_method") by reflexivity.
  reflexivity.
Defined.

(** ** The loop over the lines *)

Lemma values_for_cons key line lines :
  values_for key (line :: lines)
  = values_for key [line] ++ values_for key lines.
Proof. unfold values_for. cbn [flat_map]. rewrite app_nil_r. reflexivity. Qed.

Lemma values_for_one key line :
  values_for key [line]
  = if negb (skipped (erase_spaces line))
       && String.eqb (name_of (erase_spaces line)) key
    then [value_of (erase_spaces line)] else [].
Proof. unfold values_for. cbn [flat_map]. apply app_nil_r. Qed.

Lemma numbers_app {A} (parse : string -> Exception + A) a b :
  numbers parse (a ++ b) = numbers parse a ++ numbers parse b.
Proof. apply flat_map_app. Qed.

Lemma last_app_default {A} (a b : list A) d :
  List.last (a ++ b) d = List.last b (List.last a d).
Proof.
  revert a. induction b as [|x b IH] using rev_ind; intros a.
  - rewrite app_nil_r. reflexivity.
  - rewrite app_assoc, !List.last_last. reflexivity.
Qed.

Section ReaderLoop.

Context (stoi : string -> Exception + Z) (stod : string -> Exception + Q).

Lemma read_effect_nil st : read_effect stoi stod [] st st.
Proof.
  unfold read_effect. cbn. rewrite !app_nil_r. repeat split; reflexivity.
Qed.

Lemma read_effect_cons line lines st st1 st2 :
  read_effect stoi stod [line] st st1 ->
  read_effect stoi stod lines st1 st2 ->
  read_effect stoi stod (line :: lines) st st2.
Proof.
  unfold read_effect.
  intros (A1 & A2 & A3 & A4 & A5 & A6 & A7 & A8 & A9 & A10 & A11 & A12 & A13
          & A14)
         (B1 & B2 & B3 & B4 & B5 & B6 & B7 & B8 & B9 & B10 & B11 & B12 & B13
          & B14).
  rewrite !(values_for_cons _ line lines), !numbers_app, !last_app_default.
  rewrite B1, B2, B3, B4, B5, B6, B7, B8, B9, B10, B11, B12, B13, B14.
  rewrite A1, A2, A3, A4, A5, A6, A7, A8, A9, A10, A11, A12, A13, A14.
  rewrite <- !app_assoc. repeat split; reflexivity.
Qed.

Ltac key_cases :=
  repeat match goal with
         | |- context [String.eqb ?n ?k] =>
             is_var n;
             destruct (String.eqb_spec n k) as [->|?]
         end.

Lemma read_effect_one line st st1 :
  read_line stoi stod line st = inr st1 ->
  read_effect stoi stod [line] st st1.
Proof.
  rewrite read_line_erased. unfold read_effect.
  rewrite !values_for_one.
  destruct (skipped (erase_spaces line)).
  - intros H. injection H as <-. cbn. rewrite !app_nil_r.
    repeat split; reflexivity.
  - generalize (name_of (erase_spaces line)) as name.
    generalize (value_of (erase_spaces line)) as value.
    intros value name. destruct st as [w l]. unfold assign.
    cbn [negb andb fst snd].
    key_cases; cbn;
      try (destruct (stoi value) as [e|x] eqn:Ei; [discriminate|]);
      try (destruct (stod value) as [e|y] eqn:Ed; [discriminate|]);
      intros H; injection H as <-; cbn; rewrite ?app_nil_r;
      repeat split; reflexivity.
Qed.

Lemma read_lines_effect lines : forall st st',
  read_lines stoi stod lines st = inr st' ->
  read_effect stoi stod lines st st'.
Proof.
  induction lines as [|line lines IH]; intros st st' H.
  - injection H as <-. apply read_effect_nil.
  - cbn [read_lines] in H.
    destruct (read_line stoi stod line st) as [e|st1] eqn:E1; [discriminate|].
    eapply read_effect_cons; [apply read_effect_one; exact E1|].
    apply IH, H.
Qed.

End ReaderLoop.

(** X13. What the loop over the lines does when it ends well.  Each
    vector (voxel sizes, search radii, and the three criteria vectors)
    has grown by the values of its key, in the order of the file; each
    scalar (dataset path, registration method, verbosity word, end of
    range, ground truth) holds the value of the last line with its key,
    or what it held before when there is none; keys do not interfere
    with each other, and the criteria, the estimation method and the
    verbosity level are not touched by the loop. *)
Theorem keys_accumulate_in_file_order
    (stoi : string -> Exception + Z) (stod : string -> Exception + Q)
    (lines : list string) (w w' : ExampleWindow) (l l' : Locals) :
  read_lines stoi stod lines (w, l) = inr (w', l') ->
  voxel_sizes_ w'
  = voxel_sizes_ w ++ numbers stod (values_for "voxel_size" lines)
  /\ search_radius_ w'
     = search_radius_ w ++ numbers stod (values_for "search_radii" lines)
  /\ relative_fitness l'
     = relative_fitness l
       ++ numbers stod (values_for "criteria.relative_fitness" lines)
  /\ relative_rmse l'
     = relative_rmse l
       ++ numbers stod (values_for "criteria.relative_rmse" lines)
  /\ max_iterations l'
     = max_iterations l
       ++ numbers stoi (values_for "criteria.max_iterations" lines)
  /\ path_dataset w'
     = List.last (values_for "dataset_path" lines) (path_dataset w)
  /\ registration_method_ w'
     = List.last (values_for "registration_method" lines)
         (registration_method_ w)
  /\ verb l' = List.last (values_for "verbosity" lines) (verb l)
  /\ end_range_ w'
     = List.last (numbers stoi (values_for "end_range" lines)) (end_range_ w)
  /\ gt_tx_ w'
     = List.last (numbers stod (values_for "ground_truth_tx" lines)) (gt_tx_ w)
  /\ gt_ty_ w'
     = List.last (numbers stod (values_for "ground_truth_ty" lines)) (gt_ty_ w)
  /\ criterias_ w' = criterias_ w
  /\ estimation_ w' = estimation_ w
  /\ verbosity_ w' = verbosity_ w.
Proof. intros H. exact (read_lines_effect stoi stod lines _ _ H). Qed.

Lemma keys_accumulate_in_file_order_witness :
  exists w' l',
    read_lines DemoReader.stoi DemoReader.stod DemoReader.config
      (DemoReader.window, DemoReader.locals) = inr (w', l')
    /\ voxel_sizes_ w' = [inject_Z 3; inject_Z 2; inject_Z 1]
    /\ max_iterations l' = [20; 15; 10]%Z
    /\ registration_method_ w' = "PointToPlane"%string.
Proof.
  destruct (read_lines DemoReader.stoi DemoReader.stod DemoReader.config
              (DemoReader.window, DemoReader.locals)) as [e|[w' l']] eqn:E;
    [vm_compute in E; discriminate E|].
  exists w', l'. split; [reflexivity|].
  destruct (keys_accumulate_in_file_order DemoReader.stoi DemoReader.stod
              DemoReader.config DemoReader.window w' DemoReader.locals l' E)
    as (Hv & _ & _ & _ & Hm & _ & Hr & _).
  rewrite Hv, Hm, Hr. vm_compute. auto.
Defined.

(** ** When the loop fails *)

Lemma int_values_cons line lines v :
  In v (int_values (line :: lines))
  <-> In v (int_values [line]) \/ In v (int_values lines).
Proof.
  unfold int_values. rewrite !(values_for_cons _ line lines).
  rewrite !in_app_iff. tauto.
Qed.

Lemma real_values_cons line lines v :
  In v (real_values (line :: lines))
  <-> In v (real_values [line]) \/ In v (real_values lines).
Proof.
  unfold real_values. rewrite !(values_for_cons _ line lines).
  rewrite !in_app_iff. tauto.
Qed.

Section ReaderFailure.

Context (stoi : string -> Exception + Z) (stod : string -> Exception + Q).

Ltac key_cases :=
  repeat match goal with
         | |- context [String.eqb ?n ?k] =>
             is_var n;
             destruct (String.eqb_spec n k) as [->|?]
         end.

Lemma read_line_succeeds line st :
  (exists st', read_line stoi stod line st = inr st')
  <-> (forall v, In v (int_values [line]) -> exists x, stoi v = inr x)
      /\ (forall v, In v (real_values [line]) -> exists y, stod v = inr y).
Proof.
  rewrite read_line_erased. unfold int_values, real_values.
  rewrite !values_for_one.
  destruct (skipped (erase_spaces line)).
  - cbn. split; [|eauto]. intros _. split; intros v [].
  - generalize (name_of (erase_spaces line)) as name.
    generalize (value_of (erase_spaces line)) as value.
    intros value name. destruct st as [w l]. unfold assign.
    cbn [negb andb].
    key_cases; cbn;
      (split;
       [ intros [st' H]; split; intros v Hv;
         repeat (destruct Hv as [<-|Hv]); try contradiction;
         try (revert H;
              match goal with
              | |- match ?p with _ => _ end = _ -> _ =>
                  destruct p; [discriminate|eauto]
              end)
       | intros [Hi Hd];
         try (destruct (Hi value) as [x ->]; [tauto|]);
         try (destruct (Hd value) as [y ->]; [tauto|]);
         eauto ]).
Qed.

Lemma read_lines_succeed lines : forall st,
  (exists st', read_lines stoi stod lines st = inr st')
  <-> (forall v, In v (int_values lines) -> exists x, stoi v = inr x)
      /\ (forall v, In v (real_values lines) -> exists y, stod v = inr y).
Proof.
  induction lines as [|line lines IH]; intros st.
  - cbn. split; [|eauto]. intros _. split; intros v [].
  - cbn [read_lines]. split.
    + intros [st' H].
      destruct (read_line stoi stod line st) as [e|st1] eqn:E1;
        [discriminate|].
      destruct (proj1 (read_line_succeeds line st)) as [Hi Hd]; [eauto|].
      destruct (proj1 (IH st1)) as [Hi' Hd']; [eauto|].
      split; intros v Hv.
      * apply int_values_cons in Hv. destruct Hv; auto.
      * apply real_values_cons in Hv. destruct Hv; auto.
    + intros [Hi Hd].
      destruct (proj2 (read_line_succeeds line st)) as [st1 E1].
      { split; intros v Hv.
        - apply Hi, int_values_cons. auto.
        - apply Hd, real_values_cons. auto. }
      rewrite E1. apply IH. split; intros v Hv.
      * apply Hi, int_values_cons. auto.
      * apply Hd, real_values_cons. auto.
Qed.

End ReaderFailure.

(** X14. The loop over the lines fails only on numbers: it ends well
    exactly when [std::stoi] accepts every value given to [end_range]
    and [criteria.max_iterations] and [std::stod] accepts every value
    given to the six real-valued keys.  Nothing else in a file (unknown
    keys, missing keys, repeated keys, lines without ["="]) can make it
    fail. *)
Theorem lines_fail_only_on_numbers
    (stoi : string -> Exception + Z) (stod : string -> Exception + Q)
    (lines : list string) (st : ExampleWindow * Locals) :
  (exists st', read_lines stoi stod lines st = inr st')
  <-> (forall v,
         In v (values_for "end_range" lines
               ++ values_for "criteria.max_iterations" lines) ->
         exists x, stoi v = inr x)
      /\ (forall v,
            In v (values_for "criteria.relative_fitness" lines
                  ++ values_for "criteria.relative_rmse" lines
                  ++ values_for "voxel_size" lines
                  ++ values_for "search_radii" lines
                  ++ values_for "ground_truth_tx" lines
                  ++ values_for "ground_truth_ty" lines) ->
            exists y, stod v = inr y).
Proof. apply read_lines_succeed. Qed.

Lemma lines_fail_only_on_numbers_witness :
  exists st',
    read_lines DemoReader.stoi DemoReader.stod DemoReader.config
      (DemoReader.window, DemoReader.locals) = inr st'.
Proof.
  apply (proj2 (lines_fail_only_on_numbers DemoReader.stoi DemoReader.stod
                  DemoReader.config (DemoReader.window, DemoReader.locals))).
  split; intros v Hv; vm_compute in Hv;
    repeat (destruct Hv as [<-|Hv]; [eexists; vm_compute; reflexivity|]);
    destruct Hv.
Defined.

(** ** The reader as a whole *)

Lemma check_succeeds
    (voxel_sizes search_radius fitness rmse : list Q) (iterations : list Z)
    (method : string) :
  (exists r,
     ReadConfigFile_check voxel_sizes search_radius fitness rmse iterations
       method = inr r)
  <-> (length search_radius = length voxel_sizes
       /\ length iterations = length voxel_sizes
       /\ length fitness = length voxel_sizes
       /\ length rmse = length voxel_sizes)
      /\ (method = "PointToPoint"%string \/ method = "PointToPlane"%string).
Proof.
  unfold ReadConfigFile_check.
  destruct (negb (length search_radius =? length voxel_sizes)
            || negb (length iterations =? length voxel_sizes)
            || negb (length fitness =? length voxel_sizes)
            || negb (length rmse =? length voxel_sizes)) eqn:E.
  - split; [intros [r Hr]; discriminate|].
    intros [(Ha & Hb & Hc & Hd) _].
    rewrite Ha, Hb, Hc, Hd, !Nat.eqb_refl in E. discriminate.
  - rewrite !orb_false_iff, !negb_false_iff, !Nat.eqb_eq in E.
    destruct (String.eqb_spec method "PointToPoint");
      [split; [tauto|eauto]|].
    destruct (String.eqb_spec method "PointToPlane");
      [split; [tauto|eauto]|].
    split; [intros [r Hr]; discriminate|tauto].
Qed.

Lemma check_result
    (voxel_sizes search_radius fitness rmse : list Q) (iterations : list Z)
    (method : string) criterias estimation :
  ReadConfigFile_check voxel_sizes search_radius fitness rmse iterations
    method = inr (criterias, estimation) ->
  length criterias = length voxel_sizes
  /\ length search_radius = length voxel_sizes
  /\ (method = "PointToPoint"%string
      /\ estimation = TransformationEstimationPointToPoint
      \/ method = "PointToPlane"%string
         /\ estimation = TransformationEstimationPointToPlane).
Proof.
  intros H.
  destruct (proj1 (check_succeeds voxel_sizes search_radius fitness rmse
                     iterations method)) as [(Hs & _) _]; [eauto|].
  revert H. unfold ReadConfigFile_check.
  destruct (_ || _); [discriminate|].
  destruct (String.eqb_spec method "PointToPoint");
    [|destruct (String.eqb_spec method "PointToPlane"); [|discriminate]];
    intros H; injection H as <- <-;
    rewrite length_map, length_seq; auto.
Qed.

Lemma numbers_length {A} (parse : string -> Exception + A) values :
  (forall v, In v values -> exists x, parse v = inr x) ->
  length (numbers parse values) = length values.
Proof.
  induction values as [|v values IH]; intros H; [reflexivity|].
  unfold numbers in *. cbn [flat_map].
  destruct (H v) as [x ->]; [left; reflexivity|].
  cbn. rewrite IH; [reflexivity|]. intros u Hu. apply H. right. exact Hu.
Qed.

(** X15. A configuration file that cannot be opened does not stop the
    reader: it prints one line and goes on with empty vectors.  For a
    window as the constructor leaves it (no voxel sizes, no search radii,
    a method that is neither of the two known ones, such as the empty
    string) the call then ends in the fatal error about the registration
    method, after the usual report. *)
Theorem missing_file_ends_in_method_error
    (stoi : string -> Exception + Z) (stod : string -> Exception + Q)
    (w : ExampleWindow) :
  voxel_sizes_ w = [] -> search_radius_ w = [] ->
  registration_method_ w <> "PointToPoint"%string ->
  registration_method_ w <> "PointToPlane"%string ->
  ReadConfigFile stoi stod None w
  = (inl (Fatal ErrRegistrationMethod),
     CerrCouldNotOpen :: report w (mkLocals [] [] [] EmptyString)).
Proof.
  intros Hv Hs H1 H2. unfold ReadConfigFile, ReadConfigFile_check.
  rewrite Hv, Hs. cbn [length Nat.eqb negb orb relative_fitness
                       relative_rmse max_iterations].
  destruct (String.eqb_spec (registration_method_ w) "PointToPoint");
    [contradiction|].
  destruct (String.eqb_spec (registration_method_ w) "PointToPlane");
    [contradiction|].
  reflexivity.
Qed.

Lemma missing_file_ends_in_method_error_witness :
  fst (ReadConfigFile DemoReader.stoi DemoReader.stod None DemoReader.window)
  = inl (Fatal ErrRegistrationMethod).
Proof.
  rewrite (missing_file_ends_in_method_error DemoReader.stoi DemoReader.stod
             DemoReader.window); [reflexivity|reflexivity|reflexivity| |];
    intros H; discriminate H.
Defined.

(** X16. Which files the reader accepts.  Starting from a window without
    voxel sizes and search radii, reading a file ends well exactly when
    every number is accepted by the library, the file has as many search
    radii, iteration counts, fitness and RMSE thresholds as it has voxel
    sizes, and the registration method in force (the last one given, or
    the window's) is ["PointToPoint"] or ["PointToPlane"]. *)
Theorem accepted_configuration_files
    (stoi : string -> Exception + Z) (stod : string -> Exception + Q)
    (lines : list string) (w : ExampleWindow) :
  voxel_sizes_ w = [] -> search_radius_ w = [] ->
  let count := fun key => length (values_for key lines) in
  let method :=
    List.last (values_for "registration_method" lines)
      (registration_method_ w) in
  (exists w' out, ReadConfigFile stoi stod (Some lines) w = (inr w', out))
  <-> ((forall v,
          In v (values_for "end_range" lines
                ++ values_for "criteria.max_iterations" lines) ->
          exists x, stoi v = inr x)
       /\ (forall v,
             In v (values_for "criteria.relative_fitness" lines
                   ++ values_for "criteria.relative_rmse" lines
                   ++ values_for "voxel_size" lines
                   ++ values_for "search_radii" lines
                   ++ values_for "ground_truth_tx" lines
                   ++ values_for "ground_truth_ty" lines) ->
             exists y, stod v = inr y))
      /\ (count "search_radii"%string = count "voxel_size"%string
          /\ count "criteria.max_iterations"%string
             = count "voxel_size"%string
          /\ count "criteria.relative_fitness"%string
             = count "voxel_size"%string
          /\ count "criteria.relative_rmse"%string
             = count "voxel_size"%string)
      /\ (method = "PointToPoint"%string \/ method = "PointToPlane"%string).
Proof.
  intros Hv Hs count method.
  pose proof (lines_parse :=
    read_lines_succeed stoi stod lines (w, mkLocals [] [] [] EmptyString)).
  unfold int_values, real_values in lines_parse.
  assert (Hlen : forall w' l',
    read_lines stoi stod lines (w, mkLocals [] [] [] EmptyString)
    = inr (w', l') ->
    length (voxel_sizes_ w') = count "voxel_size"%string
    /\ length (search_radius_ w') = count "search_radii"%string
    /\ length (max_iterations l') = count "criteria.max_iterations"%string
    /\ length (relative_fitness l')
       = count "criteria.relative_fitness"%string
    /\ length (relative_rmse l') = count "criteria.relative_rmse"%string
    /\ registration_method_ w' = method).
  { intros w' l' R.
    destruct (proj1 lines_parse) as [Hi Hd]; [eauto|].
    destruct (read_lines_effect stoi stod lines _ _ R)
      as (E1 & E2 & E3 & E4 & E5 & _ & E7 & _).
    cbn [fst snd relative_fitness relative_rmse max_iterations] in *.
    rewrite E1, E2, E3, E4, E5, E7, Hv, Hs. cbn [app].
    unfold count.
    rewrite !numbers_length;
      [auto 10| | | | |]; intros v Hin;
      first [apply Hi | apply Hd]; rewrite !in_app_iff; tauto. }
  unfold ReadConfigFile. split.
  - intros (w' & out & H).
    assert (Hrun : exists st1,
              read_lines stoi stod lines (w, mkLocals [] [] [] EmptyString)
              = inr st1).
    { destruct (read_lines stoi stod lines _) as [e|st1];
        [discriminate H|eauto]. }
    destruct Hrun as [[w1 l1] R]. rewrite R in H.
    destruct (Hlen w1 l1 R) as (L1 & L2 & L3 & L4 & L5 & L6).
    destruct (ReadConfigFile_check (voxel_sizes_ w1) (search_radius_ w1)
                (relative_fitness l1) (relative_rmse l1) (max_iterations l1)
                (registration_method_ w1)) as [e|[c est]] eqn:C;
      [discriminate H|].
    destruct (proj1 (check_succeeds _ _ _ _ _ _) (ex_intro _ _ C))
      as [Hl Hm].
    split; [apply lines_parse; eauto|].
    rewrite <- L1, <- L2, <- L3, <- L4, <- L5, <- L6. tauto.
  - intros (Hp & Hc & Hm).
    destruct (proj2 lines_parse Hp) as [[w1 l1] R]. rewrite R.
    destruct (Hlen w1 l1 R) as (L1 & L2 & L3 & L4 & L5 & L6).
    destruct (proj2 (check_succeeds (voxel_sizes_ w1) (search_radius_ w1)
                       (relative_fitness l1) (relative_rmse l1)
                       (max_iterations l1) (registration_method_ w1)))
      as [[c est] C].
    { rewrite L1, L2, L3, L4, L5, L6. tauto. }
    rewrite C. eauto.
Qed.

Lemma accepted_configuration_files_witness :
  exists w' out,
    ReadConfigFile DemoReader.stoi DemoReader.stod (Some DemoReader.config)
      DemoReader.window = (inr w', out)
    /\ length (criterias_ w') = 3
    /\ estimation_ w' = Some TransformationEstimationPointToPlane
    /\ verbosity_ w' = VerbosityDebug
    /\ In WarningTooLargeRange out.
Proof.
  destruct (proj2 (accepted_configuration_files DemoReader.stoi
                     DemoReader.stod DemoReader.config DemoReader.window
                     eq_refl eq_refl)) as (w' & out & H).
  - split; [split|split].
    + intros v Hv. vm_compute in Hv.
      repeat (destruct Hv as [<-|Hv]; [eexists; vm_compute; reflexivity|]).
      destruct Hv.
    + intros v Hv. vm_compute in Hv.
      repeat (destruct Hv as [<-|Hv]; [eexists; vm_compute; reflexivity|]).
      destruct Hv.
    + vm_compute. auto.
    + right. vm_compute. reflexivity.
  - exists w', out. split; [exact H|].
    vm_compute in H. injection H as <- <-. vm_compute. auto 10.
Defined.

(** X17. What an accepted configuration leaves behind: one criteria entry
    was added per voxel size, there are as many search radii as voxel
    sizes, the estimation method is the one named by the registration
    method, the verbosity is Debug or Info, the warning about a large
    range was given exactly when the range ends beyond 500, and the last
    thing printed is the completion message. *)
Theorem accepted_configuration_is_consistent
    (stoi : string -> Exception + Z) (stod : string -> Exception + Q)
    (cFile : option (list string)) (w w' : ExampleWindow)
    (out : list Output) :
  ReadConfigFile stoi stod cFile w = (inr w', out) ->
  length (criterias_ w') = length (criterias_ w) + length (voxel_sizes_ w')
  /\ length (search_radius_ w') = length (voxel_sizes_ w')
  /\ (registration_method_ w' = "PointToPoint"%string
      /\ estimation_ w' = Some TransformationEstimationPointToPoint
      \/ registration_method_ w' = "PointToPlane"%string
         /\ estimation_ w' = Some TransformationEstimationPointToPlane)
  /\ (verbosity_ w' = VerbosityDebug \/ verbosity_ w' = VerbosityInfo)
  /\ (In WarningTooLargeRange out <-> (500 < end_range_ w')%Z)
  /\ List.last out CerrCouldNotOpen = CoutReadComplete.
Proof.
  unfold ReadConfigFile. intros H.
  assert (Hst : exists w1 l1 pre,
            (pre = [] \/ pre = [CerrCouldNotOpen])
            /\ criterias_ w1 = criterias_ w
            /\ match ReadConfigFile_check (voxel_sizes_ w1)
                       (search_radius_ w1) (relative_fitness l1)
                       (relative_rmse l1) (max_iterations l1)
                       (registration_method_ w1) with
               | inl e => (inl (Fatal e), pre ++ report w1 l1)
               | inr (criterias, estimation) =>
                   (inr (set_verbosity
                           (if String.eqb (verb l1) "Debug"
                            then VerbosityDebug else VerbosityInfo)
                           (set_estimation (Some estimation)
                              (set_criterias (criterias_ w1 ++ criterias)
                                 w1))),
                    (pre ++ report w1 l1) ++ [CoutReadComplete])
               end = (inr w', out)).
  { destruct cFile as [lines|].
    - destruct (read_lines stoi stod lines _) as [e|[w1 l1]] eqn:R;
        [discriminate H|].
      exists w1, l1, []. split; [left; reflexivity|]. split; [|exact H].
      apply (read_lines_effect stoi stod lines _ _ R).
    - exists w, (mkLocals [] [] [] EmptyString), [CerrCouldNotOpen].
      split; [right; reflexivity|]. split; [reflexivity|exact H]. }
  clear H. destruct Hst as (w1 & l1 & pre & Hpre & Hcr & H).
  destruct (ReadConfigFile_check _ _ _ _ _ _) as [e|[c est]] eqn:C;
    [discriminate H|].
  injection H as <- <-.
  destruct (check_result _ _ _ _ _ _ _ _ C) as (Lc & Ls & Hm).
  cbn [criterias_ voxel_sizes_ search_radius_ registration_method_
       estimation_ verbosity_ end_range_ set_verbosity set_estimation
       set_criterias].
  split; [rewrite length_app, Lc, Hcr; reflexivity|].
  split; [exact Ls|].
  split; [destruct Hm as [[-> ->]|[-> ->]]; auto|].
  split; [destruct (String.eqb _ _); auto|].
  split; [|apply List.last_last].
  unfold report. rewrite !in_app_iff.
  destruct (Z.ltb_spec 500 (end_range_ w1)) as [Hlt|Hge].
  - split; [intros _; exact Hlt|]. intros _.
    left. right. right. left. left. reflexivity.
  - split; [|lia]. intros Hin. exfalso.
    destruct Hpre as [-> | ->]; cbn in Hin;
      repeat (destruct Hin as [Hin|Hin]; try discriminate Hin);
      try contradiction.
Qed.

Lemma accepted_configuration_is_consistent_witness :
  exists w' out,
    ReadConfigFile DemoReader.stoi DemoReader.stod (Some DemoReader.config)
      DemoReader.window = (inr w', out)
    /\ length (criterias_ w') = length (voxel_sizes_ w')
    /\ In WarningTooLargeRange out.
Proof.
  destruct (ReadConfigFile DemoReader.stoi DemoReader.stod
              (Some DemoReader.config) DemoReader.window)
    as [[e|w'] out] eqn:E; [vm_compute in E; discriminate E|].
  exists w', out. split; [reflexivity|].
  destruct (accepted_configuration_is_consistent DemoReader.stoi
              DemoReader.stod (Some DemoReader.config) DemoReader.window
              w' out E) as (Hc & _ & _ & _ & Hw & _).
  split; [exact Hc|]. apply Hw.
  vm_compute in E. injection E as <- _. vm_compute. reflexivity.
Defined.

(** ** Files that say the same *)

Lemma read_effect_functional stoi stod lines1 lines2 st st1 st2 :
  (forall key, values_for key lines1 = values_for key lines2) ->
  read_effect stoi stod lines1 st st1 ->
  read_effect stoi stod lines2 st st2 ->
  st1 = st2.
Proof.
  intros Hsame
    (A1 & A2 & A3 & A4 & A5 & A6 & A7 & A8 & A9 & A10 & A11 & A12 & A13 & A14)
    (B1 & B2 & B3 & B4 & B5 & B6 & B7 & B8 & B9 & B10 & B11 & B12 & B13 & B14).
  rewrite !Hsame in *.
  rewrite <- B1 in A1. rewrite <- B2 in A2. rewrite <- B3 in A3.
  rewrite <- B4 in A4. rewrite <- B5 in A5. rewrite <- B6 in A6.
  rewrite <- B7 in A7. rewrite <- B8 in A8. rewrite <- B9 in A9.
  rewrite <- B10 in A10. rewrite <- B11 in A11. rewrite <- B12 in A12.
  rewrite <- B13 in A13. rewrite <- B14 in A14.
  destruct st1 as [[] []], st2 as [[] []]. cbn in *. congruence.
Qed.

(** X18. The loop depends on a file only through the sequence of values
    given to each key: two files that give every key the same values in
    the same order (they may differ in comments, blank lines, white space
    and in how lines with different keys are interleaved) take the
    reader to the same members and locals. *)
Theorem order_across_keys_is_irrelevant
    (stoi : string -> Exception + Z) (stod : string -> Exception + Q)
    (lines1 lines2 : list string) (st st1 : ExampleWindow * Locals) :
  (forall key, values_for key lines1 = values_for key lines2) ->
  read_lines stoi stod lines1 st = inr st1 ->
  read_lines stoi stod lines2 st = inr st1.
Proof.
  intros Hsame R1.
  destruct (proj1 (read_lines_succeed stoi stod lines1 st)) as [Hi Hd];
    [eauto|].
  destruct (proj2 (read_lines_succeed stoi stod lines2 st)) as [st2 R2].
  { unfold int_values, real_values in *. rewrite <- !Hsame. auto. }
  rewrite R2. f_equal. symmetry.
  apply (read_effect_functional stoi stod lines1 lines2 st);
    [exact Hsame|apply read_lines_effect, R1|apply read_lines_effect, R2].
Qed.

Lemma order_across_keys_is_irrelevant_witness :
  read_lines DemoReader.stoi DemoReader.stod DemoReader.interleaved
    (DemoReader.window, DemoReader.locals)
  = read_lines DemoReader.stoi DemoReader.stod DemoReader.grouped
      (DemoReader.window, DemoReader.locals).
Proof.
  destruct (read_lines DemoReader.stoi DemoReader.stod DemoReader.grouped
              (DemoReader.window, DemoReader.locals)) as [e|st1] eqn:E;
    [vm_compute in E; discriminate E|].
  apply (order_across_keys_is_irrelevant DemoReader.stoi DemoReader.stod
           DemoReader.grouped DemoReader.interleaved
           (DemoReader.window, DemoReader.locals) st1); [|exact E].
  intros key.
  unfold values_for, DemoReader.grouped, DemoReader.interleaved.
  cbn [flat_map].
  change (erase_spaces "# sizes") with "#sizes"%string.
  change (erase_spaces "voxel_size=3") with "voxel_size=3"%string.
  change (erase_spaces "voxel_size=2") with "voxel_size=2"%string.
  change (erase_spaces "search_radii=6") with "search_radii=6"%string.
  change (erase_spaces "voxel_size = 3") with "voxel_size=3"%string.
  change (erase_spaces "voxel_size = 2") with "voxel_size=2"%string.
  change (erase_spaces "search_radii = 6") with "search_radii=6"%string.
  change (name_of "voxel_size=3") with "voxel_size"%string.
  change (name_of "voxel_size=2") with "voxel_size"%string.
  change (name_of "search_radii=6") with "search_radii"%string.
  cbn [skipped negb andb Ascii.eqb Bool.eqb app].
  destruct (String.eqb_spec "voxel_size" key) as [<-|Hv];
    [reflexivity|].
  destruct (String.eqb_spec "search_radii" key) as [<-|Hs]; reflexivity.
Defined.

(** ** What an accepted file configures *)

(** X19. The criteria of an accepted file pair up by position: starting
    from a window without voxel sizes and search radii, the voxel sizes
    are the values of [voxel_size] in file order, the [i]-th criteria
    added is made of the [i]-th fitness value, the [i]-th RMSE value and
    the [i]-th iteration count of the file, and the verbosity is Debug
    exactly when the last [verbosity] line says ["Debug"] (Info
    otherwise, also when there is no such line). *)
Theorem criteria_pair_up_by_position
    (stoi : string -> Exception + Z) (stod : string -> Exception + Q)
    (lines : list string) (w w' : ExampleWindow) (out : list Output) :
  voxel_sizes_ w = [] -> search_radius_ w = [] ->
  ReadConfigFile stoi stod (Some lines) w = (inr w', out) ->
  let fitness :=
    numbers stod (values_for "criteria.relative_fitness" lines) in
  let rmse := numbers stod (values_for "criteria.relative_rmse" lines) in
  let iterations :=
    numbers stoi (values_for "criteria.max_iterations" lines) in
  voxel_sizes_ w' = numbers stod (values_for "voxel_size" lines)
  /\ search_radius_ w' = numbers stod (values_for "search_radii" lines)
  /\ criterias_ w'
     = criterias_ w
       ++ map (fun i => mkCriteria (nth i fitness 0%Q) (nth i rmse 0%Q)
                          (nth i iterations 0%Z))
              (seq 0 (length (voxel_sizes_ w')))
  /\ length fitness = length (voxel_sizes_ w')
  /\ length rmse = length (voxel_sizes_ w')
  /\ length iterations = length (voxel_sizes_ w')
  /\ verbosity_ w'
     = (if String.eqb (List.last (values_for "verbosity" lines) EmptyString)
                      "Debug"
        then VerbosityDebug else VerbosityInfo).
Proof.
  intros Hv Hs H fitness rmse iterations. unfold ReadConfigFile in H.
  destruct (read_lines stoi stod lines (w, mkLocals [] [] [] EmptyString))
    as [e|[w1 l1]] eqn:R; [discriminate H|].
  destruct (read_lines_effect stoi stod lines _ _ R)
    as (E1 & E2 & E3 & E4 & E5 & _ & _ & E8 & _ & _ & _ & E12 & _).
  cbn [fst snd relative_fitness relative_rmse max_iterations verb] in *.
  rewrite Hv in E1. rewrite Hs in E2. cbn [app] in E1, E2, E3, E4, E5.
  destruct (ReadConfigFile_check (voxel_sizes_ w1) (search_radius_ w1)
              (relative_fitness l1) (relative_rmse l1) (max_iterations l1)
              (registration_method_ w1)) as [e|[c est]] eqn:C;
    [discriminate H|].
  destruct (proj1 (check_succeeds _ _ _ _ _ _) (ex_intro _ _ C))
    as [(Ls & Li & Lf & Lr) _].
  assert (Hc : c = map (fun i => mkCriteria (nth i (relative_fitness l1) 0%Q)
                                   (nth i (relative_rmse l1) 0%Q)
                                   (nth i (max_iterations l1) 0%Z))
                       (seq 0 (length (voxel_sizes_ w1)))).
  { revert C. unfold ReadConfigFile_check.
    rewrite Ls, Li, Lf, Lr, !Nat.eqb_refl. cbn [negb orb].
    destruct (String.eqb (registration_method_ w1) "PointToPoint");
      [|destruct (String.eqb (registration_method_ w1) "PointToPlane");
        [|discriminate]];
      intros C; injection C as <- _; reflexivity. }
  injection H as <- _.
  cbn [criterias_ voxel_sizes_ search_radius_ verbosity_ set_verbosity
       set_estimation set_criterias].
  subst fitness rmse iterations.
  rewrite <- E3, <- E4, <- E5, E8, E12, Hc.
  repeat split; auto.
Qed.

Lemma criteria_pair_up_by_position_witness :
  exists w' out,
    ReadConfigFile DemoReader.stoi DemoReader.stod (Some DemoReader.config)
      DemoReader.window = (inr w', out)
    /\ map max_iteration_ (criterias_ w') = [20; 15; 10]%Z
    /\ verbosity_ w' = VerbosityDebug.
Proof.
  destruct (ReadConfigFile DemoReader.stoi DemoReader.stod
              (Some DemoReader.config) DemoReader.window)
    as [[e|w'] out] eqn:E; [vm_compute in E; discriminate E|].
  exists w', out. split; [reflexivity|].
  destruct (criteria_pair_up_by_position DemoReader.stoi DemoReader.stod
              DemoReader.config DemoReader.window w' out eq_refl eq_refl E)
    as (Hv & _ & Hc & _ & _ & _ & Hverb).
  rewrite Hc, Hv, Hverb. vm_compute. auto.
Defined.
